(** * Directive-to-resolver compiler of amplify-category-api

    A shallow embedding of
    - [packages/amplify-graphql-relational-transformer/src/resolvers.ts]
      (the singular-connection resolver synthesizer, key condensation and
      the secondary-index reconciler), and
    - the primary-key transformer ([PrimaryKeyTransformer], [validate]),
    together with the properties the specification states about them.

    Compile-time code (TypeScript that throws and mutates the transformer
    context) is embedded in a state-and-exception monad.  The mapping
    templates the compiler emits are kept as expression trees, and a small
    evaluator gives the meaning of the trees these resolvers use. *)

From Stdlib Require Import ZArith String Ascii.
From stdpp Require Import base option list gmap strings.

Set Warnings "-register-all".

(** ** Strings *)

(** The double-quote character, which template texts contain. *)
Definition dquote : string := String "034"%char EmptyString.

(** [strip_prefix p s] is [Some r] when [s] is [p] followed by [r]. *)
Fixpoint strip_prefix (p s : string) : option string :=
  match p with
  | EmptyString => Some s
  | String a p' =>
      match s with
      | EmptyString => None
      | String b s' => if Ascii.eqb a b then strip_prefix p' s' else None
      end
  end.

(** [strip_suffix suf s] is [Some r] when [s] is [r] followed by [suf]
    (the first such split, scanning from the left). *)
Fixpoint strip_suffix (suf s : string) : option string :=
  if String.eqb s suf then Some EmptyString
  else match s with
       | EmptyString => None
       | String a s' => String a <$> strip_suffix suf s'
       end.

(** JavaScript's [Array.prototype.join] on an array of strings. *)
Fixpoint join (sep : string) (parts : list string) : string :=
  match parts with
  | [] => EmptyString
  | [x] => x
  | x :: rest => x +:+ sep +:+ join sep rest
  end.

(** ** Thrown errors and the compile-time monad *)

Inductive Thrown : Type :=
  | Error (message : string)
  | TypeError (message : string)
  | InvalidDirectiveError (message : string).

Inductive Completion (A : Type) : Type :=
  | Returns (a : A)
  | Throws (e : Thrown).
Arguments Returns {A} a.
Arguments Throws {A} e.

(** A computation over a mutable state [S]: it completes normally or
    throws, and in both cases leaves a state behind. *)
Definition M (S A : Type) : Type := S -> Completion A * S.

Definition ret {S A} (a : A) : M S A := fun s => (Returns a, s).
Definition throw {S A} (e : Thrown) : M S A := fun s => (Throws e, s).
Definition bind {S A B} (m : M S A) (k : A -> M S B) : M S B :=
  fun s => match m s with
           | (Returns a, s') => k a s'
           | (Throws e, s') => (Throws e, s')
           end.
Definition lift {S A} (c : Completion A) : M S A := fun s => (c, s).
Definition get {S} : M S S := fun s => (Returns s, s).
Definition modify {S} (f : S -> S) : M S unit := fun s => (Returns tt, f s).

Notation "'do' x <- m ; k" := (bind m (fun x => k))
  (at level 10, x name, m at level 100, k at level 200,
   format "'[v' 'do'  x  <-  m ; '/' k ']'").
Notation "'do_' m ; k" := (bind m (fun _ => k))
  (at level 10, m at level 100, k at level 200,
   format "'[v' 'do_'  m ; '/' k ']'").

(** ** GraphQL syntax nodes (graphql-js) *)

Inductive TypeNode : Type :=
  | NamedType (name : string)
  | ListType (type : TypeNode)
  | NonNullType (type : TypeNode).

(** The value of a directive argument, as far as [sortKeyFields] needs it:
    one string or a list of strings. *)
Inductive ArgumentValue : Type :=
  | StringValue (value : string)
  | ListValue (values : list string).

Record DirectiveNode : Type := mkDirective {
  directive_name : string;
  directive_arguments : list (string * ArgumentValue)
}.

(** [field_loc] is the node's source location; two nodes of one document
    never share it, so equality of records models [===] on nodes. *)
Record FieldDefinitionNode : Type := mkField {
  field_name : string;
  field_type : TypeNode;
  field_directives : list DirectiveNode;
  field_loc : nat
}.

Record ObjectTypeDefinitionNode : Type := mkObject {
  object_name : string;
  object_directives : list DirectiveNode;
  object_fields : list FieldDefinitionNode
}.

Record EnumTypeDefinitionNode : Type := mkEnum {
  enum_name : string;
  enum_values : list string
}.

#[global] Instance TypeNode_eq_dec : EqDecision TypeNode.
Proof. solve_decision. Defined.
#[global] Instance ArgumentValue_eq_dec : EqDecision ArgumentValue.
Proof. solve_decision. Defined.
#[global] Instance DirectiveNode_eq_dec : EqDecision DirectiveNode.
Proof. solve_decision. Defined.
#[global] Instance FieldDefinitionNode_eq_dec : EqDecision FieldDefinitionNode.
Proof. solve_decision. Defined.

(** ** Mapping-template expression trees (graphql-mapping-template) *)

Inductive Expression : Type :=
  | raw (value : string)
  | ref (value : string)
  | str (value : string)
  | int_ (value : Z)
  | nul
  | obj (attributes : list (string * Expression))
  | methodCall (methodName : Expression) (args : list Expression)
  | qref (value : Expression)
  | set_ (key value : Expression)
  | iff_ (predicate expr : Expression)
  | ifElse (predicate ifExpr elseExpr : Expression)
  | and_ (expressions : list Expression)
  | or_ (expressions : list Expression)
  | not_ (expr : Expression)
  | equals (leftExpr rightExpr : Expression)
  | compoundExpression (expressions : list Expression)
  | toJson (expr : Expression).

Definition isNullOrEmpty (e : Expression) : Expression :=
  methodCall (ref "util.isNullOrEmpty") [e].

(** A mapping template stored under a name; [templateProgram] is the tree
    whose printed text is uploaded. *)
Record MappingTemplate : Type := mkMappingTemplate {
  templateProgram : Expression;
  templateName : string
}.

(** [MappingTemplate.s3MappingTemplateFromString] of
    graphql-transformer-core: the template is stored under the prefix
    [resolvers/]. *)
Definition s3MappingTemplateFromString (template : Expression) (templateName : string)
  : MappingTemplate :=
  let templatePrefix := "resolvers" in
  mkMappingTemplate template (templatePrefix +:+ "/" +:+ templateName).

(** ** Meaning of mapping templates

    The templates are Velocity programs run by the GraphQL service.  The
    evaluator below covers the node kinds and the references these
    resolvers emit; a value the model does not interpret is [VOpaque]. *)

Inductive Value : Type :=
  | VNull
  | VBool (b : bool)
  | VInt (n : Z)
  | VString (s : string)
  | VList (items : list Value)
  | VMap (entries : list (string * Value))
  | VOpaque (text : string).

Fixpoint value_eqb (a b : Value) : bool :=
  match a, b with
  | VNull, VNull => true
  | VBool x, VBool y => Bool.eqb x y
  | VInt x, VInt y => Z.eqb x y
  | VString x, VString y => String.eqb x y
  | VList xs, VList ys =>
      (fix all2 (xs ys : list Value) : bool :=
         match xs, ys with
         | [], [] => true
         | x :: xs', y :: ys' => value_eqb x y && all2 xs' ys'
         | _, _ => false
         end) xs ys
  | VMap xs, VMap ys =>
      (fix all2 (xs ys : list (string * Value)) : bool :=
         match xs, ys with
         | [], [] => true
         | (k, x) :: xs', (l, y) :: ys' =>
             String.eqb k l && value_eqb x y && all2 xs' ys'
         | _, _ => false
         end) xs ys
  | VOpaque x, VOpaque y => String.eqb x y
  | _, _ => false
  end.

Definition isNull (v : Value) : bool :=
  match v with VNull => true | _ => false end.

(** Velocity truth: null and false are false, anything else is true. *)
Definition truthy (v : Value) : bool :=
  match v with VNull | VBool false => false | _ => true end.

Definition isNullOrEmptyValue (v : Value) : bool :=
  match v with
  | VNull | VString EmptyString | VList [] | VMap [] => true
  | _ => false
  end.

(** What a template reads: the parent object's fields ([$ctx.source]),
    the stash, and, in a response template, the result of a Query. *)
Record Context : Type := mkContext {
  ctx_source : string -> Value;
  ctx_stash_deniedField : Value;
  ctx_stash_connectionAttibutes : string -> Value;
  ctx_stash_authFilter : Value;
  ctx_result_items : list Value;
  ctx_result_scannedCount : Z;
  ctx_error : Value
}.

(** Template variables assigned with [#set]. *)
Abbreviation Store := (gmap string Value).

(** The value of the reference [$path]. *)
Definition reference (c : Context) (st : Store) (path : string) : Value :=
  if String.eqb path "ctx.result.items.isEmpty()" then
    VBool (match ctx_result_items c with [] => true | _ => false end)
  else if String.eqb path "ctx.result.scannedCount" then
    VInt (ctx_result_scannedCount c)
  else if String.eqb path "ctx.result.items[0]" then
    default VNull (head (ctx_result_items c))
  else if String.eqb path "ctx.error" then ctx_error c
  else if String.eqb path "ctx.stash.deniedField" then ctx_stash_deniedField c
  else if String.eqb path "ctx.stash.authFilter" then ctx_stash_authFilter c
  else
    match strip_prefix "ctx.source." path with
    | Some f => ctx_source c f
    | None =>
        match strip_prefix ("ctx.stash.connectionAttibutes.get(" +:+ dquote) path
              ≫= strip_suffix (dquote +:+ ")") with
        | Some f => ctx_stash_connectionAttibutes c f
        | None =>
            match strip_prefix "util." path with
            | Some _ => VOpaque path
            | None => default VNull (st !! path)
            end
        end
    end.

(** The utility methods the resolvers call. *)
Definition call (method : string) (args : list Value) : Value :=
  if String.eqb method "util.isNull" then
    match args with [v] => VBool (isNull v) | _ => VNull end
  else if String.eqb method "util.defaultIfNull" then
    match args with [v; d] => if isNull v then d else v | _ => VNull end
  else if String.eqb method "util.isNullOrEmpty" then
    match args with [v] => VBool (isNullOrEmptyValue v) | _ => VNull end
  else VOpaque method.

(** The value of an expression in argument or predicate position. *)
Fixpoint value_of (c : Context) (st : Store) (e : Expression) : Value :=
  match e with
  | raw text =>
      match strip_prefix "$util.isNull($" text ≫= strip_suffix ")" with
      | Some path => VBool (isNull (reference c st path))
      | None => VOpaque text
      end
  | ref path => reference c st path
  | str s => VString s
  | int_ n => VInt n
  | nul => VNull
  | obj attributes =>
      VMap (map (fun kv => (fst kv, value_of c st (snd kv))) attributes)
  | methodCall (ref method) args => call method (map (value_of c st) args)
  | methodCall _ _ => VNull
  | not_ e' => VBool (negb (truthy (value_of c st e')))
  | and_ es => VBool (forallb (fun e' => truthy (value_of c st e')) es)
  | or_ es => VBool (existsb (fun e' => truthy (value_of c st e')) es)
  | equals l r => VBool (value_eqb (value_of c st l) (value_of c st r))
  | toJson e' => value_of c st e'
  | qref _ | set_ _ _ | iff_ _ _ | ifElse _ _ _ | compoundExpression _ => VNull
  end.

(** How the run of a template ends: it renders its output, or a [#return]
    directive resolves the field locally without contacting the data
    source, or [$util.unauthorized()] / [$util.error(...)] aborts it. *)
Inductive Outcome : Type :=
  | Rendered (output : list Value) (st : Store)
  | Returned (v : Value)
  | Unauthorized
  | Errored (text : string).

(** [$map.put(key, value)] on an entry list. *)
Definition map_put (key : string) (v : Value) (entries : list (string * Value))
  : list (string * Value) :=
  filter (fun kv => negb (String.eqb (fst kv) key)) entries ++ [(key, v)].

(** The run of an expression in statement position. *)
Fixpoint exec (c : Context) (e : Expression) (st : Store) : Outcome :=
  match e with
  | raw text =>
      if String.eqb text "#return" then Returned VNull
      else if String.eqb text "#return($util.toJson(null))" then Returned VNull
      else Rendered [value_of c st e] st
  | ref path =>
      if String.eqb path "util.unauthorized()" then Unauthorized
      else match strip_prefix "util.error(" path with
           | Some _ => Errored path
           | None => Rendered [reference c st path] st
           end
  | set_ (ref x) v => Rendered [] (<[x := value_of c st v]> st)
  | set_ _ _ => Rendered [] st
  | qref (methodCall (ref method) [k; v]) =>
      match strip_suffix ".put" method, value_of c st k with
      | Some x, VString key =>
          match st !! x with
          | Some (VMap entries) =>
              Rendered [] (<[x := VMap (map_put key (value_of c st v) entries)]> st)
          | _ => Rendered [] st
          end
      | _, _ => Rendered [] st
      end
  | qref _ => Rendered [] st
  | iff_ p body =>
      if truthy (value_of c st p) then exec c body st else Rendered [] st
  | ifElse p a b =>
      if truthy (value_of c st p) then exec c a st else exec c b st
  | compoundExpression es =>
      (fix sequence (es : list Expression) (st : Store) : Outcome :=
         match es with
         | [] => Rendered [] st
         | e' :: rest =>
             match exec c e' st with
             | Rendered out st' =>
                 match sequence rest st' with
                 | Rendered out' st'' => Rendered (out ++ out') st''
                 | stop => stop
                 end
             | stop => stop
             end
         end) es st
  | toJson e' => Rendered [value_of c st e'] st
  | _ => Rendered [value_of c st e] st
  end.

(** A template starts with no variable set. *)
Definition run (c : Context) (t : MappingTemplate) : Outcome :=
  exec c (templateProgram t) ∅.

(** ** The transformer context *)

Inductive CfnValue : Type :=
  | Fn_ref (logicalName : string)
  | Fn_conditionIf (conditionId : string) (valueIfTrue valueIfFalse : CfnValue)
  | CfnObject (entries : list (string * CfnValue)).

Record KeySchemaElement : Type := mkKeySchemaElement {
  attributeName : string;
  keyType : string
}.

(** An entry of a table's index list; the declarative (L2) list
    [table.globalSecondaryIndexes] and the raw (L1) list
    [table.table.globalSecondaryIndexes] hold entries of this shape. *)
Record GlobalSecondaryIndex : Type := mkGlobalSecondaryIndex {
  gsi_indexName : string;
  gsi_keySchema : list KeySchemaElement;
  gsi_projectionType : string;
  gsi_provisionedThroughput : CfnValue
}.

Record Attribute : Type := mkAttribute {
  attribute_name : string;
  attribute_type : string
}.

Inductive BillingMode : Type :=
  | PAY_PER_REQUEST
  | PROVISIONED.

(** The table construct of aws-cdk-lib, as far as the reconciler and
    [addGlobalSecondaryIndex] read and write it.  [attributeDefinitions]
    holds the key attributes registered so far, each with its type;
    [cfnTable_globalSecondaryIndexes] is [None] while the raw property is
    not an array (unset, or a lazy token). *)
Record Table : Type := mkTable {
  keySchema : list KeySchemaElement;
  attributeDefinitions : list Attribute;
  billingMode : BillingMode;
  globalSecondaryIndexes : list GlobalSecondaryIndex;
  cfnTable_globalSecondaryIndexes : option (list GlobalSecondaryIndex)
}.

Record GlobalSecondaryIndexProps : Type := mkGlobalSecondaryIndexProps {
  props_indexName : string;
  props_projectionType : string;
  props_partitionKey : Attribute;
  props_sortKey : option Attribute;
  props_readCapacity : CfnValue;
  props_writeCapacity : CfnValue
}.

Record TransformerResolver : Type := mkResolver {
  resolver_typeName : string;
  resolver_fieldName : string;
  resolver_logicalId : string;
  resolver_dataSource : option string;
  requestMappingTemplate : MappingTemplate;
  responseMappingTemplate : MappingTemplate;
  resolver_stack : option string
}.

Record TransformParameters : Type := mkTransformParameters {
  respectPrimaryKeyAttributesOnConnectionField : bool
}.

Record DatasourceType : Type := mkDatasourceType {
  dbType : string;
  provisionDB : bool
}.

(** The parts of [TransformerContextProvider] the two transformers read
    and write.  Tables are keyed by the name of their model type,
    resolvers by [typeName.fieldName]; [enumTypeDefinitions] is
    [ctx.output.getTypeDefinitionsOfKind(Kind.ENUM_TYPE_DEFINITION)]. *)
Record TransformerContextProvider : Type := mkTransformerContext {
  tables : gmap string Table;
  resolvers : gmap string TransformerResolver;
  dataSources : gmap string string;
  output : gmap string ObjectTypeDefinitionNode;
  enumTypeDefinitions : list EnumTypeDefinitionNode;
  modelNameMap : gmap string string;
  modelToDatasourceMap : gmap string DatasourceType;
  transformParameters : TransformParameters
}.

Definition with_tables (t : gmap string Table) (ctx : TransformerContextProvider)
  : TransformerContextProvider :=
  mkTransformerContext t (resolvers ctx)
    (dataSources ctx) (output ctx) (enumTypeDefinitions ctx) (modelNameMap ctx)
    (modelToDatasourceMap ctx) (transformParameters ctx).

Definition with_resolvers (r : gmap string TransformerResolver)
  (ctx : TransformerContextProvider) : TransformerContextProvider :=
  mkTransformerContext (tables ctx) r
    (dataSources ctx) (output ctx) (enumTypeDefinitions ctx) (modelNameMap ctx)
    (modelToDatasourceMap ctx) (transformParameters ctx).

(** Constants and helpers that resolvers.ts imports from sibling modules
    ([graphql-transformer-common], [graphql-mapping-template], [./utils],
    [./schema], [graphql-index-transformer]) or calls on the stack manager;
    the embedding is parametric in them.  [dynamoDBResponse] wraps a
    response expression into a response template; [getStackFor] names the
    stack a resource is mapped to (the stack manager's own state is outside
    this model); [attributeTypeFromScalar] and [attributeTypeFromType] give
    the attribute type of a key field, or throw when the type of the field
    cannot be a key. *)
Class Collaborators : Type := {
  ModelCompositeKeySeparator : string;
  NONE_VALUE : string;
  DynamoDBModelTableReadIOPS : string;
  DynamoDBModelTableWriteIOPS : string;
  ShouldUsePayPerRequestBilling : string;
  ResolverResourceID : string -> string -> string;
  dynamoDBResponse : bool -> Expression -> Expression;
  getStackFor : string -> string -> string;
  attributeTypeFromScalar : TypeNode -> Completion string;
  attributeTypeFromType : TypeNode -> TransformerContextProvider -> Completion string;
  getSortKeyFields :
    TransformerContextProvider -> ObjectTypeDefinitionNode -> list FieldDefinitionNode;
  getConnectionAttributeName :
    TransformParameters -> string -> string -> string -> string;
  getObjectPrimaryKey : ObjectTypeDefinitionNode -> FieldDefinitionNode
}.

(** Modelled from the spec: [ctx.resourceHelper.getModelNameMapping] is
    not among the sources; "given a type name, obtain its mapped
    (physically renamed) name" (a type that was not renamed keeps its
    name). *)
Definition getModelNameMapping (ctx : TransformerContextProvider) (modelName : string)
  : string :=
  default modelName (modelNameMap ctx !! modelName).

(** Modelled from the spec: [getTable] of graphql-transformer-core is not
    among the sources; "given a related type, obtain its backing table's
    current key schema and index collection", a missing table being a
    fatal lookup error. *)
Definition getTable (object : ObjectTypeDefinitionNode)
  : M TransformerContextProvider Table :=
  fun ctx =>
    match tables ctx !! object_name object with
    | Some table => (Returns table, ctx)
    | None => (Throws (Error ("Table not found for " +:+ object_name object)), ctx)
    end.

(** The table construct is a shared object: what the reconciler does to it
    is written back into the context. *)
Definition setTable (object : ObjectTypeDefinitionNode) (table : Table)
  : M TransformerContextProvider unit :=
  modify (fun ctx => with_tables (<[object_name object := table]> (tables ctx)) ctx).

(** Modelled from the spec: [ctx.resolvers.addResolver] is not among the
    sources; "register a synthesized request/response program pair under
    (typeName, fieldName)". *)
Definition addResolver (typeName fieldName : string) (resolver : TransformerResolver)
  : M TransformerContextProvider unit :=
  modify (fun ctx =>
            with_resolvers (<[typeName +:+ "." +:+ fieldName := resolver]> (resolvers ctx))
              ctx).

(** aws-cdk-lib's [Table.addGlobalSecondaryIndex] and the private methods
    it calls, on the table as its state.

    [validateProvisioning]: a table billed per request takes no read or
    write capacity; the reconciler always passes both. *)
Definition validateProvisioning (props : GlobalSecondaryIndexProps) : M Table unit :=
  do table <- get;
  match billingMode table with
  | PAY_PER_REQUEST =>
      throw (Error "you cannot provision read and write capacity for a table with PAY_PER_REQUEST billing mode")
  | PROVISIONED => ret tt
  end.

(** [validateIndexName]: a duplicate index name is rejected. *)
Definition validateIndexName (indexName : string) : M Table unit :=
  do table <- get;
  if existsb (fun gsi => String.eqb (gsi_indexName gsi) indexName)
       (globalSecondaryIndexes table)
  then throw (Error ("a duplicate index name, " +:+ indexName +:+ ", is not allowed"))
  else ret tt.

(** [registerAttribute]: a key attribute that is already defined must have
    the type it was defined with; a new one is added to the attribute
    definitions. *)
Definition registerAttribute (attribute : Attribute) : M Table unit :=
  let name := attribute_name attribute in
  let type := attribute_type attribute in
  do table <- get;
  let existingDef :=
    find (fun def => String.eqb (attribute_name def) name) (attributeDefinitions table) in
  match existingDef with
  | Some existingDef =>
      if negb (String.eqb (attribute_type existingDef) type)
      then throw (Error ("Unable to specify " +:+ name +:+ " as " +:+ type
                         +:+ " because it was already defined as "
                         +:+ attribute_type existingDef))
      else ret tt
  | None =>
      modify (fun table =>
                mkTable (keySchema table) (attributeDefinitions table ++ [attribute])
                  (billingMode table) (globalSecondaryIndexes table)
                  (cfnTable_globalSecondaryIndexes table))
  end.

Definition buildIndexKeySchema (partitionKey : Attribute) (sortKey : option Attribute)
  : M Table (list KeySchemaElement) :=
  do_ registerAttribute partitionKey;
  let indexKeySchema := [mkKeySchemaElement (attribute_name partitionKey) "HASH"] in
  match sortKey with
  | Some sortKey =>
      do_ registerAttribute sortKey;
      ret (indexKeySchema ++ [mkKeySchemaElement (attribute_name sortKey) "RANGE"])
  | None => ret indexKeySchema
  end.

Definition addGlobalSecondaryIndex (props : GlobalSecondaryIndexProps) : M Table unit :=
  do_ validateProvisioning props;
  do_ validateIndexName (props_indexName props);
  do gsiKeySchema <- buildIndexKeySchema (props_partitionKey props) (props_sortKey props);
  modify (fun table =>
            mkTable (keySchema table) (attributeDefinitions table) (billingMode table)
              (globalSecondaryIndexes table ++
               [mkGlobalSecondaryIndex (props_indexName props) gsiKeySchema
                  (props_projectionType props)
                  (CfnObject [("readCapacityUnits", props_readCapacity props);
                              ("writeCapacityUnits", props_writeCapacity props)])])
              (cfnTable_globalSecondaryIndexes table)).

(** A method call on the table construct of a type: the construct is a
    shared object, so what the call did to it, also when it throws, is in
    the context afterwards.  The table as the call left it is returned. *)
Definition onTable (object : ObjectTypeDefinitionNode) (table : Table) (m : M Table unit)
  : M TransformerContextProvider Table :=
  fun ctx =>
    let '(completion, table) := m table in
    let ctx := with_tables (<[object_name object := table]> (tables ctx)) ctx in
    match completion with
    | Returns _ => (Returns table, ctx)
    | Throws e => (Throws e, ctx)
    end.

(** ** resolvers.ts of the relational transformer *)

Record HasOneDirectiveConfiguration : Type := mkHasOne {
  hasOne_connectionFields : list string;
  hasOne_field : FieldDefinitionNode;
  hasOne_fields : list string;
  hasOne_object : ObjectTypeDefinitionNode;
  hasOne_relatedType : ObjectTypeDefinitionNode;
  hasOne_relatedTypeIndex : list FieldDefinitionNode
}.

Record HasManyDirectiveConfiguration : Type := mkHasMany {
  hasMany_fields : list string;
  hasMany_indexName : option string;
  hasMany_field : FieldDefinitionNode;
  hasMany_object : ObjectTypeDefinitionNode;
  hasMany_relatedType : ObjectTypeDefinitionNode
}.

Record SortKeyAttributeDefinitions : Type := mkSortKeyAttributeDefinitions {
  sortKeyName : string;
  sortKeyType : string
}.

(** A possibly [undefined] string inside a template literal. *)
Definition js_string (s : option string) : string := default "undefined" s.

(** JavaScript truth of an optional string: [undefined] and the empty
    string are false. *)
Definition js_truthy (s : option string) : bool :=
  match s with
  | Some (String _ _) => true
  | _ => false
  end.

Definition CONNECTION_STACK : string := "ConnectionStack".
Definition authFilter : Expression := ref "ctx.stash.authFilter".
Definition PARTITION_KEY_VALUE : string := "partitionKeyValue".
Definition SORT_KEY_VALUE : string := "sortKeyValue".

Section Resolvers.
Context `{Collaborators}.

Definition buildKeyValueExpression (fieldName : option string)
  (object : option ObjectTypeDefinitionNode) (isPartitionKey : bool)
  : Completion Expression :=
  match object with
  | None => Throws (TypeError "Cannot read properties of undefined (reading 'fields')")
  | Some object =>
      let field :=
        fieldName ≫= fun fieldName =>
          find (fun it => String.eqb (field_name it) fieldName) (object_fields object) in
      (* can be auto-generated *)
      let attributeType :=
        match field with
        | Some field => attributeTypeFromScalar (field_type field)
        | None => Returns "S"
        end in
      match attributeType with
      | Throws e => Throws e
      | Returns attributeType =>
          Returns (ref ("util.parseJson($util.dynamodb.toDynamoDBJson($util."
                        +:+ (if String.eqb attributeType "S"
                             then "defaultIfNullOrBlank" else "defaultIfNull")
                        +:+ "("
                        +:+ (if isPartitionKey then "$" +:+ PARTITION_KEY_VALUE
                             else "$ctx.source." +:+ js_string fieldName)
                        +:+ ", " +:+ dquote +:+ NONE_VALUE +:+ dquote +:+ ")))"))
      end
  end.

Definition condenseRangeKey (fields : list string) : string :=
  join ModelCompositeKeySeparator fields.

(** [keySchema[i].attributeName]. *)
Definition attributeNameAt (keySchema : list KeySchemaElement) (i : nat)
  : Completion string :=
  match keySchema !! i with
  | Some k => Returns (attributeName k)
  | None => Throws (TypeError
                      "Cannot read properties of undefined (reading 'attributeName')")
  end.

(** The composite sort-key value of lines 91-93: the condensed
    [${ctx.source.<field>}] placeholders of the range-key fields. *)
Definition condensedSortKeyValue (localFields : list string) : string :=
  let rangeKeyFields := tail localFields in
  condenseRangeKey
    (map (fun keyField => "${ctx.source." +:+ keyField +:+ "}") rangeKeyFields).

(** The request program handed to [print] (lines 115-157). *)
Definition requestProgram (localFields : list string)
  (totalExpressions : list string)
  (totalExpressionNames totalExpressionValues : list (string * Expression))
  : Expression :=
  compoundExpression [
    iff_ (ref "ctx.stash.deniedField") (raw "#return($util.toJson(null))");
    set_ (ref PARTITION_KEY_VALUE)
      (methodCall (ref "util.defaultIfNull")
         [ref ("ctx.stash.connectionAttibutes.get(" +:+ dquote
               +:+ js_string (localFields !! 0) +:+ dquote +:+ ")");
          ref ("ctx.source." +:+ js_string (localFields !! 0))]);
    ifElse
      (or_ (methodCall (ref "util.isNull") [ref PARTITION_KEY_VALUE]
            :: map (fun f => raw ("$util.isNull($ctx.source." +:+ f +:+ ")"))
                 (tail localFields)))
      (raw "#return")
      (compoundExpression [
         set_ (ref "GetRequest")
           (obj [("version", str "2018-05-29"); ("operation", str "Query")]);
         qref (methodCall (ref "GetRequest.put")
                 [str "query";
                  obj [("expression", str (join " AND " totalExpressions));
                       ("expressionNames", obj totalExpressionNames);
                       ("expressionValues", obj totalExpressionValues)]]);
         iff_ (not_ (isNullOrEmpty authFilter))
           (qref (methodCall (ref "GetRequest.put")
                    [str "filter";
                     methodCall (ref "util.parseJson")
                       [methodCall (ref "util.transform.toDynamoDBFilterExpression")
                          [authFilter]]]));
         toJson (ref "GetRequest")])
  ].

(** The response expression of lines 165-172. *)
Definition responseExpression : Expression :=
  ifElse
    (and_ [not_ (ref "ctx.result.items.isEmpty()");
           equals (ref "ctx.result.scannedCount") (int_ 1)])
    (toJson (ref "ctx.result.items[0]"))
    (compoundExpression [
       iff_ (and_ [ref "ctx.result.items.isEmpty()";
                   equals (ref "ctx.result.scannedCount") (int_ 1)])
         (ref "util.unauthorized()");
       toJson nul]).

(** The response program handed to [print] (lines 163-173). *)
Definition responseProgram : Expression :=
  dynamoDBResponse false responseExpression.

(** Create a get item resolver for singular connections. *)
Definition makeGetItemConnectionWithKeyResolver (config : HasOneDirectiveConfiguration)
  : M TransformerContextProvider unit :=
  let connectionFields := hasOne_connectionFields config in
  let field := hasOne_field config in
  let fields := hasOne_fields config in
  let object := hasOne_object config in
  let relatedType := hasOne_relatedType config in
  let relatedTypeIndex := hasOne_relatedTypeIndex config in
  if Nat.eqb (length relatedTypeIndex) 0 then
    throw (Error "Expected relatedType index fields to be set for connection.")
  else
    let localFields := if Nat.ltb 0 (length fields) then fields else connectionFields in
    do table <- getTable relatedType;
    let keySchema := keySchema table in
    do ctx <- get;
    let dataSource := dataSources ctx !! (object_name relatedType +:+ "Table") in
    do partitionKeyName <- lift (attributeNameAt keySchema 0);
    let totalExpressions := ["#partitionKey = :partitionValue"] in
    let totalExpressionNames := [("#partitionKey", str partitionKeyName)] in
    do partitionValue <-
      lift (buildKeyValueExpression (localFields !! 0)
              (output ctx !! object_name object) true);
    let totalExpressionValues := [(":partitionValue", partitionValue)] in
    (* Add a composite sort key or simple sort key if there is one. *)
    do keyCondition <-
      (if Nat.ltb 2 (length relatedTypeIndex) then
         do sortKeyName <- lift (attributeNameAt keySchema 1);
         ret (totalExpressions ++ ["#sortKeyName = :sortKeyName"],
              totalExpressionNames ++ [("#sortKeyName", str sortKeyName)],
              totalExpressionValues ++
              [(":sortKeyName",
                ref ("util.parseJson($util.dynamodb.toDynamoDBJson($util.defaultIfNullOrBlank("
                     +:+ dquote +:+ condensedSortKeyValue localFields +:+ dquote
                     +:+ ", " +:+ dquote +:+ NONE_VALUE +:+ dquote +:+ ")))"))])
       else if Nat.eqb (length relatedTypeIndex) 2 then
         do sortKeyName <- lift (attributeNameAt keySchema 1);
         do sortValue <-
           lift (buildKeyValueExpression (localFields !! 1)
                   (output ctx !! object_name object) false);
         ret (totalExpressions ++ ["#sortKeyName = :sortKeyName"],
              totalExpressionNames ++ [("#sortKeyName", str sortKeyName)],
              totalExpressionValues ++ [(":sortKeyName", sortValue)])
       else ret (totalExpressions, totalExpressionNames, totalExpressionValues));
    let '(totalExpressions, totalExpressionNames, totalExpressionValues) := keyCondition in
    let resolverResourceId := ResolverResourceID (object_name object) (field_name field) in
    let resolver :=
      mkResolver (object_name object) (field_name field) resolverResourceId dataSource
        (s3MappingTemplateFromString
           (requestProgram localFields totalExpressions totalExpressionNames
              totalExpressionValues)
           (object_name object +:+ "." +:+ field_name field +:+ ".req.vtl"))
        (s3MappingTemplateFromString responseProgram
           (object_name object +:+ "." +:+ field_name field +:+ ".res.vtl"))
        None in
    let stack := getStackFor resolverResourceId CONNECTION_STACK in
    let resolver :=
      mkResolver (resolver_typeName resolver) (resolver_fieldName resolver)
        (resolver_logicalId resolver) (resolver_dataSource resolver)
        (requestMappingTemplate resolver) (responseMappingTemplate resolver)
        (Some stack) in
    addResolver (object_name object) (field_name field) resolver.

Definition appendIndex (indexes : option (list GlobalSecondaryIndex))
  (newIndex : GlobalSecondaryIndex) : list GlobalSecondaryIndex :=
  match indexes with
  | Some indexes => indexes ++ [newIndex]
  | None => [newIndex]
  end.

Definition getConnectedSortKeyAttributeDefinitionsForImplicitHasManyObject
  (ctx : TransformerContextProvider) (object : ObjectTypeDefinitionNode)
  (hasManyField : FieldDefinitionNode) : Completion (option SortKeyAttributeDefinitions) :=
  let sortKeyFields := getSortKeyFields ctx object in
  if Nat.eqb (length sortKeyFields) 0 then Returns None
  else
    let mappedObjectName := getModelNameMapping ctx (object_name object) in
    let connectedSortKeyFieldNames :=
      map (fun sortKeyField =>
             getConnectionAttributeName (transformParameters ctx) mappedObjectName
               (field_name hasManyField) (field_name sortKeyField))
        sortKeyFields in
    if Nat.eqb (length connectedSortKeyFieldNames) 1 then
      match attributeTypeFromType
              (default (NamedType "undefined") (field_type <$> sortKeyFields !! 0)) ctx with
      | Throws e => Throws e
      | Returns sortKeyType =>
          Returns (Some (mkSortKeyAttributeDefinitions
                           (js_string (connectedSortKeyFieldNames !! 0)) sortKeyType))
      end
    else if Nat.ltb 1 (length sortKeyFields) then
      Returns (Some (mkSortKeyAttributeDefinitions
                       (condenseRangeKey connectedSortKeyFieldNames) "S"))
    else Returns None.

(** adds GSI to the table if it doesn't already exists for connection.
    The configuration is mutated in place ([config.indexName]); the
    configuration as a returning call leaves it is the returned value.  A
    call that throws after line 204 has set [config.indexName] as well;
    what a throwing call did to the configuration is outside this model. *)
Definition updateTableForConnection (config : HasManyDirectiveConfiguration)
  : M TransformerContextProvider HasManyDirectiveConfiguration :=
  let fields := hasMany_fields config in
  let indexName := hasMany_indexName config in
  (* If an index name or list of fields was specified, then we don't need to
     create a GSI here. *)
  if js_truthy indexName || Nat.ltb 0 (length fields) then ret config
  else
    let field := hasMany_field config in
    let object := hasMany_object config in
    let relatedType := hasMany_relatedType config in
    do ctx <- get;
    let mappedObjectName := getModelNameMapping ctx (object_name object) in
    do table <- getTable relatedType;
    let gsis := globalSecondaryIndexes table in
    let indexName := "gsi-" +:+ mappedObjectName +:+ "." +:+ field_name field in
    let config := mkHasMany fields (Some indexName) field object relatedType in
    (* Check if the GSI already exists. *)
    if existsb (fun gsi => String.eqb (gsi_indexName gsi) indexName) gsis then ret config
    else
      let respectPrimaryKeyAttributesOnConnectionField :=
        respectPrimaryKeyAttributesOnConnectionField (transformParameters ctx) in
      let partitionKeyName :=
        getConnectionAttributeName (transformParameters ctx) mappedObjectName
          (field_name field) (field_name (getObjectPrimaryKey object)) in
      do partitionKeyType <-
        (if respectPrimaryKeyAttributesOnConnectionField
         then lift (attributeTypeFromType (field_type (getObjectPrimaryKey object)) ctx)
         else ret "S");
      do sortKeyAttributeDefinitions <-
        (if respectPrimaryKeyAttributesOnConnectionField
         then lift (getConnectedSortKeyAttributeDefinitionsForImplicitHasManyObject
                      ctx object field)
         else ret None);
      do table <-
        onTable relatedType table
          (addGlobalSecondaryIndex
             (mkGlobalSecondaryIndexProps indexName "ALL"
                (mkAttribute partitionKeyName partitionKeyType)
                ((fun d => mkAttribute (sortKeyName d) (sortKeyType d))
                   <$> sortKeyAttributeDefinitions)
                (Fn_ref DynamoDBModelTableReadIOPS)
                (Fn_ref DynamoDBModelTableWriteIOPS)));
      (* keep the L1 and L2 GSI list in sync *)
      let gsis := globalSecondaryIndexes table in
      match find (fun gsi => String.eqb (gsi_indexName gsi) indexName) gsis with
      | None =>
          throw (TypeError "Cannot read properties of undefined (reading 'keySchema')")
      | Some gsi =>
          let cfnIndexes :=
            appendIndex (cfnTable_globalSecondaryIndexes table)
              (mkGlobalSecondaryIndex indexName (gsi_keySchema gsi) "ALL"
                 (Fn_conditionIf ShouldUsePayPerRequestBilling (Fn_ref "AWS::NoValue")
                    (CfnObject
                       [("ReadCapacityUnits", Fn_ref DynamoDBModelTableReadIOPS);
                        ("WriteCapacityUnits", Fn_ref DynamoDBModelTableWriteIOPS)]))) in
          do_ setTable relatedType
                (mkTable (keySchema table) (attributeDefinitions table) (billingMode table)
                   (globalSecondaryIndexes table) (Some cfnIndexes));
          ret config
      end.

End Resolvers.

(** ** The primary-key transformer *)

Record PrimaryKeyDirectiveConfiguration : Type := mkPrimaryKey {
  pk_object : ObjectTypeDefinitionNode;
  pk_field : FieldDefinitionNode;
  pk_directive : DirectiveNode;
  pk_sortKeyFields : list string;
  pk_sortKey : list FieldDefinitionNode;
  pk_modelDirective : option DirectiveNode
}.

Definition set_modelDirective (d : DirectiveNode)
  (config : PrimaryKeyDirectiveConfiguration) : PrimaryKeyDirectiveConfiguration :=
  mkPrimaryKey (pk_object config) (pk_field config) (pk_directive config)
    (pk_sortKeyFields config) (pk_sortKey config) (Some d).

Definition push_sortKey (f : FieldDefinitionNode)
  (config : PrimaryKeyDirectiveConfiguration) : PrimaryKeyDirectiveConfiguration :=
  mkPrimaryKey (pk_object config) (pk_field config) (pk_directive config)
    (pk_sortKeyFields config) (pk_sortKey config ++ [f]) (pk_modelDirective config).

Inductive VTLGenerator : Type :=
  | RDSPrimaryKeyVTLGenerator
  | DynamoDBPrimaryKeyVTLGenerator.

(** [Map<TransformerResolverProvider, string>], keyed by the resolver's
    [typeName.fieldName]. *)
Abbreviation ResolverMap := (gmap string string).

Record PrimaryKeyTransformer : Type := mkPrimaryKeyTransformer {
  directiveList : list PrimaryKeyDirectiveConfiguration;
  resolverMap : ResolverMap
}.

(** Helpers the transformer imports from [graphql-transformer-common],
    [graphql-transformer-core], [./utils] and [./resolvers/generators].
    [getArguments] is the [sortKeyFields] argument as
    [DirectiveWrapper.getArguments] returns it: absent, one value or an
    array. *)
Class PrimaryKeyCollaborators : Type := {
  isNonNullType : TypeNode -> bool;
  isListType : TypeNode -> bool;
  isScalarOrEnum : TypeNode -> list EnumTypeDefinitionNode -> bool;
  validateNotSelfReferencing : PrimaryKeyDirectiveConfiguration -> Completion unit;
  validateNotOwnerAuth :
    string -> PrimaryKeyDirectiveConfiguration -> TransformerContextProvider -> bool;
  generate :
    VTLGenerator -> PrimaryKeyDirectiveConfiguration ->
    M (TransformerContextProvider * ResolverMap) unit;
  getArguments : DirectiveNode -> option ArgumentValue
}.

Definition directiveName : string := "primaryKey".

Section PrimaryKey.
Context `{PrimaryKeyCollaborators}.

(** The loop of lines 284-296: every field enters the field map, and a
    field other than the annotated one must not carry the directive. *)
Fixpoint validate_objectFields (object : ObjectTypeDefinitionNode)
  (field : FieldDefinitionNode) (fields : list FieldDefinitionNode)
  (fieldMap : gmap string FieldDefinitionNode)
  : Completion (gmap string FieldDefinitionNode) :=
  match fields with
  | [] => Returns fieldMap
  | objectField :: rest =>
      let fieldMap := <[field_name objectField := objectField]> fieldMap in
      if bool_decide (field = objectField) then
        validate_objectFields object field rest fieldMap
      else if existsb (fun directive => String.eqb (directive_name directive) directiveName)
                (field_directives objectField)
      then Throws (InvalidDirectiveError
                     ("You may only supply one primary key on type '"
                      +:+ object_name object +:+ "'."))
      else validate_objectFields object field rest fieldMap
  end.

(** The loop of lines 308-334 over the declared sort-key field names. *)
Fixpoint validate_sortKeyFields (ctx : TransformerContextProvider)
  (object : ObjectTypeDefinitionNode)
  (fieldMap : gmap string FieldDefinitionNode)
  (enums : list EnumTypeDefinitionNode) (sortKeyFields : list string)
  : M PrimaryKeyDirectiveConfiguration unit :=
  match sortKeyFields with
  | [] => ret tt
  | sortKeyFieldName :: rest =>
      match fieldMap !! sortKeyFieldName with
      | None =>
          throw (InvalidDirectiveError
                   ("Can't find field '" +:+ sortKeyFieldName +:+ "' in "
                    +:+ object_name object
                    +:+ ", but it was specified in the primary key."))
      | Some sortField =>
          if negb (isScalarOrEnum (field_type sortField) enums)
             || isListType (field_type sortField)
          then throw (InvalidDirectiveError
                        ("The primary key's sort key on type '"
                         +:+ object_name object +:+ "." +:+ field_name sortField
                         +:+ "' cannot be a non-scalar."))
          else if negb (isNonNullType (field_type sortField))
          then throw (InvalidDirectiveError
                        ("The primary key on type '" +:+ object_name object
                         +:+ "' must reference non-null fields."))
          else
            do config <- get;
            if negb (validateNotOwnerAuth sortKeyFieldName config ctx)
            then throw (InvalidDirectiveError
                          ("The primary key's sort key type '" +:+ sortKeyFieldName
                           +:+ "' cannot be used as an owner @auth field too. Please use another field for the sort key."))
            else
              do_ modify (push_sortKey sortField);
              validate_sortKeyFields ctx object fieldMap enums rest
      end
  end.

Definition validate (ctx : TransformerContextProvider)
  : M PrimaryKeyDirectiveConfiguration unit :=
  do config <- get;
  let object := pk_object config in
  let field := pk_field config in
  let sortKeyFields := pk_sortKeyFields config in
  do_ lift (validateNotSelfReferencing config);
  let modelDirective :=
    find (fun directive => String.eqb (directive_name directive) "model")
      (object_directives object) in
  match modelDirective with
  | None =>
      throw (InvalidDirectiveError
               ("The @" +:+ directiveName
                +:+ " directive may only be added to object definitions annotated with @model."))
  | Some modelDirective =>
      do_ modify (set_modelDirective modelDirective);
      do fieldMap <- lift (validate_objectFields object field (object_fields object) ∅);
      if negb (isNonNullType (field_type field)) then
        throw (InvalidDirectiveError
                 ("The primary key on type '" +:+ object_name object
                  +:+ "' must reference non-null fields."))
      else
        let enums := enumTypeDefinitions ctx in
        if negb (isScalarOrEnum (field_type field) enums) || isListType (field_type field)
        then
          throw (InvalidDirectiveError
                   ("The primary key on type '" +:+ object_name object +:+ "."
                    +:+ field_name field +:+ "' cannot be a non-scalar."))
        else validate_sortKeyFields ctx object fieldMap enums sortKeyFields
  end.

(** The arguments of lines 205-218: the defaults [object], [field] and
    [directive], the [sortKeyFields] argument made a list (a missing one
    the empty list, a single value a one-element list), and an empty
    [sortKey]. *)
Definition directiveArguments (parent : ObjectTypeDefinitionNode)
  (definition : FieldDefinitionNode) (directive : DirectiveNode)
  : PrimaryKeyDirectiveConfiguration :=
  let sortKeyFields :=
    match getArguments directive with
    | None | Some (StringValue EmptyString) => []
    | Some (StringValue value) => [value]
    | Some (ListValue values) => values
    end in
  mkPrimaryKey parent definition directive sortKeyFields [] None.

(** The [field] visitor: the configuration is recorded only after
    [validate] returned. *)
Definition field (parent : ObjectTypeDefinitionNode) (definition : FieldDefinitionNode)
  (directive : DirectiveNode) (context : TransformerContextProvider)
  : M PrimaryKeyTransformer unit :=
  let args := directiveArguments parent definition directive in
  do args <- (fun this =>
                match validate context args with
                | (Returns _, args) => (Returns args, this)
                | (Throws e, _) => (Throws e, this)
                end);
  modify (fun this => mkPrimaryKeyTransformer (directiveList this ++ [args])
                        (resolverMap this)).

Definition getVTLGenerator (dbInfo : option DatasourceType) : VTLGenerator :=
  let dbType := match dbInfo with Some dbInfo => dbType dbInfo | None => "DDB" end in
  if String.eqb dbType "MySQL" then RDSPrimaryKeyVTLGenerator
  else DynamoDBPrimaryKeyVTLGenerator.

(** The loop of [generateResolvers] over the recorded configurations. *)
Fixpoint generateResolvers_loop (configs : list PrimaryKeyDirectiveConfiguration)
  : M (TransformerContextProvider * ResolverMap) unit :=
  match configs with
  | [] => ret tt
  | config :: rest =>
      do state <- get;
      let dbInfo := modelToDatasourceMap (fst state) !! object_name (pk_object config) in
      let vtlGenerator := getVTLGenerator dbInfo in
      do_ generate vtlGenerator config;
      generateResolvers_loop rest
  end.

Definition generateResolvers (this : PrimaryKeyTransformer)
  : M (TransformerContextProvider * ResolverMap) unit :=
  generateResolvers_loop (directiveList this).

End PrimaryKey.

(** ** The specification's names for the failures of [validate]

    Every failure is an [InvalidDirectiveError]; the message is what tells
    one from another. *)

Definition MissingModelDirective : Thrown :=
  InvalidDirectiveError
    "The @primaryKey directive may only be added to object definitions annotated with @model.".

Definition DuplicatePrimaryKey (typeName : string) : Thrown :=
  InvalidDirectiveError
    ("You may only supply one primary key on type '" +:+ typeName +:+ "'.").

Definition NullablePrimaryKey (typeName : string) : Thrown :=
  InvalidDirectiveError
    ("The primary key on type '" +:+ typeName +:+ "' must reference non-null fields.").

Definition InvalidPrimaryKeyType (typeName fieldName : string) : Thrown :=
  InvalidDirectiveError
    ("The primary key on type '" +:+ typeName +:+ "." +:+ fieldName
     +:+ "' cannot be a non-scalar.").

Definition UnknownSortKeyField (sortKeyFieldName typeName : string) : Thrown :=
  InvalidDirectiveError
    ("Can't find field '" +:+ sortKeyFieldName +:+ "' in " +:+ typeName
     +:+ ", but it was specified in the primary key.").

Definition InvalidSortKeyType (typeName fieldName : string) : Thrown :=
  InvalidDirectiveError
    ("The primary key's sort key on type '" +:+ typeName +:+ "." +:+ fieldName
     +:+ "' cannot be a non-scalar.").

Definition SortKeyOwnerConflict (sortKeyFieldName : string) : Thrown :=
  InvalidDirectiveError
    ("The primary key's sort key type '" +:+ sortKeyFieldName
     +:+ "' cannot be used as an owner @auth field too. Please use another field for the sort key.").

(** ** Predicates used by the statements *)

(** A field carries the primary-key directive. *)
Definition hasPrimaryKeyDirective (f : FieldDefinitionNode) : bool :=
  existsb (fun directive => String.eqb (directive_name directive) directiveName)
    (field_directives f).

(** The field a name resolves to in the field map of [validate]: the last
    field of the type declared under that name. *)
Definition declaredField (object : ObjectTypeDefinitionNode) (name : string)
  : option FieldDefinitionNode :=
  last (filter (fun f => field_name f = name) (object_fields object)).

(** A type the checks of [validate] accept for a key field. *)
Definition keyFieldType `{PrimaryKeyCollaborators} (ctx : TransformerContextProvider)
  (f : FieldDefinitionNode) : Prop :=
  isNonNullType (field_type f) = true
  ∧ isScalarOrEnum (field_type f) (enumTypeDefinitions ctx) = true
  ∧ isListType (field_type f) = false.

(** A declared sort-key field name that passes every check of the
    sort-key loop for a configuration of the given type. *)
Definition sortKeyPasses `{PrimaryKeyCollaborators} (ctx : TransformerContextProvider)
  (object : ObjectTypeDefinitionNode) (sortKeyFieldName : string) : Prop :=
  ∃ sortField,
    declaredField object sortKeyFieldName = Some sortField
    ∧ keyFieldType ctx sortField
    ∧ ∀ config, pk_object config = object →
                validateNotOwnerAuth sortKeyFieldName config ctx = true.

(** The number of declarative index entries of a table with a given name. *)
Definition countIndex (indexName : string) (table : Table) : nat :=
  length (filter (fun gsi => gsi_indexName gsi = indexName)
            (globalSecondaryIndexes table)).

(** The index name line 203 derives for a relation. *)
Definition derivedIndexName (ctx : TransformerContextProvider)
  (config : HasManyDirectiveConfiguration) : string :=
  "gsi-" +:+ getModelNameMapping ctx (object_name (hasMany_object config))
  +:+ "." +:+ field_name (hasMany_field config).

(** The raw index list of a table, empty while the property is no array. *)
Definition rawIndexes (table : Table) : list GlobalSecondaryIndex :=
  default [] (cfnTable_globalSecondaryIndexes table).

(** Every declarative index entry has a raw entry with the same index name
    and the same key schema. *)
Definition consistent (table : Table) : Prop :=
  ∀ gsi, gsi ∈ globalSecondaryIndexes table →
    ∃ raw_gsi, raw_gsi ∈ rawIndexes table
      ∧ gsi_indexName raw_gsi = gsi_indexName gsi
      ∧ gsi_keySchema raw_gsi = gsi_keySchema gsi.

Definition tables_consistent (ctx : TransformerContextProvider) : Prop :=
  ∀ name table, tables ctx !! name = Some table → consistent table.

(** The local key fields of a singular connection (line 75). *)
Definition localFieldsOf (config : HasOneDirectiveConfiguration) : list string :=
  if Nat.ltb 0 (length (hasOne_fields config)) then hasOne_fields config
  else hasOne_connectionFields config.

(** The key under which the resolver of a connection field is registered. *)
Definition resolverKey (config : HasOneDirectiveConfiguration) : string :=
  object_name (hasOne_object config) +:+ "." +:+ field_name (hasOne_field config).

(** The partition-key value a request program works with: the stashed
    connection attribute of the first local field, else that field of the
    source object. *)
Definition partitionKeyValue (c : Context) (localFields : list string) : Value :=
  let f0 := js_string (localFields !! 0) in
  if isNull (ctx_stash_connectionAttibutes c f0) then ctx_source c f0
  else ctx_stash_connectionAttibutes c f0.

(** The name of the sort-key attribute of the index derived for a relation
    of a type that has sort-key fields (lines 277-295). *)
Definition connectedSortKeyName `{Collaborators} (ctx : TransformerContextProvider)
    (object : ObjectTypeDefinitionNode) (hasManyField : FieldDefinitionNode)
  : option string :=
  match map (fun sortKeyField =>
               getConnectionAttributeName (transformParameters ctx)
                 (getModelNameMapping ctx (object_name object))
                 (field_name hasManyField) (field_name sortKeyField))
          (getSortKeyFields ctx object) with
  | [] => None
  | [name] => Some name
  | names => Some (condenseRangeKey names)
  end.

(** The key schema of an index with the given key attribute names. *)
Definition indexKeySchema (partitionKeyName : string) (sortKeyName : option string)
  : list KeySchemaElement :=
  mkKeySchemaElement partitionKeyName "HASH"
  :: match sortKeyName with
     | Some name => [mkKeySchemaElement name "RANGE"]
     | None => []
     end.

(** The declarative entry a reconciliation adds for a relation. *)
Definition declarativeIndex `{Collaborators} (ctx : TransformerContextProvider)
    (config : HasManyDirectiveConfiguration) : GlobalSecondaryIndex :=
  let object := hasMany_object config in
  let field := hasMany_field config in
  let mappedObjectName := getModelNameMapping ctx (object_name object) in
  let respect := respectPrimaryKeyAttributesOnConnectionField (transformParameters ctx) in
  mkGlobalSecondaryIndex (derivedIndexName ctx config)
    (indexKeySchema
       (getConnectionAttributeName (transformParameters ctx) mappedObjectName
          (field_name field) (field_name (getObjectPrimaryKey object)))
       (if respect then connectedSortKeyName ctx object field else None))
    "ALL"
    (CfnObject [("readCapacityUnits", Fn_ref DynamoDBModelTableReadIOPS);
                ("writeCapacityUnits", Fn_ref DynamoDBModelTableWriteIOPS)]).

(** The raw entry that goes with it. *)
Definition rawIndex `{Collaborators} (ctx : TransformerContextProvider)
    (config : HasManyDirectiveConfiguration) : GlobalSecondaryIndex :=
  mkGlobalSecondaryIndex (derivedIndexName ctx config)
    (gsi_keySchema (declarativeIndex ctx config)) "ALL"
    (Fn_conditionIf ShouldUsePayPerRequestBilling (Fn_ref "AWS::NoValue")
       (CfnObject [("ReadCapacityUnits", Fn_ref DynamoDBModelTableReadIOPS);
                   ("WriteCapacityUnits", Fn_ref DynamoDBModelTableWriteIOPS)])).

(** The configuration after [config.indexName] was assigned. *)
Definition withIndexName (config : HasManyDirectiveConfiguration) (indexName : string)
  : HasManyDirectiveConfiguration :=
  mkHasMany (hasMany_fields config) (Some indexName) (hasMany_field config)
    (hasMany_object config) (hasMany_relatedType config).

(** One reconciliation, of any relation, leads from [ctx] to [ctx']. *)
Definition reconciles `{Collaborators} (ctx ctx' : TransformerContextProvider) : Prop :=
  ∃ config completion, updateTableForConnection config ctx = (completion, ctx').

(** The value of the entry [key] of a rendered request object. *)
Definition entry (key : string) (v : Value) : option Value :=
  match v with
  | VMap entries => snd <$> find (fun kv => String.eqb (fst kv) key) entries
  | _ => None
  end.

(** The output a run rendered, if it ran to its end. *)
Definition rendered (o : Outcome) : option (list Value) :=
  match o with
  | Rendered output _ => Some output
  | _ => None
  end.

(** A run rendered one Query request for the data source. *)
Definition buildsQuery (o : Outcome) : Prop :=
  ∃ request, rendered o = Some [request]
    ∧ entry "version" request = Some (VString "2018-05-29")
    ∧ entry "operation" request = Some (VString "Query")
    ∧ is_Some (entry "query" request).

(** The character [a] occurs in [s]. *)
Fixpoint occurs (a : ascii) (s : string) : bool :=
  match s with
  | EmptyString => false
  | String b s' => Ascii.eqb a b || occurs a s'
  end.

(** Velocity's interpolation of [${ctx.source.<field>}] placeholders in a
    quoted string, each replaced by the text of the field's value. *)
Fixpoint read_name (s : string) : option (string * string) :=
  match s with
  | EmptyString => None
  | String a s' =>
      if Ascii.eqb a "}" then Some (EmptyString, s')
      else match read_name s' with
           | Some (name, rest) => Some (String a name, rest)
           | None => None
           end
  end.

Fixpoint interpolate_fuel (fuel : nat) (env : string -> string) (s : string) : string :=
  match fuel with
  | O => s
  | S fuel' =>
      match strip_prefix "${ctx.source." s ≫= read_name with
      | Some (name, rest) => env name +:+ interpolate_fuel fuel' env rest
      | None =>
          match s with
          | EmptyString => EmptyString
          | String a s' => String a (interpolate_fuel fuel' env s')
          end
      end
  end.

Definition interpolate (env : string -> string) (s : string) : string :=
  interpolate_fuel (String.length s) env s.

(** ** Collaborators used by the examples

    The helpers as graphql-transformer-common and the transformers' utility
    modules define them, on the node model above. *)

Definition example_isNonNullType (type : TypeNode) : bool :=
  match type with NonNullType _ => true | _ => false end.

Fixpoint example_isListType (type : TypeNode) : bool :=
  match type with
  | NonNullType type => example_isListType type
  | ListType _ => true
  | NamedType _ => false
  end.

Definition DEFAULT_SCALARS : list string :=
  ["String"; "Int"; "Float"; "Boolean"; "ID"; "AWSDate"; "AWSTime"; "AWSDateTime";
   "AWSTimestamp"; "AWSEmail"; "AWSJSON"; "AWSURL"; "AWSPhone"; "AWSIPAddress"].

Fixpoint example_isScalarOrEnum (type : TypeNode) (enums : list EnumTypeDefinitionNode)
  : bool :=
  match type with
  | NonNullType type => example_isScalarOrEnum type enums
  | ListType type => example_isScalarOrEnum type enums
  | NamedType name =>
      existsb (fun e => String.eqb (enum_name e) name) enums
      || existsb (String.eqb name) DEFAULT_SCALARS
  end.

Definition example_validateNotSelfReferencing (config : PrimaryKeyDirectiveConfiguration)
  : Completion unit :=
  if existsb (String.eqb (field_name (pk_field config))) (pk_sortKeyFields config)
  then Throws (InvalidDirectiveError
                 ("@" +:+ directive_name (pk_directive config) +:+ " field '"
                  +:+ field_name (pk_field config) +:+ "' cannot reference itself."))
  else Returns tt.

(** A sort-key field may not be the [ownerField] of an [@auth] rule. *)
Definition example_validateNotOwnerAuth (sortKeyField : string)
  (config : PrimaryKeyDirectiveConfiguration) (ctx : TransformerContextProvider) : bool :=
  negb (existsb
          (fun directive =>
             String.eqb (directive_name directive) "auth"
             && existsb (fun argument =>
                           bool_decide (argument = ("ownerField", StringValue sortKeyField)))
                  (directive_arguments directive))
          (object_directives (pk_object config))).

(** A generator that records one program per configuration. *)
Definition example_generate (generator : VTLGenerator)
  (config : PrimaryKeyDirectiveConfiguration)
  : M (TransformerContextProvider * ResolverMap) unit :=
  modify (fun state =>
            (fst state,
             <[object_name (pk_object config) +:+ "." +:+ field_name (pk_field config)
               := "sync"]> (snd state))).

Definition example_getArguments (directive : DirectiveNode) : option ArgumentValue :=
  (list_to_map (directive_arguments directive) : gmap string ArgumentValue)
  !! "sortKeyFields".

Definition example_primaryKeyCollaborators : PrimaryKeyCollaborators := {|
  isNonNullType := example_isNonNullType;
  isListType := example_isListType;
  isScalarOrEnum := example_isScalarOrEnum;
  validateNotSelfReferencing := example_validateNotSelfReferencing;
  validateNotOwnerAuth := example_validateNotOwnerAuth;
  generate := example_generate;
  getArguments := example_getArguments
|}.

Fixpoint example_getBaseType (type : TypeNode) : string :=
  match type with
  | NonNullType type | ListType type => example_getBaseType type
  | NamedType name => name
  end.

(** Numbers are [N], the other default scalars but [Boolean] are [S]; any
    other type is no key type. *)
Definition example_attributeTypeFromScalar (type : TypeNode) : Completion string :=
  let baseType := example_getBaseType type in
  if negb (existsb (String.eqb baseType) DEFAULT_SCALARS)
  then Throws (Error ("Expected scalar and got " +:+ baseType))
  else if String.eqb baseType "Int" || String.eqb baseType "Float"
          || String.eqb baseType "AWSTimestamp" then Returns "N"
  else if String.eqb baseType "Boolean"
  then Throws (Error ("Cannot create attribute type for scalar " +:+ baseType))
  else Returns "S".

(** An enum is stored as a string. *)
Definition example_attributeTypeFromType (type : TypeNode)
  (ctx : TransformerContextProvider) : Completion string :=
  if existsb (fun e => String.eqb (enum_name e) (example_getBaseType type))
       (enumTypeDefinitions ctx)
  then Returns "S"
  else example_attributeTypeFromScalar type.

(** The sort-key fields the primary-key directive of a type declares. *)
Definition example_getSortKeyFields (ctx : TransformerContextProvider)
  (object : ObjectTypeDefinitionNode) : list FieldDefinitionNode :=
  flat_map
    (fun f =>
       flat_map
         (fun directive =>
            if String.eqb (directive_name directive) "primaryKey" then
              match (list_to_map (directive_arguments directive)
                       : gmap string ArgumentValue) !! "sortKeyFields" with
              | Some (ListValue values) =>
                  omap (fun value =>
                          find (fun g => String.eqb (field_name g) value)
                            (object_fields object))
                    values
              | _ => []
              end
            else [])
         (field_directives f))
    (object_fields object).

Definition example_getObjectPrimaryKey (object : ObjectTypeDefinitionNode)
  : FieldDefinitionNode :=
  default (mkField "id" (NonNullType (NamedType "ID")) [] 0)
    (find hasPrimaryKeyDirective (object_fields object)).

(** The wrapper as graphql-mapping-template has it: a data-source error is
    raised with [$util.error], otherwise the given expression runs. *)
Definition example_dynamoDBResponse (isSyncEnabled : bool) (expression : Expression)
  : Expression :=
  let errorExpression :=
    if isSyncEnabled
    then ref "util.error($ctx.error.message, $ctx.error.type, $ctx.result)"
    else ref "util.error($ctx.error.message, $ctx.error.type)" in
  compoundExpression [ifElse (ref "ctx.error") errorExpression expression].

Definition example_collaborators : Collaborators := {|
  ModelCompositeKeySeparator := "#";
  NONE_VALUE := "___xamznone____";
  DynamoDBModelTableReadIOPS := "DynamoDBModelTableReadIOPS";
  DynamoDBModelTableWriteIOPS := "DynamoDBModelTableWriteIOPS";
  ShouldUsePayPerRequestBilling := "ShouldUsePayPerRequestBilling";
  ResolverResourceID := fun typeName fieldName => typeName +:+ fieldName +:+ "Resolver";
  dynamoDBResponse := example_dynamoDBResponse;
  getStackFor := fun resourceId defaultStackName => defaultStackName;
  attributeTypeFromScalar := example_attributeTypeFromScalar;
  attributeTypeFromType := example_attributeTypeFromType;
  getSortKeyFields := example_getSortKeyFields;
  getConnectionAttributeName :=
    fun parameters type field relatedTypeField =>
      type +:+ "_" +:+ field +:+ "_"
      +:+ (if respectPrimaryKeyAttributesOnConnectionField parameters
           then relatedTypeField else "id");
  getObjectPrimaryKey := example_getObjectPrimaryKey
|}.

(** ** An example schema

    [Blog] has one [Post]; the key of [Post] is [id] with the sort-key
    fields [title] and [createdAt]. *)

Definition example_post : ObjectTypeDefinitionNode :=
  mkObject "Post" [mkDirective "model" []]
    [mkField "id" (NonNullType (NamedType "ID"))
       [mkDirective "primaryKey" [("sortKeyFields", ListValue ["title"; "createdAt"])]] 1;
     mkField "title" (NonNullType (NamedType "String")) [] 2;
     mkField "createdAt" (NonNullType (NamedType "AWSDateTime")) [] 3].

Definition example_blog : ObjectTypeDefinitionNode :=
  mkObject "Blog" [mkDirective "model" []]
    [mkField "id" (NonNullType (NamedType "ID")) [] 4;
     mkField "postId" (NamedType "ID") [] 5;
     mkField "postTitle" (NamedType "String") [] 6;
     mkField "postCreatedAt" (NamedType "AWSDateTime") [] 7;
     mkField "post" (NamedType "Post") [mkDirective "hasOne" []] 8].

Definition example_comment : ObjectTypeDefinitionNode :=
  mkObject "Comment" [mkDirective "model" []]
    [mkField "id" (NonNullType (NamedType "ID")) [] 11;
     mkField "content" (NamedType "String") [] 12].

Definition example_hasOne : HasOneDirectiveConfiguration :=
  mkHasOne ["postId"; "postTitle"; "postCreatedAt"]
    (mkField "post" (NamedType "Post") [mkDirective "hasOne" []] 8)
    [] example_blog example_post (object_fields example_post).

Definition example_table : Table :=
  mkTable [mkKeySchemaElement "id" "HASH";
           mkKeySchemaElement ("title" +:+ "#" +:+ "createdAt") "RANGE"]
    [mkAttribute "id" "S"; mkAttribute ("title" +:+ "#" +:+ "createdAt") "S"]
    PROVISIONED [] None.

Definition example_commentTable : Table :=
  mkTable [mkKeySchemaElement "id" "HASH"] [mkAttribute "id" "S"] PROVISIONED [] None.

Definition example_context : TransformerContextProvider :=
  mkTransformerContext
    {["Post" := example_table;
      "Blog" := mkTable [mkKeySchemaElement "id" "HASH"] [mkAttribute "id" "S"]
                  PROVISIONED [] None;
      "Comment" := example_commentTable]}
    ∅ {["PostTable" := "PostTable"]}
    {["Post" := example_post; "Blog" := example_blog; "Comment" := example_comment]}
    [] ∅ ∅ (mkTransformParameters true).

(** The context after the resolver of [Blog.post] was synthesized. *)
Definition example_synthesized : TransformerContextProvider :=
  snd (@makeGetItemConnectionWithKeyResolver example_collaborators
         example_hasOne example_context).

(** [Post] has many [Comment]s through an index the compiler derives. *)
Definition example_hasMany : HasManyDirectiveConfiguration :=
  mkHasMany [] None
    (mkField "comments" (ListType (NamedType "Comment")) [mkDirective "hasMany" []] 10)
    example_post example_comment.

(** The same relation with the index named by the schema's author. *)
Definition example_hasMany_explicit : HasManyDirectiveConfiguration :=
  mkHasMany [] (Some "byPost")
    (mkField "comments" (ListType (NamedType "Comment")) [mkDirective "hasMany" []] 10)
    example_post example_comment.

(** A [Blog] whose [postId] is set and whose other key fields are not. *)
Definition example_partialKey : Context :=
  mkContext (fun f => if String.eqb f "postId" then VString "p1" else VNull)
    VNull (fun _ => VNull) VNull [] 0 VNull.

(** A [Blog] with all key fields set, and the result of its Query. *)
Definition example_fullKey (items : list Value) (scannedCount : Z) : Context :=
  mkContext (fun f => VString ("value-of-" +:+ f))
    VNull (fun _ => VNull) VNull items scannedCount VNull.

(** [Order] declares a nullable sort-key field; [Ticket] a nullable
    primary-key field; [Note] a sort-key field that is also the owner field
    of its [@auth] rule; [Pair] two primary keys. *)
Definition example_order_id : FieldDefinitionNode :=
  mkField "id" (NonNullType (NamedType "ID"))
    [mkDirective "primaryKey" [("sortKeyFields", ListValue ["createdAt"])]] 20.

Definition example_order : ObjectTypeDefinitionNode :=
  mkObject "Order" [mkDirective "model" []]
    [example_order_id; mkField "createdAt" (NamedType "String") [] 21].

Definition example_ticket_id : FieldDefinitionNode :=
  mkField "id" (NamedType "ID") [mkDirective "primaryKey" []] 22.

Definition example_ticket : ObjectTypeDefinitionNode :=
  mkObject "Ticket" [mkDirective "model" []] [example_ticket_id].

Definition example_note_id : FieldDefinitionNode :=
  mkField "id" (NonNullType (NamedType "ID"))
    [mkDirective "primaryKey" [("sortKeyFields", ListValue ["owner"])]] 23.

Definition example_note : ObjectTypeDefinitionNode :=
  mkObject "Note"
    [mkDirective "model" []; mkDirective "auth" [("ownerField", StringValue "owner")]]
    [example_note_id; mkField "owner" (NonNullType (NamedType "String")) [] 24].

Definition example_pair_left : FieldDefinitionNode :=
  mkField "left" (NonNullType (NamedType "ID")) [mkDirective "primaryKey" []] 25.

Definition example_pair : ObjectTypeDefinitionNode :=
  mkObject "Pair" [mkDirective "model" []]
    [example_pair_left;
     mkField "right" (NonNullType (NamedType "ID")) [mkDirective "primaryKey" []] 26].

(** The key of [Post], a configuration that passes validation. *)
Definition example_post_id : FieldDefinitionNode :=
  mkField "id" (NonNullType (NamedType "ID"))
    [mkDirective "primaryKey" [("sortKeyFields", ListValue ["title"; "createdAt"])]] 1.

Definition example_directive (f : FieldDefinitionNode) : DirectiveNode :=
  default (mkDirective "primaryKey" []) (head (field_directives f)).

Definition example_transformer : PrimaryKeyTransformer :=
  mkPrimaryKeyTransformer [] ∅.

(** ** Further predicates used by the statements *)

(** The guard of a request program: the field is denied, or the
    partition-key value or one of the range-key fields is null. *)
Definition shortCircuits (c : Context) (localFields : list string) : bool :=
  truthy (ctx_stash_deniedField c)
  || isNull (partitionKeyValue c localFields)
  || existsb (fun f => isNull (ctx_source c f)) (tail localFields).

(** A key attribute goes with the attribute definitions of a table: the
    definition of that name, if there is one, has the type of the
    attribute. *)
Definition attributeCompatible (definitions : list Attribute) (attribute : Attribute)
  : Prop :=
  match find (fun def => String.eqb (attribute_name def) (attribute_name attribute))
          definitions with
  | Some def => attribute_type def = attribute_type attribute
  | None => True
  end.

(** The parts of a condensed key, cut at each occurrence of a one-character
    separator. *)
Fixpoint split_on (sep : ascii) (s : string) : list string :=
  match s with
  | EmptyString => [EmptyString]
  | String a s' =>
      if Ascii.eqb a sep then EmptyString :: split_on sep s'
      else match split_on sep s' with
           | part :: parts => String a part :: parts
           | [] => [String a EmptyString]
           end
  end.

(** A configuration whose related type has no table. *)
Definition example_hasOne_noTable : HasOneDirectiveConfiguration :=
  mkHasOne ["postId"] (hasOne_field example_hasOne) [] example_blog
    (mkObject "Draft" [mkDirective "model" []] []) (object_fields example_post).

(** A context in which the table of [Post] has a partition key only. *)
Definition example_context_shortKey : TransformerContextProvider :=
  with_tables (<["Post" := mkTable [mkKeySchemaElement "id" "HASH"]
                            [mkAttribute "id" "S"] PROVISIONED [] None]>
                 (tables example_context)) example_context.

(** [Draft] carries no [@model]; the key of [Shelf] is a nullable object;
    [Event] names a sort-key field it does not declare; [Entry] declares
    [code] twice. *)
Definition example_draft_id : FieldDefinitionNode :=
  mkField "id" (NonNullType (NamedType "ID")) [mkDirective "primaryKey" []] 30.

Definition example_draft : ObjectTypeDefinitionNode :=
  mkObject "Draft" [] [example_draft_id].

Definition example_shelf_id : FieldDefinitionNode :=
  mkField "first" (NamedType "Post") [mkDirective "primaryKey" []] 31.

Definition example_shelf : ObjectTypeDefinitionNode :=
  mkObject "Shelf" [mkDirective "model" []] [example_shelf_id].

Definition example_event_id : FieldDefinitionNode :=
  mkField "id" (NonNullType (NamedType "ID"))
    [mkDirective "primaryKey" [("sortKeyFields", ListValue ["when"])]] 32.

Definition example_event : ObjectTypeDefinitionNode :=
  mkObject "Event" [mkDirective "model" []] [example_event_id].

Definition example_entry_id : FieldDefinitionNode :=
  mkField "id" (NonNullType (NamedType "ID"))
    [mkDirective "primaryKey" [("sortKeyFields", ListValue ["code"])]] 33.

Definition example_entry : ObjectTypeDefinitionNode :=
  mkObject "Entry" [mkDirective "model" []]
    [example_entry_id;
     mkField "code" (NamedType "String") [] 34;
     mkField "code" (NonNullType (NamedType "Int")) [] 35].

(** A table of [Comment] on which the connection attribute of [Post.comments]
    is already defined, as a number. *)
Definition example_clashTable : Table :=
  mkTable [mkKeySchemaElement "id" "HASH"]
    [mkAttribute "id" "S"; mkAttribute "Post_comments_id" "N"] PROVISIONED [] None.

Definition example_context_clash : TransformerContextProvider :=
  with_tables (<["Comment" := example_clashTable]> (tables example_context))
    example_context.

(** [Ledger] declares the sort-key fields [title], a string, and [tags], a
    list. *)
Definition example_ledger_id : FieldDefinitionNode :=
  mkField "id" (NonNullType (NamedType "ID"))
    [mkDirective "primaryKey" [("sortKeyFields", ListValue ["title"; "tags"])]] 37.

Definition example_ledger : ObjectTypeDefinitionNode :=
  mkObject "Ledger" [mkDirective "model" []]
    [example_ledger_id;
     mkField "title" (NonNullType (NamedType "String")) [] 38;
     mkField "tags" (NonNullType (ListType (NonNullType (NamedType "String")))) [] 39].

(** ** The list query of a keyed model *)

Record InputValueDefinitionNode : Type := mkInputValue {
  input_name : string;
  input_type : TypeNode
}.

(** A field of the [Query] type: a field definition with its [arguments],
    which may be undefined. *)
Record QueryFieldNode : Type := mkQueryField {
  queryField_definition : FieldDefinitionNode;
  queryField_arguments : option (list InputValueDefinitionNode)
}.

Record QueryNode : Type := mkQuery {
  query_name : string;
  query_directives : list DirectiveNode;
  query_fields : list QueryFieldNode
}.

Definition queryField_name (f : QueryFieldNode) : string :=
  field_name (queryField_definition f).

(** What [updateListField] imports: [lookupResolverName] from [./utils],
    [createHashField] and [ensureModelSortDirectionEnum] from [./schema],
    the node constructors of [graphql-transformer-common], and the
    accessors [getQuery] and [updateObject] of [ctx.output].  [Ctx] is the
    transformer context of the schema step. *)
Class SchemaCollaborators (Ctx : Type) : Type := {
  lookupResolverName : PrimaryKeyDirectiveConfiguration -> Ctx -> string -> option string;
  getQuery : Ctx -> option QueryNode;
  updateObject : QueryNode -> Ctx -> Ctx;
  createHashField : PrimaryKeyDirectiveConfiguration -> InputValueDefinitionNode;
  makeInputValueDefinition : string -> TypeNode -> InputValueDefinitionNode;
  makeNamedType : string -> TypeNode;
  ensureModelSortDirectionEnum : Ctx -> Ctx
}.

Section UpdateListField.
Context {Ctx : Type} `{SchemaCollaborators Ctx}.

(** The arguments [updateListField] gives the list field (lines 347-353):
    the hash field, the arguments the field had, the sort direction. *)
Definition listFieldArguments (config : PrimaryKeyDirectiveConfiguration)
  (listField : QueryFieldNode) : list InputValueDefinitionNode :=
  let args := [createHashField config] in
  let args :=
    match queryField_arguments listField with
    | Some arguments => args ++ arguments
    | None => args
    end in
  args ++ [makeInputValueDefinition "sortDirection" (makeNamedType "ModelSortDirection")].

Definition updateListField (config : PrimaryKeyDirectiveConfiguration) (ctx : Ctx) : Ctx :=
  let resolverName := lookupResolverName config ctx "list" in
  let query := getQuery ctx in
  match resolverName, query with
  | Some resolverName, Some query =>
      if negb (js_truthy (Some resolverName)) then ctx
      else
        match find (fun field => String.eqb (queryField_name field) resolverName)
                (query_fields query) with
        | Some listField =>
            let args := listFieldArguments config listField in
            let ctx := ensureModelSortDirectionEnum ctx in
            let listField := mkQueryField (queryField_definition listField) (Some args) in
            let query :=
              mkQuery (query_name query) (query_directives query)
                (map (fun field =>
                        if String.eqb (queryField_name field) (queryField_name listField)
                        then listField else field)
                   (query_fields query)) in
            updateObject query ctx
        | None => ctx
        end
  | _, _ => ctx
  end.

End UpdateListField.

(** A schema step whose context is the [Query] type and the names of the
    enums that were ensured; the list query of a model is [list<Model>s]. *)
Definition example_schemaCollaborators
  : SchemaCollaborators (option QueryNode * list string) := {|
  lookupResolverName := fun config ctx op =>
    Some (op +:+ object_name (pk_object config) +:+ "s");
  getQuery := fst;
  updateObject := fun query ctx => (Some query, snd ctx);
  createHashField := fun config =>
    mkInputValue (field_name (pk_field config)) (NamedType "ID");
  makeInputValueDefinition := mkInputValue;
  makeNamedType := NamedType;
  ensureModelSortDirectionEnum := fun ctx => (fst ctx, "ModelSortDirection" :: snd ctx)
|}.

Definition example_listPosts : QueryFieldNode :=
  mkQueryField (mkField "listPosts" (NamedType "ModelPostConnection") [] 40)
    (Some [mkInputValue "filter" (NamedType "ModelPostFilterInput");
           mkInputValue "limit" (NamedType "Int")]).

Definition example_query : QueryNode :=
  mkQuery "Query" []
    [mkQueryField (mkField "getPost" (NamedType "Post") [] 41) None;
     example_listPosts].

Definition example_post_key : PrimaryKeyDirectiveConfiguration :=
  mkPrimaryKey example_post example_post_id (example_directive example_post_id)
    ["title"; "createdAt"] [] None.

(** * Properties *)

(** ** Strings and template texts *)

Lemma strip_prefix_app (p s : string) : strip_prefix p (p +:+ s) = Some s.
Proof.
  induction p as [|a p IH]; simpl; [done|].
  by rewrite Ascii.eqb_refl.
Qed.

Lemma length_append (a b : string) :
  String.length (a +:+ b) = String.length a + String.length b.
Proof. induction a as [|c a IH]; simpl; [done|]. by rewrite IH. Qed.

Lemma strip_suffix_unfold (suf s : string) :
  strip_suffix suf s =
  if String.eqb s suf then Some EmptyString
  else match s with
       | EmptyString => None
       | String a s' => String a <$> strip_suffix suf s'
       end.
Proof. by destruct s. Qed.

Lemma strip_suffix_app (suf s : string) : strip_suffix suf (s +:+ suf) = Some s.
Proof.
  induction s as [|a s IH].
  - rewrite strip_suffix_unfold. simpl. by rewrite String.eqb_refl.
  - rewrite strip_suffix_unfold.
    destruct (String.eqb_spec (String a s +:+ suf) suf) as [E|_].
    + apply (f_equal String.length) in E.
      rewrite length_append in E. simpl in E. lia.
    + simpl. by rewrite IH.
Qed.

Section TemplateFacts.
Context (c : Context) (st : Store).

Lemma reference_source (f : string) :
  reference c st ("ctx.source." +:+ f) = ctx_source c f.
Proof. reflexivity. Qed.

Lemma reference_connectionAttribute (f : string) :
  reference c st ("ctx.stash.connectionAttibutes.get(" +:+ dquote +:+ f
                  +:+ dquote +:+ ")")
  = ctx_stash_connectionAttibutes c f.
Proof.
  unfold reference. simpl.
  change (EmptyString +:+ f +:+ dquote +:+ ")") with (f +:+ (dquote +:+ ")")).
  by rewrite strip_suffix_app.
Qed.

Lemma value_of_raw_isNull (path : string) :
  value_of c st (raw ("$util.isNull($" +:+ path +:+ ")"))
  = VBool (isNull (reference c st path)).
Proof.
  cbn [value_of].
  rewrite (strip_prefix_app "$util.isNull($" (path +:+ ")")).
  cbn [mbind option_bind].
  by rewrite strip_suffix_app.
Qed.

Lemma value_of_isNull_source (f : string) :
  value_of c st (raw ("$util.isNull($ctx.source." +:+ f +:+ ")"))
  = VBool (isNull (ctx_source c f)).
Proof.
  change ("$util.isNull($ctx.source." +:+ f +:+ ")")
    with ("$util.isNull($" +:+ ("ctx.source." +:+ f) +:+ ")").
  by rewrite value_of_raw_isNull, reference_source.
Qed.

Lemma existsb_isNull_source (l : list string) :
  existsb (fun e' => truthy (value_of c st e'))
    (map (fun f => raw ("$util.isNull($ctx.source." +:+ f +:+ ")")) l)
  = existsb (fun f => isNull (ctx_source c f)) l.
Proof.
  induction l as [|f l IH]; [done|].
  cbn [map existsb]. rewrite value_of_isNull_source, IH.
  by destruct (isNull (ctx_source c f)).
Qed.

(** Unfolding equations of [exec]. *)
Lemma exec_compound_nil : exec c (compoundExpression []) st = Rendered [] st.
Proof. reflexivity. Qed.

Lemma exec_compound_cons (e : Expression) (es : list Expression) :
  exec c (compoundExpression (e :: es)) st =
  match exec c e st with
  | Rendered out st' =>
      match exec c (compoundExpression es) st' with
      | Rendered out' st'' => Rendered (out ++ out') st''
      | stop => stop
      end
  | stop => stop
  end.
Proof. reflexivity. Qed.

Lemma exec_iff (p body : Expression) :
  exec c (iff_ p body) st =
  if truthy (value_of c st p) then exec c body st else Rendered [] st.
Proof. reflexivity. Qed.

Lemma exec_ifElse (p a b : Expression) :
  exec c (ifElse p a b) st =
  if truthy (value_of c st p) then exec c a st else exec c b st.
Proof. reflexivity. Qed.

Lemma exec_set (x : string) (v : Expression) :
  exec c (set_ (ref x) v) st = Rendered [] (<[x := value_of c st v]> st).
Proof. reflexivity. Qed.

Lemma exec_put (x : string) (key : string) (v : Expression)
    (entries : list (string * Value)) :
  st !! x = Some (VMap entries) →
  exec c (qref (methodCall (ref (x +:+ ".put")) [str key; v])) st
  = Rendered [] (<[x := VMap (map_put key (value_of c st v) entries)]> st).
Proof.
  intros Hx. cbn [exec]. rewrite strip_suffix_app. cbn [value_of]. by rewrite Hx.
Qed.

Lemma exec_toJson (e : Expression) :
  exec c (toJson e) st = Rendered [value_of c st e] st.
Proof. reflexivity. Qed.

End TemplateFacts.

(** ** The singular-connection resolver *)

Lemma truthy_VBool (b : bool) : truthy (VBool b) = b.
Proof. by destruct b. Qed.

Lemma reference_GetRequest (c : Context) (st : Store) :
  reference c st "GetRequest" = default VNull (st !! "GetRequest").
Proof. reflexivity. Qed.

Lemma reference_partitionKeyValue (c : Context) (st : Store) :
  reference c st PARTITION_KEY_VALUE = default VNull (st !! PARTITION_KEY_VALUE).
Proof. reflexivity. Qed.

(** The tail of a request program: the request object is built, the
    authorization filter is added when the stash holds one, and the object
    is rendered. *)
Lemma getRequest_exec (c : Context) (st : Store) (query filter : Expression) :
  buildsQuery
    (exec c
       (compoundExpression [
          set_ (ref "GetRequest")
            (obj [("version", str "2018-05-29"); ("operation", str "Query")]);
          qref (methodCall (ref "GetRequest.put") [str "query"; query]);
          iff_ (not_ (isNullOrEmpty authFilter))
            (qref (methodCall (ref "GetRequest.put") [str "filter"; filter]));
          toJson (ref "GetRequest")]) st).
Proof.
  rewrite exec_compound_cons, exec_set.
  rewrite exec_compound_cons.
  erewrite (exec_put _ _ "GetRequest"); [|apply lookup_insert_eq].
  rewrite insert_insert_eq.
  rewrite exec_compound_cons, exec_iff.
  destruct (truthy _).
  - erewrite (exec_put _ _ "GetRequest"); [|apply lookup_insert_eq].
    rewrite insert_insert_eq.
    rewrite exec_compound_cons, exec_toJson, exec_compound_nil.
    cbn [value_of]. rewrite reference_GetRequest, lookup_insert_eq.
    eexists. split; [reflexivity|]. repeat split; try reflexivity. by eexists.
  - rewrite exec_compound_cons, exec_toJson, exec_compound_nil.
    cbn [value_of]. rewrite reference_GetRequest, lookup_insert_eq.
    eexists. split; [reflexivity|]. repeat split; try reflexivity. by eexists.
Qed.

Lemma buildsQuery_not_returned (o : Outcome) (v : Value) :
  buildsQuery o → o ≠ Returned v.
Proof. intros (request & Hr & _) ->. discriminate Hr. Qed.

Section HasOne.
Context `{Collaborators}.

(** The response expression, run on any Query result. *)
Lemma responseExpression_exec (c : Context) :
  exec c responseExpression ∅ =
  match ctx_result_items c with
  | item :: _ =>
      if Z.eqb (ctx_result_scannedCount c) 1
      then Rendered [item] ∅ else Rendered [VNull] ∅
  | [] =>
      if Z.eqb (ctx_result_scannedCount c) 1
      then Unauthorized else Rendered [VNull] ∅
  end.
Proof.
  unfold responseExpression. cbn.
  destruct (ctx_result_items c) as [|item items];
    destruct (Z.eqb (ctx_result_scannedCount c) 1); reflexivity.
Qed.

(** The request program, run on any context: a denied field, a null
    partition-key value or a null range-key field ends it with [#return];
    otherwise the Query request is built. *)
Lemma requestProgram_exec (c : Context) (localFields totalExpressions : list string)
    (totalExpressionNames totalExpressionValues : list (string * Expression)) :
  let o := exec c (requestProgram localFields totalExpressions
                     totalExpressionNames totalExpressionValues) ∅ in
  if truthy (ctx_stash_deniedField c)
     || isNull (partitionKeyValue c localFields)
     || existsb (fun f => isNull (ctx_source c f)) (tail localFields)
  then o = Returned VNull
  else buildsQuery o.
Proof.
  unfold requestProgram, partitionKeyValue.
  set (f0 := js_string (localFields !! 0)).
  set (pk := if isNull (ctx_stash_connectionAttibutes c f0)
             then ctx_source c f0 else ctx_stash_connectionAttibutes c f0).
  cbv zeta.
  rewrite exec_compound_cons, exec_iff.
  change (value_of c ∅ (ref "ctx.stash.deniedField")) with (ctx_stash_deniedField c).
  destruct (truthy (ctx_stash_deniedField c)) eqn:Hdenied; [reflexivity|].
  rewrite exec_compound_cons, exec_set.
  cbn [value_of map].
  rewrite reference_connectionAttribute, reference_source.
  change (call "util.defaultIfNull"
            [ctx_stash_connectionAttibutes c f0; ctx_source c f0]) with pk.
  rewrite exec_compound_cons, exec_ifElse.
  cbn [value_of map existsb].
  rewrite existsb_isNull_source, reference_partitionKeyValue, lookup_insert_eq.
  change (call "util.isNull" [default VNull (Some pk)]) with (VBool (isNull pk)).
  rewrite !truthy_VBool. cbn [orb].
  destruct (isNull pk || existsb _ (tail localFields)) eqn:Hnull; [reflexivity|].
  destruct (getRequest_exec c (<[PARTITION_KEY_VALUE:=pk]> ∅)
              (obj [("expression", str (join " AND " totalExpressions));
                    ("expressionNames", obj totalExpressionNames);
                    ("expressionValues", obj totalExpressionValues)])
              (methodCall (ref "util.parseJson")
                 [methodCall (ref "util.transform.toDynamoDBFilterExpression")
                    [authFilter]]))
    as (request & Hrendered & Hentries).
  destruct (exec c (compoundExpression (set_ (ref "GetRequest") _ :: _)) _)
    as [out st'| | |] eqn:Hexec; try discriminate Hrendered.
  rewrite exec_compound_nil, app_nil_r.
  by exists request.
Qed.

(** A successful synthesis registers the resolver of the connection field
    with the two programs above, and touches no table. *)
Lemma makeGetItemConnectionWithKeyResolver_registers
    (config : HasOneDirectiveConfiguration) (ctx ctx' : TransformerContextProvider) :
  makeGetItemConnectionWithKeyResolver config ctx = (Returns tt, ctx') →
  hasOne_relatedTypeIndex config ≠ []
  ∧ tables ctx' = tables ctx
  ∧ ∃ resolver totalExpressions totalExpressionNames totalExpressionValues,
      resolvers ctx' = <[resolverKey config := resolver]> (resolvers ctx)
      ∧ templateProgram (requestMappingTemplate resolver)
        = requestProgram (localFieldsOf config) totalExpressions
            totalExpressionNames totalExpressionValues
      ∧ templateProgram (responseMappingTemplate resolver) = responseProgram.
Proof.
  unfold makeGetItemConnectionWithKeyResolver.
  destruct (Nat.eqb_spec (length (hasOne_relatedTypeIndex config)) 0) as [|Hne]; [done|].
  intros Hrun. split; [by destruct (hasOne_relatedTypeIndex config)|].
  revert Hrun.
  unfold localFieldsOf, resolverKey.
  unfold bind, getTable, get, lift, ret, addResolver, modify, throw.
  repeat case_match; intros; simplify_eq; cbn;
    (split; [done|]); do 4 eexists; split_and!; reflexivity.
Qed.

(** With a related-type index of more than two fields, the sort-key value
    of the request is the condensed value of the local range-key fields,
    with the placeholder sentinel as default. *)
Lemma makeGetItemConnectionWithKeyResolver_composite
    (config : HasOneDirectiveConfiguration) (ctx ctx' : TransformerContextProvider) :
  makeGetItemConnectionWithKeyResolver config ctx = (Returns tt, ctx') →
  2 < length (hasOne_relatedTypeIndex config) →
  ∃ resolver totalExpressions totalExpressionNames partitionValue,
    resolvers ctx' !! resolverKey config = Some resolver
    ∧ templateProgram (requestMappingTemplate resolver)
      = requestProgram (localFieldsOf config) totalExpressions totalExpressionNames
          [(":partitionValue", partitionValue);
           (":sortKeyName",
            ref ("util.parseJson($util.dynamodb.toDynamoDBJson($util.defaultIfNullOrBlank("
                 +:+ dquote +:+ condensedSortKeyValue (localFieldsOf config) +:+ dquote
                 +:+ ", " +:+ dquote +:+ NONE_VALUE +:+ dquote +:+ ")))"))].
Proof.
  unfold makeGetItemConnectionWithKeyResolver.
  intros Hrun Hcomposite.
  destruct (Nat.eqb_spec (length (hasOne_relatedTypeIndex config)) 0) as [|_]; [lia|].
  apply Nat.ltb_lt in Hcomposite. rewrite Hcomposite in Hrun.
  revert Hrun.
  unfold localFieldsOf, resolverKey.
  unfold bind, getTable, get, lift, ret, addResolver, modify, throw.
  repeat case_match; intros; simplify_eq; cbn;
    do 4 eexists; (split; [apply lookup_insert_eq|reflexivity]).
Qed.

(** C1.  The response program of every resolver that
    [makeGetItemConnectionWithKeyResolver] synthesizes, run on a Query
    result that the [dynamoDBResponse] wrapper hands to the response
    expression (a result without data-source error), has three outcomes: a
    non-empty item list with [scannedCount = 1] renders the first item; an
    empty item list with [scannedCount = 1] raises unauthorized; every
    other result renders null. *)
Theorem response_three_outcomes
    (config : HasOneDirectiveConfiguration) (ctx ctx' : TransformerContextProvider)
    (c : Context) :
  makeGetItemConnectionWithKeyResolver config ctx = (Returns tt, ctx') →
  exec c (dynamoDBResponse false responseExpression) ∅ = exec c responseExpression ∅ →
  ∃ resolver,
    resolvers ctx' !! resolverKey config = Some resolver
    ∧ (ctx_result_items c ≠ [] → ctx_result_scannedCount c = 1%Z →
       run c (responseMappingTemplate resolver)
       = Rendered [default VNull (head (ctx_result_items c))] ∅)
    ∧ (ctx_result_items c = [] → ctx_result_scannedCount c = 1%Z →
       run c (responseMappingTemplate resolver) = Unauthorized)
    ∧ (ctx_result_scannedCount c ≠ 1%Z →
       run c (responseMappingTemplate resolver) = Rendered [VNull] ∅).
Proof.
  intros Hrun Hwrapper.
  destruct (makeGetItemConnectionWithKeyResolver_registers _ _ _ Hrun)
    as (_ & _ & resolver & te & ten & tev & Hres & _ & Hresponse).
  exists resolver. split; [by rewrite Hres, lookup_insert_eq|].
  unfold run. rewrite Hresponse. unfold responseProgram.
  rewrite Hwrapper, responseExpression_exec.
  split_and!.
  - intros Hitems ->. by destruct (ctx_result_items c).
  - by intros -> ->.
  - intros Hcount. apply Z.eqb_neq in Hcount. rewrite Hcount.
    by destruct (ctx_result_items c).
Qed.

(** C2, as the code has it.  The request program of every synthesized
    resolver ends with a local return exactly when the field is denied, or
    the partition-key value is null, or one of the remaining local key
    fields is null in the source object; in every other case the Query
    request is built and rendered. *)
Theorem request_short_circuit
    (config : HasOneDirectiveConfiguration) (ctx ctx' : TransformerContextProvider)
    (c : Context) :
  makeGetItemConnectionWithKeyResolver config ctx = (Returns tt, ctx') →
  ∃ resolver,
    resolvers ctx' !! resolverKey config = Some resolver
    ∧ (run c (requestMappingTemplate resolver) = Returned VNull
       ↔ truthy (ctx_stash_deniedField c) = true
         ∨ partitionKeyValue c (localFieldsOf config) = VNull
         ∨ ∃ f, f ∈ tail (localFieldsOf config) ∧ ctx_source c f = VNull)
    ∧ (run c (requestMappingTemplate resolver) ≠ Returned VNull →
       buildsQuery (run c (requestMappingTemplate resolver))).
Proof.
  intros Hrun.
  destruct (makeGetItemConnectionWithKeyResolver_registers _ _ _ Hrun)
    as (_ & _ & resolver & te & ten & tev & Hres & Hrequest & _).
  exists resolver. split; [by rewrite Hres, lookup_insert_eq|].
  unfold run. rewrite Hrequest.
  pose proof (requestProgram_exec c (localFieldsOf config) te ten tev) as Hexec.
  cbv zeta in Hexec.
  destruct (truthy (ctx_stash_deniedField c)
            || isNull (partitionKeyValue c (localFieldsOf config))
            || existsb (fun f => isNull (ctx_source c f)) (tail (localFieldsOf config)))
    eqn:Hshort.
  - split; [|done]. split; [intros _|done].
    apply orb_true_iff in Hshort as [Hshort|Hfield].
    + apply orb_true_iff in Hshort as [Hdenied|Hpk]; [by left|].
      right; left. by destruct (partitionKeyValue c (localFieldsOf config)).
    + right; right. apply existsb_exists in Hfield as (f & Hin & Hnull).
      exists f. split; [by apply list_elem_of_In|].
      by destruct (ctx_source c f).
  - split; [|done]. split.
    + intros Hreturned. by apply buildsQuery_not_returned with (v := VNull) in Hexec.
    + intros Hcases. exfalso.
      apply orb_false_iff in Hshort as [Hshort Hfield].
      apply orb_false_iff in Hshort as [Hdenied Hpk].
      destruct Hcases as [Hd|[Hp|(f & Hin & Hnull)]].
      * congruence.
      * by rewrite Hp in Hpk.
      * assert (existsb (fun f => isNull (ctx_source c f)) (tail (localFieldsOf config))
                = true) as Hex; [|congruence].
        apply existsb_exists. exists f. split; [by apply list_elem_of_In|].
        by rewrite Hnull.
Qed.

(** C10.  With an empty [relatedTypeIndex] the synthesizer throws before it
    reads or writes anything: the context is left as it was, no resolver is
    registered, and the call does not return. *)
Theorem empty_relatedTypeIndex_throws
    (config : HasOneDirectiveConfiguration) (ctx : TransformerContextProvider) :
  hasOne_relatedTypeIndex config = [] →
  makeGetItemConnectionWithKeyResolver config ctx
  = (Throws (Error "Expected relatedType index fields to be set for connection."), ctx)
  ∧ resolvers (snd (makeGetItemConnectionWithKeyResolver config ctx)) = resolvers ctx
  ∧ ∀ ctx', makeGetItemConnectionWithKeyResolver config ctx ≠ (Returns tt, ctx').
Proof.
  intros Hempty.
  assert (makeGetItemConnectionWithKeyResolver config ctx
          = (Throws (Error "Expected relatedType index fields to be set for connection."),
             ctx)) as Hthrows.
  { unfold makeGetItemConnectionWithKeyResolver. by rewrite Hempty. }
  rewrite Hthrows. split_and!; [done|done|]. by intros ctx'.
Qed.

End HasOne.

(** Without a data-source error the wrapper of graphql-mapping-template
    hands over to the expression it was given. *)
Lemma example_dynamoDBResponse_exec (c : Context) (e : Expression) :
  truthy (ctx_error c) = false →
  exec c (example_dynamoDBResponse false e) ∅ = exec c e ∅.
Proof.
  intros Herror. unfold example_dynamoDBResponse.
  rewrite exec_compound_cons, exec_ifElse.
  change (value_of c ∅ (ref "ctx.error")) with (ctx_error c). rewrite Herror.
  destruct (exec c e ∅); [|done..].
  by rewrite exec_compound_nil, app_nil_r.
Qed.

(** The synthesis of the example succeeds. *)
Lemma example_synthesis :
  @makeGetItemConnectionWithKeyResolver example_collaborators example_hasOne
    example_context
  = (Returns tt, example_synthesized).
Proof. vm_compute. reflexivity. Qed.

Lemma response_three_outcomes_witness :
  ∃ resolver,
    resolvers example_synthesized !! resolverKey example_hasOne = Some resolver
    ∧ (ctx_result_items (example_fullKey [VString "post"] 1) ≠ [] →
       ctx_result_scannedCount (example_fullKey [VString "post"] 1) = 1%Z →
       run (example_fullKey [VString "post"] 1) (responseMappingTemplate resolver)
       = Rendered
           [default VNull (head (ctx_result_items (example_fullKey [VString "post"] 1)))]
           ∅)
    ∧ (ctx_result_items (example_fullKey [VString "post"] 1) = [] →
       ctx_result_scannedCount (example_fullKey [VString "post"] 1) = 1%Z →
       run (example_fullKey [VString "post"] 1) (responseMappingTemplate resolver)
       = Unauthorized)
    ∧ (ctx_result_scannedCount (example_fullKey [VString "post"] 1) ≠ 1%Z →
       run (example_fullKey [VString "post"] 1) (responseMappingTemplate resolver)
       = Rendered [VNull] ∅).
Proof.
  apply (@response_three_outcomes example_collaborators example_hasOne example_context).
  - vm_compute. reflexivity.
  - vm_compute. reflexivity.
Defined.

(** The three outcomes on the example, by evaluation. *)
Example response_outcomes_example :
  ∃ resolver,
    resolvers example_synthesized !! "Blog.post" = Some resolver
    ∧ run (example_fullKey [VString "post"] 1) (responseMappingTemplate resolver)
      = Rendered [VString "post"] ∅
    ∧ run (example_fullKey [] 1) (responseMappingTemplate resolver) = Unauthorized
    ∧ run (example_fullKey [] 0) (responseMappingTemplate resolver) = Rendered [VNull] ∅
    ∧ run (example_fullKey [VString "post"; VString "other"] 2)
        (responseMappingTemplate resolver)
      = Rendered [VNull] ∅.
Proof. eexists. split; [vm_compute; reflexivity|]. split_and!; vm_compute; reflexivity. Qed.

Lemma request_short_circuit_witness :
  ∃ resolver,
    resolvers example_synthesized !! resolverKey example_hasOne = Some resolver
    ∧ (run example_partialKey (requestMappingTemplate resolver) = Returned VNull
       ↔ truthy (ctx_stash_deniedField example_partialKey) = true
         ∨ partitionKeyValue example_partialKey (localFieldsOf example_hasOne) = VNull
         ∨ ∃ f, f ∈ tail (localFieldsOf example_hasOne)
                ∧ ctx_source example_partialKey f = VNull)
    ∧ (run example_partialKey (requestMappingTemplate resolver) ≠ Returned VNull →
       buildsQuery (run example_partialKey (requestMappingTemplate resolver))).
Proof.
  apply (@request_short_circuit example_collaborators example_hasOne example_context).
  vm_compute. reflexivity.
Defined.

(** C2 as the specification words it fails: with [postId] set and the two
    range-key fields null, not all local key fields are null, yet the
    request program returns locally and builds no Query. *)
Lemma request_all_null_counterexample :
  ∃ resolver,
    resolvers example_synthesized !! resolverKey example_hasOne = Some resolver
    ∧ ¬ (run example_partialKey (requestMappingTemplate resolver) = Returned VNull
         ↔ Forall (fun f => ctx_source example_partialKey f = VNull)
             (localFieldsOf example_hasOne)).
Proof.
  eexists. split; [vm_compute; reflexivity|].
  intros [Hall _].
  assert (Forall (fun f => ctx_source example_partialKey f = VNull)
            (localFieldsOf example_hasOne)) as Hnull.
  { apply Hall. vm_compute. reflexivity. }
  apply Forall_cons in Hnull as [Hid _]. discriminate Hid.
Qed.

Lemma empty_relatedTypeIndex_throws_witness :
  @makeGetItemConnectionWithKeyResolver example_collaborators
    (mkHasOne ["postId"] (hasOne_field example_hasOne) [] example_blog example_post [])
    example_context
  = (Throws (Error "Expected relatedType index fields to be set for connection."),
     example_context)
  ∧ resolvers
      (snd (@makeGetItemConnectionWithKeyResolver example_collaborators
              (mkHasOne ["postId"] (hasOne_field example_hasOne) [] example_blog
                 example_post [])
              example_context))
    = resolvers example_context
  ∧ ∀ ctx',
      @makeGetItemConnectionWithKeyResolver example_collaborators
        (mkHasOne ["postId"] (hasOne_field example_hasOne) [] example_blog example_post [])
        example_context
      ≠ (Returns tt, ctx').
Proof.
  apply (@empty_relatedTypeIndex_throws example_collaborators). reflexivity.
Defined.

(** ** The request a synthesized program renders *)

Lemma value_of_authFilter_present (c : Context) (st : Store) :
  truthy (value_of c st (not_ (isNullOrEmpty authFilter)))
  = negb (isNullOrEmptyValue (ctx_stash_authFilter c)).
Proof.
  change (value_of c st (not_ (isNullOrEmpty authFilter)))
    with (VBool (negb (truthy (VBool (isNullOrEmptyValue (ctx_stash_authFilter c)))))).
  by rewrite !truthy_VBool.
Qed.

(** The request object the tail of a request program renders. *)
Lemma getRequest_exec_rendered (c : Context) (st : Store) (query filter : Expression) :
  ∃ st1 filterValue,
    rendered
      (exec c
         (compoundExpression [
            set_ (ref "GetRequest")
              (obj [("version", str "2018-05-29"); ("operation", str "Query")]);
            qref (methodCall (ref "GetRequest.put") [str "query"; query]);
            iff_ (not_ (isNullOrEmpty authFilter))
              (qref (methodCall (ref "GetRequest.put") [str "filter"; filter]));
            toJson (ref "GetRequest")]) st)
    = Some [VMap ([("version", VString "2018-05-29"); ("operation", VString "Query");
                   ("query", value_of c st1 query)]
                  ++ if isNullOrEmptyValue (ctx_stash_authFilter c) then []
                     else [("filter", filterValue)])].
Proof.
  rewrite exec_compound_cons, exec_set.
  rewrite exec_compound_cons.
  erewrite (exec_put _ _ "GetRequest"); [|apply lookup_insert_eq].
  rewrite insert_insert_eq.
  rewrite exec_compound_cons, exec_iff, value_of_authFilter_present.
  destruct (isNullOrEmptyValue (ctx_stash_authFilter c)); cbn [negb].
  - rewrite exec_compound_cons, exec_toJson, exec_compound_nil.
    cbn [value_of]. rewrite reference_GetRequest, lookup_insert_eq.
    by eexists _, VNull.
  - erewrite (exec_put _ _ "GetRequest"); [|apply lookup_insert_eq].
    rewrite insert_insert_eq.
    rewrite exec_compound_cons, exec_toJson, exec_compound_nil.
    cbn [value_of]. rewrite reference_GetRequest, lookup_insert_eq.
    by eexists _, _.
Qed.

Section RequestPrograms.
Context `{Collaborators}.

(** The request a request program renders when it does not return
    locally. *)
Lemma requestProgram_rendered (c : Context) (localFields totalExpressions : list string)
    (totalExpressionNames totalExpressionValues : list (string * Expression)) :
  shortCircuits c localFields = false →
  ∃ st1 filterValue,
    rendered (exec c (requestProgram localFields totalExpressions
                        totalExpressionNames totalExpressionValues) ∅)
    = Some [VMap ([("version", VString "2018-05-29"); ("operation", VString "Query");
                   ("query",
                    value_of c st1
                      (obj [("expression", str (join " AND " totalExpressions));
                            ("expressionNames", obj totalExpressionNames);
                            ("expressionValues", obj totalExpressionValues)]))]
                  ++ if isNullOrEmptyValue (ctx_stash_authFilter c) then []
                     else [("filter", filterValue)])].
Proof.
  unfold shortCircuits, requestProgram, partitionKeyValue.
  set (f0 := js_string (localFields !! 0)).
  set (pk := if isNull (ctx_stash_connectionAttibutes c f0)
             then ctx_source c f0 else ctx_stash_connectionAttibutes c f0).
  intros Hguard.
  apply orb_false_iff in Hguard as [Hguard Hfields].
  apply orb_false_iff in Hguard as [Hdenied Hpk].
  rewrite exec_compound_cons, exec_iff.
  change (value_of c ∅ (ref "ctx.stash.deniedField")) with (ctx_stash_deniedField c).
  rewrite Hdenied.
  rewrite exec_compound_cons, exec_set.
  cbn [value_of map].
  rewrite reference_connectionAttribute, reference_source.
  change (call "util.defaultIfNull"
            [ctx_stash_connectionAttibutes c f0; ctx_source c f0]) with pk.
  rewrite exec_compound_cons, exec_ifElse.
  cbn [value_of map existsb].
  rewrite existsb_isNull_source, reference_partitionKeyValue, lookup_insert_eq.
  change (call "util.isNull" [default VNull (Some pk)]) with (VBool (isNull pk)).
  rewrite !truthy_VBool, Hpk, Hfields. cbn [orb].
  destruct (getRequest_exec_rendered c (<[PARTITION_KEY_VALUE:=pk]> ∅)
              (obj [("expression", str (join " AND " totalExpressions));
                    ("expressionNames", obj totalExpressionNames);
                    ("expressionValues", obj totalExpressionValues)])
              (methodCall (ref "util.parseJson")
                 [methodCall (ref "util.transform.toDynamoDBFilterExpression")
                    [authFilter]]))
    as (st1 & filterValue & Hrendered).
  exists st1, filterValue.
  destruct (exec c (compoundExpression (set_ (ref "GetRequest") _ :: _)) _)
    as [out st'| | |] eqn:Hexec; try discriminate Hrendered.
  rewrite exec_compound_nil, app_nil_r. exact Hrendered.
Qed.

End RequestPrograms.

(** ** The secondary-index reconciler *)

Lemma existsb_false_countIndex (indexName : string) (table : Table) :
  existsb (fun gsi => String.eqb (gsi_indexName gsi) indexName)
    (globalSecondaryIndexes table) = false →
  countIndex indexName table = 0.
Proof.
  unfold countIndex.
  induction (globalSecondaryIndexes table) as [|gsi gsis IH]; [done|].
  cbn [existsb]. intros [Hne Hrest]%orb_false_iff.
  apply String.eqb_neq in Hne.
  rewrite filter_cons_False by done. by apply IH.
Qed.

Lemma existsb_true_countIndex (indexName : string) (table : Table) :
  existsb (fun gsi => String.eqb (gsi_indexName gsi) indexName)
    (globalSecondaryIndexes table) = true →
  0 < countIndex indexName table.
Proof.
  unfold countIndex.
  induction (globalSecondaryIndexes table) as [|gsi gsis IH]; [done|].
  cbn [existsb]. intros [Heq|Hrest]%orb_true_iff.
  - apply String.eqb_eq in Heq. rewrite filter_cons_True by done. simpl. lia.
  - specialize (IH Hrest). rewrite filter_cons. case_decide; simpl; lia.
Qed.

(** After a push of an index whose name was not on the list, [find] by
    that name yields the pushed index. *)
Lemma find_pushed (indexName : string) (gsis : list GlobalSecondaryIndex)
    (pushed : GlobalSecondaryIndex) :
  existsb (fun gsi => String.eqb (gsi_indexName gsi) indexName) gsis = false →
  gsi_indexName pushed = indexName →
  find (fun gsi => String.eqb (gsi_indexName gsi) indexName) (gsis ++ [pushed])
  = Some pushed.
Proof.
  intros Hnone Hname.
  induction gsis as [|gsi gsis IH]; cbn [app find existsb] in *.
  - by rewrite Hname, String.eqb_refl.
  - apply orb_false_iff in Hnone as [-> Hrest]. by apply IH.
Qed.

(** *** The table construct *)

(** What [registerAttribute] does to a table: it may add an attribute
    definition at the end, and nothing else. *)
Lemma registerAttribute_frame (attribute : Attribute) (table : Table) :
  let table' := snd (registerAttribute attribute table) in
  keySchema table' = keySchema table
  ∧ billingMode table' = billingMode table
  ∧ globalSecondaryIndexes table' = globalSecondaryIndexes table
  ∧ cfnTable_globalSecondaryIndexes table' = cfnTable_globalSecondaryIndexes table
  ∧ attributeDefinitions table `prefix_of` attributeDefinitions table'.
Proof.
  cbv zeta. unfold registerAttribute, bind, get, throw, ret, modify.
  repeat case_match; simplify_eq; cbn; split_and!; try done.
  by apply prefix_app_r.
Qed.

(** What [addGlobalSecondaryIndex] does to a table: it may add attribute
    definitions at the end; when it returns, the index name was new and the
    index is at the end of the declarative list; when it throws, the
    declarative list is what it was. *)
Lemma addGlobalSecondaryIndex_spec (props : GlobalSecondaryIndexProps) (table : Table) :
  let completion := fst (addGlobalSecondaryIndex props table) in
  let table' := snd (addGlobalSecondaryIndex props table) in
  keySchema table' = keySchema table
  ∧ billingMode table' = billingMode table
  ∧ cfnTable_globalSecondaryIndexes table' = cfnTable_globalSecondaryIndexes table
  ∧ attributeDefinitions table `prefix_of` attributeDefinitions table'
  ∧ match completion with
    | Returns _ =>
        globalSecondaryIndexes table'
        = globalSecondaryIndexes table ++
          [mkGlobalSecondaryIndex (props_indexName props)
             (indexKeySchema (attribute_name (props_partitionKey props))
                (attribute_name <$> props_sortKey props))
             (props_projectionType props)
             (CfnObject [("readCapacityUnits", props_readCapacity props);
                         ("writeCapacityUnits", props_writeCapacity props)])]
    | Throws _ => globalSecondaryIndexes table' = globalSecondaryIndexes table
    end.
Proof.
  cbv zeta.
  unfold addGlobalSecondaryIndex, validateProvisioning, validateIndexName,
    buildIndexKeySchema, registerAttribute, bind, get, throw, ret, modify.
  repeat case_match; simplify_eq; cbn; split_and!; try done;
    by repeat apply prefix_app_r.
Qed.

Section Reconciler.
Context `{Collaborators}.

Lemma connectedSortKeyName_returns (ctx : TransformerContextProvider)
    (object : ObjectTypeDefinitionNode) (hasManyField : FieldDefinitionNode)
    (definitions : option SortKeyAttributeDefinitions) :
  getConnectedSortKeyAttributeDefinitionsForImplicitHasManyObject ctx object hasManyField
  = Returns definitions →
  sortKeyName <$> definitions = connectedSortKeyName ctx object hasManyField.
Proof.
  unfold getConnectedSortKeyAttributeDefinitionsForImplicitHasManyObject,
    connectedSortKeyName.
  rewrite length_map.
  destruct (getSortKeyFields ctx object) as [|f1 [|f2 fs]]; cbn.
  - by intros [= <-].
  - destruct (attributeTypeFromType (field_type f1) ctx); [|done]. by intros [= <-].
  - by intros [= <-].
Qed.

(** The four ways a reconciliation ends. *)
Lemma updateTableForConnection_explicit (config : HasManyDirectiveConfiguration)
    (ctx : TransformerContextProvider) :
  js_truthy (hasMany_indexName config) || Nat.ltb 0 (length (hasMany_fields config))
  = true →
  updateTableForConnection config ctx = (Returns config, ctx).
Proof. intros Hexplicit. unfold updateTableForConnection. by rewrite Hexplicit. Qed.

Lemma updateTableForConnection_no_table (config : HasManyDirectiveConfiguration)
    (ctx : TransformerContextProvider) :
  js_truthy (hasMany_indexName config) || Nat.ltb 0 (length (hasMany_fields config))
  = false →
  tables ctx !! object_name (hasMany_relatedType config) = None →
  ∃ e, updateTableForConnection config ctx = (Throws e, ctx).
Proof.
  intros Himplicit Htable. unfold updateTableForConnection.
  rewrite Himplicit. unfold bind, get, getTable. rewrite Htable. by eexists.
Qed.

Lemma updateTableForConnection_present (config : HasManyDirectiveConfiguration)
    (ctx : TransformerContextProvider) (table : Table) :
  js_truthy (hasMany_indexName config) || Nat.ltb 0 (length (hasMany_fields config))
  = false →
  tables ctx !! object_name (hasMany_relatedType config) = Some table →
  existsb (fun gsi => String.eqb (gsi_indexName gsi) (derivedIndexName ctx config))
    (globalSecondaryIndexes table) = true →
  updateTableForConnection config ctx
  = (Returns (withIndexName config (derivedIndexName ctx config)), ctx).
Proof.
  intros Himplicit Htable Hpresent. unfold updateTableForConnection.
  rewrite Himplicit. unfold bind, get, getTable. rewrite Htable.
  fold (derivedIndexName ctx config). by rewrite Hpresent.
Qed.

(** When the derived name is not on the table, the reconciler works on the
    table of the related type and on nothing else.  A call that returns has
    set [config.indexName] and appended the declarative and the raw entry;
    a call that throws has appended no index.  In both cases attribute
    definitions may have been added to the table. *)
Lemma updateTableForConnection_new (config : HasManyDirectiveConfiguration)
    (ctx : TransformerContextProvider) (table : Table) :
  js_truthy (hasMany_indexName config) || Nat.ltb 0 (length (hasMany_fields config))
  = false →
  tables ctx !! object_name (hasMany_relatedType config) = Some table →
  existsb (fun gsi => String.eqb (gsi_indexName gsi) (derivedIndexName ctx config))
    (globalSecondaryIndexes table) = false →
  ∃ completion tables' table',
    updateTableForConnection config ctx = (completion, with_tables tables' ctx)
    ∧ (∀ name, name ≠ object_name (hasMany_relatedType config) →
               tables' !! name = tables ctx !! name)
    ∧ tables' !! object_name (hasMany_relatedType config) = Some table'
    ∧ keySchema table' = keySchema table
    ∧ billingMode table' = billingMode table
    ∧ attributeDefinitions table `prefix_of` attributeDefinitions table'
    ∧ match completion with
      | Returns config' =>
          config' = withIndexName config (derivedIndexName ctx config)
          ∧ globalSecondaryIndexes table'
            = globalSecondaryIndexes table ++ [declarativeIndex ctx config]
          ∧ cfnTable_globalSecondaryIndexes table'
            = Some (appendIndex (cfnTable_globalSecondaryIndexes table)
                      (rawIndex ctx config))
      | Throws _ =>
          globalSecondaryIndexes table' = globalSecondaryIndexes table
          ∧ cfnTable_globalSecondaryIndexes table'
            = cfnTable_globalSecondaryIndexes table
      end.
Proof.
  intros Himplicit Htable Habsent.
  assert (∃ e : Thrown, True) as _ by (by exists (Error EmptyString)).
  assert (ctx = with_tables (tables ctx) ctx) as Heta by (by destruct ctx).
  assert (∀ e,
            ∃ completion tables' table',
              (Throws e, ctx) = (completion, with_tables tables' ctx)
              ∧ (∀ name, name ≠ object_name (hasMany_relatedType config) →
                         tables' !! name = tables ctx !! name)
              ∧ tables' !! object_name (hasMany_relatedType config) = Some table'
              ∧ keySchema table' = keySchema table
              ∧ billingMode table' = billingMode table
              ∧ attributeDefinitions table `prefix_of` attributeDefinitions table'
              ∧ match completion : Completion HasManyDirectiveConfiguration with
                | Returns config' =>
                    config' = withIndexName config (derivedIndexName ctx config)
                    ∧ globalSecondaryIndexes table'
                      = globalSecondaryIndexes table ++ [declarativeIndex ctx config]
                    ∧ cfnTable_globalSecondaryIndexes table'
                      = Some (appendIndex (cfnTable_globalSecondaryIndexes table)
                                (rawIndex ctx config))
                | Throws _ =>
                    globalSecondaryIndexes table' = globalSecondaryIndexes table
                    ∧ cfnTable_globalSecondaryIndexes table'
                      = cfnTable_globalSecondaryIndexes table
                end) as Hearly.
  { intros e. exists (Throws e), (tables ctx), table.
    rewrite <- Heta. by split_and!. }
  unfold updateTableForConnection.
  rewrite Himplicit. unfold bind at 1 2, get at 1, getTable. rewrite Htable.
  fold (derivedIndexName ctx config). rewrite Habsent.
  remember (respectPrimaryKeyAttributesOnConnectionField (transformParameters ctx))
    as respect eqn:Hrespect.
  unfold bind at 1.
  assert (∃ partitionKeyType,
            (if respect
             then lift (attributeTypeFromType
                          (field_type (getObjectPrimaryKey (hasMany_object config))) ctx)
             else ret "S") ctx
            = (partitionKeyType, ctx)) as [partitionKeyType ->].
  { destruct respect; by eexists. }
  destruct partitionKeyType as [partitionKeyType|e]; [|apply Hearly].
  unfold bind at 1.
  assert (∃ definitions,
            (if respect
             then lift (getConnectedSortKeyAttributeDefinitionsForImplicitHasManyObject
                          ctx (hasMany_object config) (hasMany_field config))
             else ret None) ctx
            = (definitions, ctx)
            ∧ ∀ d, definitions = Returns d →
                   sortKeyName <$> d
                   = if respect
                     then connectedSortKeyName ctx (hasMany_object config)
                            (hasMany_field config)
                     else None) as (definitions & -> & Hdefinitions).
  { destruct respect.
    - eexists. split; [reflexivity|]. apply connectedSortKeyName_returns.
    - eexists. split; [reflexivity|]. by intros d [= <-]. }
  destruct definitions as [definitions|e]; [|apply Hearly].
  specialize (Hdefinitions _ eq_refl).
  assert (attribute_name
            <$> ((fun d => mkAttribute (sortKeyName d) (sortKeyType d)) <$> definitions)
          = if respect
            then connectedSortKeyName ctx (hasMany_object config) (hasMany_field config)
            else None) as Hsort.
  { rewrite <- Hdefinitions. by destruct definitions. }
  unfold bind at 1, onTable.
  match goal with
  | |- context [addGlobalSecondaryIndex ?p table] =>
      pose proof (addGlobalSecondaryIndex_spec p table) as Hadd;
      destruct (addGlobalSecondaryIndex p table) as [[[]|e] table1]
  end; cbn [fst snd props_indexName props_partitionKey props_sortKey
              props_projectionType props_readCapacity props_writeCapacity
              attribute_name] in Hadd;
    destruct Hadd as (Hk & Hb & Hc & Ha & Hg).
  - rewrite Hg. erewrite find_pushed by done.
    unfold bind, setTable, modify, ret. cbn [with_tables tables].
    eexists _, _, _. split; [by destruct ctx|].
    split; [by intros name Hname; rewrite !lookup_insert_ne|].
    split; [apply lookup_insert_eq|].
    cbn [keySchema billingMode attributeDefinitions globalSecondaryIndexes
         cfnTable_globalSecondaryIndexes gsi_keySchema].
    split_and!; try done.
    + unfold declarativeIndex. by rewrite <- Hrespect, <- Hsort.
    + rewrite Hc. unfold rawIndex, declarativeIndex. cbn [gsi_keySchema].
      by rewrite <- Hrespect, <- Hsort.
  - eexists (Throws e), _, table1. split; [reflexivity|].
    split; [by intros name Hname; rewrite lookup_insert_ne|].
    split; [apply lookup_insert_eq|]. by split_and!.
Qed.

Lemma countIndex_pushed (indexName : string) (table table' : Table)
    (declarative : GlobalSecondaryIndex) :
  gsi_indexName declarative = indexName →
  globalSecondaryIndexes table' = globalSecondaryIndexes table ++ [declarative] →
  countIndex indexName table' = S (countIndex indexName table).
Proof.
  intros Hname Hpushed. unfold countIndex. rewrite Hpushed.
  rewrite filter_app, length_app, filter_cons_True by done. simpl. lia.
Qed.

Lemma js_truthy_derivedIndexName (ctx : TransformerContextProvider)
    (config : HasManyDirectiveConfiguration) :
  js_truthy (Some (derivedIndexName ctx config)) = true.
Proof. reflexivity. Qed.

(** C8.  A relation that names its index, or lists its key fields, is left
    alone: the call returns at once, and neither the configuration nor the
    context changes, so the declarative and the raw index list of the
    related table are what they were. *)
Theorem explicit_relation_untouched (config : HasManyDirectiveConfiguration)
    (ctx : TransformerContextProvider) :
  (∃ indexName, hasMany_indexName config = Some indexName ∧ indexName ≠ EmptyString)
  ∨ hasMany_fields config ≠ [] →
  updateTableForConnection config ctx = (Returns config, ctx)
  ∧ ∀ table,
      tables ctx !! object_name (hasMany_relatedType config) = Some table →
      ∃ table',
        tables (snd (updateTableForConnection config ctx))
        !! object_name (hasMany_relatedType config) = Some table'
        ∧ globalSecondaryIndexes table' = globalSecondaryIndexes table
        ∧ cfnTable_globalSecondaryIndexes table' = cfnTable_globalSecondaryIndexes table.
Proof.
  intros Hexplicit.
  assert (js_truthy (hasMany_indexName config)
          || Nat.ltb 0 (length (hasMany_fields config)) = true) as Hguard.
  { destruct Hexplicit as [(indexName & -> & Hne)|Hfields].
    - by destruct indexName.
    - destruct (hasMany_fields config); [done|]. by rewrite orb_true_r. }
  rewrite (updateTableForConnection_explicit _ _ Hguard).
  split; [done|]. intros table Htable. by exists table.
Qed.

(** C3, as the code has it.  Take a relation without index name and without
    key fields, and a table whose declarative list holds the derived name
    at most once.  If the first call returns, it has set [config.indexName]
    to [gsi-<mappedObjectName>.<fieldName>] and the table holds exactly one
    declarative index of that name; a second call, on the configuration
    object as the first call left it or on an equal fresh configuration,
    returns without failing and changes nothing. *)
Theorem updateTableForConnection_idempotent (config config1 : HasManyDirectiveConfiguration)
    (ctx ctx1 : TransformerContextProvider) (table : Table) :
  js_truthy (hasMany_indexName config) = false →
  hasMany_fields config = [] →
  tables ctx !! object_name (hasMany_relatedType config) = Some table →
  countIndex (derivedIndexName ctx config) table ≤ 1 →
  updateTableForConnection config ctx = (Returns config1, ctx1) →
  hasMany_indexName config1 = Some (derivedIndexName ctx config)
  ∧ (∃ table1,
       tables ctx1 !! object_name (hasMany_relatedType config) = Some table1
       ∧ countIndex (derivedIndexName ctx config) table1 = 1)
  ∧ updateTableForConnection config1 ctx1 = (Returns config1, ctx1)
  ∧ updateTableForConnection config ctx1 = (Returns config1, ctx1).
Proof.
  intros Hname Hfields Htable Hcount Hfirst.
  assert (js_truthy (hasMany_indexName config)
          || Nat.ltb 0 (length (hasMany_fields config)) = false) as Himplicit.
  { by rewrite Hname, Hfields. }
  set (indexName := derivedIndexName ctx config) in *.
  assert (∀ ctx2, updateTableForConnection (withIndexName config indexName) ctx2
                  = (Returns (withIndexName config indexName), ctx2)) as Hagain.
  { intros ctx2. by apply updateTableForConnection_explicit. }
  destruct (existsb (fun gsi => String.eqb (gsi_indexName gsi) indexName)
              (globalSecondaryIndexes table)) eqn:Hpresent.
  - rewrite (updateTableForConnection_present _ _ _ Himplicit Htable Hpresent)
      in Hfirst.
    injection Hfirst as <- <-.
    split_and!; try done.
    + exists table. split; [done|].
      apply existsb_true_countIndex in Hpresent. lia.
    + by apply (updateTableForConnection_present _ _ table).
  - destruct (updateTableForConnection_new _ _ _ Himplicit Htable Hpresent)
      as (completion & tables' & table' & Hrun & _ & Htable' & _ & _ & _ & Hadded).
    rewrite Hrun in Hfirst. injection Hfirst as -> <-.
    destruct Hadded as (-> & Hgsis & _).
    split_and!; try done.
    + exists table'. split; [done|].
      rewrite (countIndex_pushed indexName table table' (declarativeIndex ctx config)
                 eq_refl Hgsis).
      by rewrite (existsb_false_countIndex _ _ Hpresent).
    + erewrite updateTableForConnection_present; [done|done|exact Htable'|].
      change (derivedIndexName (with_tables tables' ctx) config) with indexName.
      rewrite Hgsis, existsb_app. cbn [existsb].
      change (gsi_indexName (declarativeIndex ctx config)) with indexName.
      by rewrite String.eqb_refl, orb_true_r.
Qed.

Lemma consistent_frame (table table' : Table) :
  globalSecondaryIndexes table' = globalSecondaryIndexes table →
  cfnTable_globalSecondaryIndexes table' = cfnTable_globalSecondaryIndexes table →
  consistent table → consistent table'.
Proof.
  unfold consistent, rawIndexes. intros -> ->. done.
Qed.

(** One reconciliation keeps the declarative and the raw index lists of
    every table pairwise consistent. *)
Lemma updateTableForConnection_consistent (config : HasManyDirectiveConfiguration)
    (ctx : TransformerContextProvider) :
  tables_consistent ctx →
  tables_consistent (snd (updateTableForConnection config ctx)).
Proof.
  intros Hconsistent.
  destruct (js_truthy (hasMany_indexName config)
            || Nat.ltb 0 (length (hasMany_fields config))) eqn:Hguard.
  { by rewrite updateTableForConnection_explicit. }
  destruct (tables ctx !! object_name (hasMany_relatedType config))
    as [table|] eqn:Htable.
  2: { by destruct (updateTableForConnection_no_table _ _ Hguard Htable) as [e ->]. }
  destruct (existsb (fun gsi => String.eqb (gsi_indexName gsi)
                                  (derivedIndexName ctx config))
              (globalSecondaryIndexes table)) eqn:Hpresent.
  { by erewrite updateTableForConnection_present. }
  destruct (updateTableForConnection_new _ _ _ Hguard Htable Hpresent)
    as (completion & tables' & table' & -> & Hothers & Htable' & _ & _ & _ & Hadded).
  intros name table2. cbn [snd with_tables tables].
  destruct (decide (name = object_name (hasMany_relatedType config))) as [->|Hname];
    [|rewrite Hothers by done; apply Hconsistent].
  rewrite Htable'. intros [= <-].
  destruct completion as [config'|e].
  - destruct Hadded as (_ & Hgsis & Hraw). intros gsi. rewrite Hgsis.
    rewrite elem_of_app, list_elem_of_singleton.
    unfold rawIndexes. rewrite Hraw. cbn [default].
    intros [Hold| ->].
    + destruct (Hconsistent _ _ Htable gsi Hold) as (raw_gsi & Hin & Hsame).
      exists raw_gsi. split; [|done].
      unfold rawIndexes in Hin.
      destruct (cfnTable_globalSecondaryIndexes table) as [raws|]; cbn in *.
      * apply elem_of_app. by left.
      * by apply elem_of_nil in Hin.
    + exists (rawIndex ctx config). split; [|done].
      destruct (cfnTable_globalSecondaryIndexes table) as [raws|]; cbn.
      * apply elem_of_app. right. by apply list_elem_of_singleton.
      * by apply list_elem_of_singleton.
  - destruct Hadded as (Hgsis & Hraw).
    eapply consistent_frame; [exact Hgsis|exact Hraw|]. by eapply Hconsistent.
Qed.

(** C9.  Starting from tables whose declarative index entries all have a
    raw entry of the same name and key schema, the same holds after each
    reconciliation and after any number of them. *)
Theorem reconciliation_keeps_consistency (ctx ctx' : TransformerContextProvider) :
  tables_consistent ctx →
  rtc reconciles ctx ctx' →
  tables_consistent ctx'.
Proof.
  intros Hconsistent Hsteps.
  induction Hsteps as [|ctx ctx1 ctx' (config & completion & Hstep) _ IH]; [done|].
  apply IH.
  pose proof (updateTableForConnection_consistent config ctx Hconsistent) as Hone.
  by rewrite Hstep in Hone.
Qed.

End Reconciler.

(** ** Key condensation *)

Lemma string_app_cons (x : ascii) (a b : string) :
  String x a +:+ b = String x (a +:+ b).
Proof. reflexivity. Qed.

Lemma string_app_assoc (a b c : string) : (a +:+ b) +:+ c = a +:+ (b +:+ c).
Proof.
  induction a as [|x a IH]; [done|].
  by rewrite !string_app_cons, IH.
Qed.

Lemma string_app_nil_r (a : string) : a +:+ EmptyString = a.
Proof.
  induction a as [|x a IH]; [done|].
  by rewrite string_app_cons, IH.
Qed.

Lemma strip_prefix_length (p s r : string) :
  strip_prefix p s = Some r → String.length s = String.length p + String.length r.
Proof.
  revert s. induction p as [|a p IH]; intros s; simpl.
  - by intros [= ->].
  - destruct s as [|b s]; [done|]. destruct (Ascii.eqb a b); [|done].
    intros Hr. simpl. by rewrite (IH _ Hr).
Qed.

Lemma read_name_length (s name rest : string) :
  read_name s = Some (name, rest) →
  String.length s = S (String.length name + String.length rest).
Proof.
  revert name. induction s as [|a s IH]; intros name; simpl; [done|].
  destruct (Ascii.eqb a "}").
  - by intros [= <- <-].
  - destruct (read_name s) as [[name' rest']|]; [|done].
    intros [= <- <-]. simpl. by rewrite (IH name').
Qed.

Lemma read_name_app (name rest : string) :
  occurs "}" name = false → read_name (name +:+ "}" +:+ rest) = Some (name, rest).
Proof.
  induction name as [|a name IH]; [done|].
  cbn [occurs]. intros [Ha Hname]%orb_false_iff.
  rewrite string_app_cons. cbn [read_name].
  rewrite Ascii.eqb_sym in Ha. by rewrite Ha, IH.
Qed.

Section Interpolation.
Context (env : string → string).

Lemma interpolate_fuel_S (n : nat) (s : string) :
  interpolate_fuel (S n) env s =
  match strip_prefix "${ctx.source." s ≫= read_name with
  | Some (name, rest) => env name +:+ interpolate_fuel n env rest
  | None =>
      match s with
      | EmptyString => EmptyString
      | String a s' => String a (interpolate_fuel n env s')
      end
  end.
Proof. reflexivity. Qed.

(** Fuel beyond the length of the text changes nothing. *)
Lemma interpolate_fuel_enough (n m : nat) (s : string) :
  String.length s ≤ n → String.length s ≤ m →
  interpolate_fuel n env s = interpolate_fuel m env s.
Proof.
  revert m s. induction n as [|n IH]; intros m s Hn Hm.
  - destruct s; [|simpl in Hn; lia]. by destruct m.
  - destruct m as [|m].
    + destruct s; [done|simpl in Hm; lia].
    + rewrite !interpolate_fuel_S.
      destruct (strip_prefix "${ctx.source." s) as [r|] eqn:Hprefix; cbn [mbind option_bind].
      * destruct (read_name r) as [[name rest]|] eqn:Hname.
        -- apply strip_prefix_length in Hprefix. apply read_name_length in Hname.
           f_equal. apply IH; lia.
        -- destruct s as [|a s]; [done|]. f_equal. simpl in Hn, Hm. apply IH; lia.
      * destruct s as [|a s]; [done|]. f_equal. simpl in Hn, Hm. apply IH; lia.
Qed.

Lemma interpolate_nil : interpolate env EmptyString = EmptyString.
Proof. reflexivity. Qed.

(** A placeholder is replaced by the text of its field. *)
Lemma interpolate_placeholder (name rest : string) :
  occurs "}" name = false →
  interpolate env (("${ctx.source." +:+ name +:+ "}") +:+ rest)
  = env name +:+ interpolate env rest.
Proof.
  intros Hname. unfold interpolate.
  rewrite (string_app_assoc "${ctx.source." _ rest), (string_app_assoc name "}" rest).
  set (s := "${ctx.source." +:+ name +:+ "}" +:+ rest).
  assert (String.length s = 14 + String.length name + String.length rest) as Hlen.
  { subst s. rewrite !length_append. simpl. lia. }
  rewrite Hlen.
  replace (14 + String.length name + String.length rest)
    with (S (13 + String.length name + String.length rest)) by lia.
  rewrite interpolate_fuel_S.
  subst s. rewrite strip_prefix_app. cbn [mbind option_bind].
  rewrite read_name_app by done.
  f_equal. apply interpolate_fuel_enough; lia.
Qed.

(** Text without [$] is copied. *)
Lemma interpolate_text (text rest : string) :
  occurs "$" text = false →
  interpolate env (text +:+ rest) = text +:+ interpolate env rest.
Proof.
  intros Htext. induction text as [|a text IH]; [done|].
  cbn [occurs] in Htext. apply orb_false_iff in Htext as [Ha Htext].
  unfold interpolate. rewrite !string_app_cons.
  cbn [String.length]. rewrite interpolate_fuel_S. cbn [strip_prefix].
  rewrite Ha. cbn [mbind option_bind]. f_equal. by apply IH.
Qed.

(** The condensed placeholders interpolate to the condensed field texts. *)
Lemma interpolate_join (sep : string) (names : list string) :
  occurs "$" sep = false →
  Forall (fun name => occurs "}" name = false) names →
  interpolate env (join sep (map (fun name => "${ctx.source." +:+ name +:+ "}") names))
  = join sep (map env names).
Proof.
  intros Hsep Hnames. induction Hnames as [|name names Hname _ IH]; [done|].
  destruct names as [|name' names].
  - change (interpolate env ("${ctx.source." +:+ name +:+ "}") = env name).
    rewrite <- (string_app_nil_r ("${ctx.source." +:+ name +:+ "}")).
    rewrite interpolate_placeholder by done.
    by rewrite interpolate_nil, string_app_nil_r.
  - change (join sep (map ?f (name :: name' :: names)))
      with (f name +:+ sep +:+ join sep (map f (name' :: names))).
    cbv beta.
    rewrite interpolate_placeholder, interpolate_text by done.
    by rewrite IH.
Qed.

End Interpolation.

Section Condensation.
Context `{Collaborators}.

Lemma condenseRangeKey_many (ctx : TransformerContextProvider)
    (object : ObjectTypeDefinitionNode) (hasManyField : FieldDefinitionNode) :
  2 ≤ length (getSortKeyFields ctx object) →
  getConnectedSortKeyAttributeDefinitionsForImplicitHasManyObject ctx object hasManyField
  = Returns
      (Some (mkSortKeyAttributeDefinitions
               (condenseRangeKey
                  (map (fun sortKeyField =>
                          getConnectionAttributeName (transformParameters ctx)
                            (getModelNameMapping ctx (object_name object))
                            (field_name hasManyField) (field_name sortKeyField))
                     (getSortKeyFields ctx object)))
               "S")).
Proof.
  intros Hmany.
  unfold getConnectedSortKeyAttributeDefinitionsForImplicitHasManyObject.
  rewrite length_map.
  destruct (getSortKeyFields ctx object) as [|f1 [|f2 fs]]; simpl in Hmany; try lia.
  reflexivity.
Qed.

(** C4.  When a type declares two or more sort-key fields, the sort-key
    attribute the reconciler declares for a derived index is named by the
    separator-join of the connected names of these fields.  When the
    related index of a singular connection has more than two fields, the
    request the synthesized resolver renders carries, as the value of
    [:sortKeyName], the expression whose quoted argument is the
    separator-join of the [${ctx.source.<field>}] placeholders of the local
    range-key fields, in their order; replacing the placeholders by the
    field values gives the join of the values with the same separator and
    in the same order. *)
Theorem key_condensation_agreement (ctx : TransformerContextProvider)
    (object : ObjectTypeDefinitionNode) (hasManyField : FieldDefinitionNode)
    (config : HasOneDirectiveConfiguration) (ctx1 ctx1' : TransformerContextProvider)
    (c : Context) (env : string → string) :
  let names := field_name <$> getSortKeyFields ctx object in
  let connected name :=
    getConnectionAttributeName (transformParameters ctx)
      (getModelNameMapping ctx (object_name object)) (field_name hasManyField) name in
  let rangeKeyFields := tail (localFieldsOf config) in
  2 ≤ length names →
  makeGetItemConnectionWithKeyResolver config ctx1 = (Returns tt, ctx1') →
  2 < length (hasOne_relatedTypeIndex config) →
  shortCircuits c (localFieldsOf config) = false →
  occurs "$" ModelCompositeKeySeparator = false →
  Forall (fun name => occurs "}" name = false) rangeKeyFields →
  getConnectedSortKeyAttributeDefinitionsForImplicitHasManyObject ctx object hasManyField
  = Returns (Some (mkSortKeyAttributeDefinitions
                     (join ModelCompositeKeySeparator (connected <$> names)) "S"))
  ∧ ∃ resolver request query values text,
      resolvers ctx1' !! resolverKey config = Some resolver
      ∧ rendered (run c (requestMappingTemplate resolver)) = Some [request]
      ∧ entry "query" request = Some query
      ∧ entry "expressionValues" query = Some values
      ∧ entry ":sortKeyName" values
        = Some (VOpaque
                  ("util.parseJson($util.dynamodb.toDynamoDBJson($util.defaultIfNullOrBlank("
                   +:+ dquote +:+ text +:+ dquote
                   +:+ ", " +:+ dquote +:+ NONE_VALUE +:+ dquote +:+ ")))"))
      ∧ text
        = join ModelCompositeKeySeparator
            ((fun name => "${ctx.source." +:+ name +:+ "}") <$> rangeKeyFields)
      ∧ interpolate env text = join ModelCompositeKeySeparator (env <$> rangeKeyFields).
Proof.
  intros names connected rangeKeyFields Hmany Hrun Hcomposite Hguard Hsep Hnames.
  split.
  { rewrite condenseRangeKey_many by (subst names; by rewrite length_fmap in Hmany).
    unfold condenseRangeKey. subst names connected.
    by rewrite <- list_fmap_compose. }
  destruct (makeGetItemConnectionWithKeyResolver_composite _ _ _ Hrun Hcomposite)
    as (resolver & totalExpressions & totalExpressionNames & partitionValue
        & Hresolver & Hprogram).
  destruct (requestProgram_rendered c (localFieldsOf config) totalExpressions
              totalExpressionNames
              [(":partitionValue", partitionValue);
               (":sortKeyName",
                ref ("util.parseJson($util.dynamodb.toDynamoDBJson($util.defaultIfNullOrBlank("
                     +:+ dquote +:+ condensedSortKeyValue (localFieldsOf config) +:+ dquote
                     +:+ ", " +:+ dquote +:+ NONE_VALUE +:+ dquote +:+ ")))"))] Hguard)
    as (st1 & filterValue & Hrendered).
  eexists resolver, _, _, _, (condensedSortKeyValue (localFieldsOf config)).
  split; [done|].
  split; [unfold run; rewrite Hprogram; exact Hrendered|].
  split; [reflexivity|].
  split; [reflexivity|].
  split.
  { cbn [entry find fst snd map value_of]. reflexivity. }
  split; [reflexivity|].
  unfold condensedSortKeyValue, condenseRangeKey. by apply interpolate_join.
Qed.

End Condensation.

(** ** The reconciler and key condensation on the example schema *)

(** The table of [Comment] after the relation [Post.comments] was
    reconciled. *)
Example example_reconciled_table :
  tables (snd (@updateTableForConnection example_collaborators example_hasMany
                 example_context)) !! "Comment"
  = Some (mkTable (keySchema example_commentTable)
            [mkAttribute "id" "S"; mkAttribute "Post_comments_id" "S";
             mkAttribute "Post_comments_title#Post_comments_createdAt" "S"]
            PROVISIONED
            [mkGlobalSecondaryIndex "gsi-Post.comments"
               [mkKeySchemaElement "Post_comments_id" "HASH";
                mkKeySchemaElement "Post_comments_title#Post_comments_createdAt" "RANGE"]
               "ALL"
               (CfnObject [("readCapacityUnits", Fn_ref "DynamoDBModelTableReadIOPS");
                           ("writeCapacityUnits", Fn_ref "DynamoDBModelTableWriteIOPS")])]
            (Some
               [mkGlobalSecondaryIndex "gsi-Post.comments"
                  [mkKeySchemaElement "Post_comments_id" "HASH";
                   mkKeySchemaElement "Post_comments_title#Post_comments_createdAt" "RANGE"]
                  "ALL"
                  (Fn_conditionIf "ShouldUsePayPerRequestBilling" (Fn_ref "AWS::NoValue")
                     (CfnObject
                        [("ReadCapacityUnits", Fn_ref "DynamoDBModelTableReadIOPS");
                         ("WriteCapacityUnits", Fn_ref "DynamoDBModelTableWriteIOPS")]))])).
Proof. vm_compute. reflexivity. Qed.

Lemma example_context_consistent : tables_consistent example_context.
Proof.
  intros name table Hlookup gsi Hgsi.
  assert (globalSecondaryIndexes table = []) as Hnone.
  { unfold example_context in Hlookup. cbn [tables] in Hlookup.
    apply lookup_insert_Some in Hlookup as [[_ <-]|[_ Hlookup]]; [done|].
    apply lookup_insert_Some in Hlookup as [[_ <-]|[_ Hlookup]]; [done|].
    by apply lookup_singleton_Some in Hlookup as [_ <-]. }
  rewrite Hnone in Hgsi. by apply elem_of_nil in Hgsi.
Qed.

Lemma explicit_relation_untouched_witness :
  @updateTableForConnection example_collaborators example_hasMany_explicit example_context
  = (Returns example_hasMany_explicit, example_context)
  ∧ ∀ table,
      tables example_context !! object_name (hasMany_relatedType example_hasMany_explicit)
      = Some table →
      ∃ table',
        tables (snd (@updateTableForConnection example_collaborators
                       example_hasMany_explicit example_context))
        !! object_name (hasMany_relatedType example_hasMany_explicit) = Some table'
        ∧ globalSecondaryIndexes table' = globalSecondaryIndexes table
        ∧ cfnTable_globalSecondaryIndexes table' = cfnTable_globalSecondaryIndexes table.
Proof.
  apply (@explicit_relation_untouched example_collaborators).
  left. exists "byPost". split; [reflexivity|discriminate].
Defined.

Lemma updateTableForConnection_idempotent_witness :
  hasMany_indexName (withIndexName example_hasMany "gsi-Post.comments")
  = Some (derivedIndexName example_context example_hasMany)
  ∧ (∃ table1,
       tables (snd (@updateTableForConnection example_collaborators example_hasMany
                      example_context))
       !! object_name (hasMany_relatedType example_hasMany) = Some table1
       ∧ countIndex (derivedIndexName example_context example_hasMany) table1 = 1)
  ∧ @updateTableForConnection example_collaborators
      (withIndexName example_hasMany "gsi-Post.comments")
      (snd (@updateTableForConnection example_collaborators example_hasMany
              example_context))
    = (Returns (withIndexName example_hasMany "gsi-Post.comments"),
       snd (@updateTableForConnection example_collaborators example_hasMany
              example_context))
  ∧ @updateTableForConnection example_collaborators example_hasMany
      (snd (@updateTableForConnection example_collaborators example_hasMany
              example_context))
    = (Returns (withIndexName example_hasMany "gsi-Post.comments"),
       snd (@updateTableForConnection example_collaborators example_hasMany
              example_context)).
Proof.
  apply (@updateTableForConnection_idempotent example_collaborators example_hasMany
           (withIndexName example_hasMany "gsi-Post.comments") example_context
           (snd (@updateTableForConnection example_collaborators example_hasMany
                   example_context))
           example_commentTable).
  - reflexivity.
  - reflexivity.
  - vm_compute. reflexivity.
  - vm_compute. lia.
  - vm_compute. reflexivity.
Defined.

(** C3 as the specification words it fails.  On a table that already
    defines the connection attribute of the relation with another type,
    the first call throws and adds no index, and so does every later call:
    two calls leave no index of the derived name, and the second fails. *)
Lemma attribute_clash_counterexample :
  js_truthy (hasMany_indexName example_hasMany) = false
  ∧ hasMany_fields example_hasMany = []
  ∧ tables example_context_clash !! object_name (hasMany_relatedType example_hasMany)
    = Some example_clashTable
  ∧ @updateTableForConnection example_collaborators example_hasMany example_context_clash
    = (Throws (Error "Unable to specify Post_comments_id as S because it was already defined as N"),
       example_context_clash)
  ∧ ∀ completion1 ctx1 completion2 ctx2,
      @updateTableForConnection example_collaborators example_hasMany
        example_context_clash = (completion1, ctx1) →
      @updateTableForConnection example_collaborators example_hasMany ctx1
      = (completion2, ctx2) →
      (∃ e, completion2 = Throws e)
      ∧ ∀ table2,
          tables ctx2 !! object_name (hasMany_relatedType example_hasMany) = Some table2 →
          countIndex (derivedIndexName example_context_clash example_hasMany) table2 = 0.
Proof.
  assert (@updateTableForConnection example_collaborators example_hasMany
            example_context_clash
          = (Throws (Error "Unable to specify Post_comments_id as S because it was already defined as N"),
             example_context_clash)) as Hthrows.
  { vm_compute. reflexivity. }
  split_and!; [reflexivity|reflexivity|reflexivity|exact Hthrows|].
  intros completion1 ctx1 completion2 ctx2 Hfirst Hsecond.
  rewrite Hthrows in Hfirst. injection Hfirst as <- <-.
  rewrite Hthrows in Hsecond. injection Hsecond as <- <-.
  split; [by eexists|].
  intros table2 Htable2. by injection Htable2 as <-.
Qed.

Lemma reconciliation_keeps_consistency_witness :
  tables_consistent
    (snd (@updateTableForConnection example_collaborators example_hasMany
            example_context)).
Proof.
  apply (@reconciliation_keeps_consistency example_collaborators example_context).
  - exact example_context_consistent.
  - apply rtc_once. exists example_hasMany, (Returns (withIndexName example_hasMany "gsi-Post.comments")).
    vm_compute. reflexivity.
Defined.

Lemma key_condensation_agreement_witness :
  @getConnectedSortKeyAttributeDefinitionsForImplicitHasManyObject example_collaborators
    example_context example_post (hasMany_field example_hasMany)
  = Returns
      (Some (mkSortKeyAttributeDefinitions
               "Post_comments_title#Post_comments_createdAt" "S"))
  ∧ ∃ resolver request query values text,
      resolvers example_synthesized !! resolverKey example_hasOne = Some resolver
      ∧ rendered (run (example_fullKey [] 0) (requestMappingTemplate resolver))
        = Some [request]
      ∧ entry "query" request = Some query
      ∧ entry "expressionValues" query = Some values
      ∧ entry ":sortKeyName" values
        = Some (VOpaque
                  ("util.parseJson($util.dynamodb.toDynamoDBJson($util.defaultIfNullOrBlank("
                   +:+ dquote +:+ text +:+ dquote
                   +:+ ", " +:+ dquote +:+ "___xamznone____" +:+ dquote +:+ ")))"))
      ∧ text = "${ctx.source.postTitle}#${ctx.source.postCreatedAt}"
      ∧ interpolate (fun name => "<" +:+ name +:+ ">") text
        = "<postTitle>#<postCreatedAt>".
Proof.
  apply (@key_condensation_agreement example_collaborators example_context example_post
           (hasMany_field example_hasMany) example_hasOne example_context
           example_synthesized (example_fullKey [] 0)
           (fun name => "<" +:+ name +:+ ">")).
  - vm_compute. lia.
  - vm_compute. reflexivity.
  - vm_compute. lia.
  - vm_compute. reflexivity.
  - reflexivity.
  - repeat constructor.
Defined.

(** The sort-key value in the request of [Blog.post]: the two range-key
    fields of the [Blog], condensed. *)
Example example_composite_sort_key_value :
  ∃ resolver request query values,
    resolvers example_synthesized !! "Blog.post" = Some resolver
    ∧ rendered (run (example_fullKey [] 0) (requestMappingTemplate resolver))
      = Some [request]
    ∧ entry "query" request = Some query
    ∧ entry "expressionValues" query = Some values
    ∧ entry ":sortKeyName" values
      = Some (VOpaque
                ("util.parseJson($util.dynamodb.toDynamoDBJson($util.defaultIfNullOrBlank("
                 +:+ dquote +:+ "${ctx.source.postTitle}#${ctx.source.postCreatedAt}"
                 +:+ dquote +:+ ", " +:+ dquote +:+ "___xamznone____" +:+ dquote
                 +:+ ")))")).
Proof. do 4 eexists. split_and!; vm_compute; reflexivity. Qed.

(** ** The primary-key transformer *)

(** Two failures whose messages start with different characters differ. *)
Ltac distinct_messages :=
  let Heq := fresh "Heq" in
  intros Heq; first [discriminate Heq | injection Heq; intros; discriminate].

Section PrimaryKeyFacts.
Context `{PrimaryKeyCollaborators}.

(** [validate] once the self-reference check passed and the model
    directive was found. *)
Lemma validate_unfold (ctx : TransformerContextProvider)
    (config : PrimaryKeyDirectiveConfiguration) (modelDirective : DirectiveNode) :
  validateNotSelfReferencing config = Returns tt →
  find (fun directive => String.eqb (directive_name directive) "model")
    (object_directives (pk_object config)) = Some modelDirective →
  validate ctx config =
  let object := pk_object config in
  let field := pk_field config in
  let config' := set_modelDirective modelDirective config in
  match validate_objectFields object field (object_fields object) ∅ with
  | Throws e => (Throws e, config')
  | Returns fieldMap =>
      if negb (isNonNullType (field_type field))
      then (Throws (NullablePrimaryKey (object_name object)), config')
      else if negb (isScalarOrEnum (field_type field) (enumTypeDefinitions ctx))
              || isListType (field_type field)
      then (Throws (InvalidPrimaryKeyType (object_name object) (field_name field)), config')
      else validate_sortKeyFields ctx object fieldMap (enumTypeDefinitions ctx)
             (pk_sortKeyFields config) config'
  end.
Proof.
  intros Hself Hmodel. unfold validate, bind, get, lift, modify, throw.
  rewrite Hself, Hmodel. cbv zeta.
  destruct (validate_objectFields _ _ _ _); [|done].
  by repeat case_match.
Qed.

(** The loop over the fields of the type. *)
Lemma validate_objectFields_duplicate (object : ObjectTypeDefinitionNode)
    (field : FieldDefinitionNode) (fields : list FieldDefinitionNode)
    (fieldMap : gmap string FieldDefinitionNode) :
  (∃ other, other ∈ fields ∧ other ≠ field ∧ hasPrimaryKeyDirective other = true) →
  validate_objectFields object field fields fieldMap
  = Throws (DuplicatePrimaryKey (object_name object)).
Proof.
  revert fieldMap. induction fields as [|objectField rest IH]; intros fieldMap.
  - intros (other & Hin & _). by apply elem_of_nil in Hin.
  - intros (other & Hin & Hne & Hpk). cbn [validate_objectFields].
    apply elem_of_cons in Hin as [->|Hin].
    + rewrite bool_decide_eq_false_2 by done.
      unfold hasPrimaryKeyDirective in Hpk. by rewrite Hpk.
    + case_bool_decide; [by apply IH; exists other|].
      destruct (existsb _ (field_directives objectField)); [done|].
      apply IH. by exists other.
Qed.

Lemma validate_objectFields_single (object : ObjectTypeDefinitionNode)
    (field : FieldDefinitionNode) (fields : list FieldDefinitionNode)
    (fieldMap : gmap string FieldDefinitionNode) :
  (∀ other, other ∈ fields → other ≠ field → hasPrimaryKeyDirective other = false) →
  ∃ fieldMap', validate_objectFields object field fields fieldMap = Returns fieldMap'.
Proof.
  revert fieldMap. induction fields as [|objectField rest IH]; intros fieldMap Hsingle.
  - by eexists.
  - cbn [validate_objectFields].
    assert (∀ other, other ∈ rest → other ≠ field → hasPrimaryKeyDirective other = false)
      as Hrest.
    { intros other Hin. apply Hsingle. by apply elem_of_cons; right. }
    case_bool_decide as Hsame; [by apply IH|].
    assert (hasPrimaryKeyDirective objectField = false) as Hnone.
    { apply Hsingle; [by apply elem_of_cons; left|]. by intros ->. }
    unfold hasPrimaryKeyDirective in Hnone. rewrite Hnone. by apply IH.
Qed.

(** The loop over the sort-key fields never raises the failure of the
    loop over the fields of the type. *)
Lemma validate_sortKeyFields_not_duplicate (ctx : TransformerContextProvider)
    (object : ObjectTypeDefinitionNode) (fieldMap : gmap string FieldDefinitionNode)
    (enums : list EnumTypeDefinitionNode) (sortKeyFields : list string)
    (config : PrimaryKeyDirectiveConfiguration) (typeName : string) :
  fst (validate_sortKeyFields ctx object fieldMap enums sortKeyFields config)
  ≠ Throws (DuplicatePrimaryKey typeName).
Proof.
  revert config. induction sortKeyFields as [|name rest IH]; intros config.
  - done.
  - cbn [validate_sortKeyFields].
    destruct (fieldMap !! name) as [sortField|]; [|distinct_messages].
    destruct (negb _ || _); [distinct_messages|].
    destruct (negb (isNonNullType _)); [distinct_messages|].
    unfold bind at 1, get.
    destruct (negb (validateNotOwnerAuth _ _ _)); [distinct_messages|].
    unfold bind at 1, modify. apply IH.
Qed.

(** The field map of the loop over the fields of the type. *)
Lemma validate_objectFields_lookup (object : ObjectTypeDefinitionNode)
    (field : FieldDefinitionNode) (fields : list FieldDefinitionNode)
    (fieldMap fieldMap' : gmap string FieldDefinitionNode) (name : string) :
  validate_objectFields object field fields fieldMap = Returns fieldMap' →
  fieldMap' !! name
  = match last (filter (fun f => field_name f = name) fields) with
    | Some f => Some f
    | None => fieldMap !! name
    end.
Proof.
  revert fieldMap. induction fields as [|objectField rest IH]; intros fieldMap.
  - by intros [= ->].
  - cbn [validate_objectFields]. intros Hloop.
    assert (validate_objectFields object field rest
              (<[field_name objectField := objectField]> fieldMap) = Returns fieldMap')
      as Hrest.
    { case_bool_decide; [done|].
      by destruct (existsb _ (field_directives objectField)). }
    rewrite (IH _ Hrest). rewrite filter_cons.
    destruct (decide (field_name objectField = name)) as [Hname|Hname].
    + destruct (filter _ rest) as [|g l] eqn:Hfilter; cbn [last].
      * by rewrite <- Hname, lookup_insert_eq.
      * by destruct (last (g :: l)) eqn:Hlast;
          [|apply last_None in Hlast].
    + destruct (last (filter _ rest)); [done|]. by rewrite lookup_insert_ne.
Qed.

Lemma validate_objectFields_declared (object : ObjectTypeDefinitionNode)
    (field : FieldDefinitionNode) (fieldMap : gmap string FieldDefinitionNode) :
  validate_objectFields object field (object_fields object) ∅ = Returns fieldMap →
  ∀ name, fieldMap !! name = declaredField object name.
Proof.
  intros Hloop name. rewrite (validate_objectFields_lookup _ _ _ _ _ name Hloop).
  unfold declaredField. by destruct (last _).
Qed.

(** Sort-key field names that pass are passed over. *)
Lemma validate_sortKeyFields_passes (ctx : TransformerContextProvider)
    (fieldMap : gmap string FieldDefinitionNode) (accepted rest : list string)
    (config : PrimaryKeyDirectiveConfiguration) :
  (∀ name, fieldMap !! name = declaredField (pk_object config) name) →
  Forall (sortKeyPasses ctx (pk_object config)) accepted →
  ∃ config',
    pk_object config' = pk_object config
    ∧ validate_sortKeyFields ctx (pk_object config) fieldMap (enumTypeDefinitions ctx)
        (accepted ++ rest) config
      = validate_sortKeyFields ctx (pk_object config) fieldMap (enumTypeDefinitions ctx)
          rest config'.
Proof.
  intros Hmap Haccepted. remember (pk_object config) as object eqn:Hobject.
  revert config Hobject.
  induction Haccepted as [|name accepted (sortField & Hfield & (Hnonnull & Hscalar & Hlist)
                                          & Howner) _ IH]; intros config Hobject.
  - by exists config.
  - cbn [app validate_sortKeyFields].
    rewrite Hmap, Hfield, Hscalar, Hlist, Hnonnull.
    cbn [negb orb]. unfold bind at 1, get. rewrite Howner by done. cbn [negb].
    unfold bind at 1, modify. by apply IH.
Qed.

(** The first sort-key field that fails its type checks. *)
Lemma validate_sortKeyFields_type (ctx : TransformerContextProvider)
    (object : ObjectTypeDefinitionNode) (fieldMap : gmap string FieldDefinitionNode)
    (name : string) (rest : list string) (sortField : FieldDefinitionNode)
    (config : PrimaryKeyDirectiveConfiguration) :
  fieldMap !! name = Some sortField →
  fst (validate_sortKeyFields ctx object fieldMap (enumTypeDefinitions ctx)
         (name :: rest) config) =
  if negb (isScalarOrEnum (field_type sortField) (enumTypeDefinitions ctx))
     || isListType (field_type sortField)
  then Throws (InvalidSortKeyType (object_name object) (field_name sortField))
  else if negb (isNonNullType (field_type sortField))
  then Throws (NullablePrimaryKey (object_name object))
  else fst (validate_sortKeyFields ctx object fieldMap (enumTypeDefinitions ctx)
              (name :: rest) config).
Proof.
  intros Hfield. cbn [validate_sortKeyFields]. rewrite Hfield.
  by repeat case_match.
Qed.

End PrimaryKeyFacts.

Section PrimaryKeyClaims.
Context `{PrimaryKeyCollaborators}.

(** C5.  When [validate] throws on the configuration of a directive, the
    [field] visitor throws the same failure and leaves the transformer as
    it was: the configuration is not in the directive list, the synthesis
    phase does exactly what it would have done without the directive, and
    from a transformer that recorded nothing it generates nothing. *)
Theorem failed_validation_records_nothing
    (parent : ObjectTypeDefinitionNode) (definition : FieldDefinitionNode)
    (directive : DirectiveNode) (context : TransformerContextProvider)
    (this : PrimaryKeyTransformer) (e : Thrown) :
  fst (validate context (directiveArguments parent definition directive)) = Throws e →
  field parent definition directive context this = (Throws e, this)
  ∧ directiveList (snd (field parent definition directive context this))
    = directiveList this
  ∧ generateResolvers (snd (field parent definition directive context this))
    = generateResolvers this
  ∧ (directiveList this = [] →
     ∀ state,
       generateResolvers (snd (field parent definition directive context this)) state
       = (Returns tt, state)).
Proof.
  intros Hthrows.
  assert (field parent definition directive context this = (Throws e, this)) as Hfield.
  { unfold field, bind.
    destruct (validate context (directiveArguments parent definition directive))
      as [[[]|e'] args'] eqn:Hvalidate; cbn [fst] in Hthrows; [done|].
    by injection Hthrows as ->. }
  rewrite Hfield. cbn [snd]. split_and!; try done.
  intros Hempty state. unfold generateResolvers. by rewrite Hempty.
Qed.

(** C6, as the code has it.  Let the checks before the sort-key loop pass
    and the sort-key fields declared before [name] pass theirs.  If [name]
    resolves to a field that is a list or is not scalar-or-enum, [validate]
    raises the sort-key type failure; if it resolves to a nullable field
    that is scalar-or-enum and no list, [validate] raises the non-null
    failure, the one a nullable primary-key field raises. *)
Theorem sort_key_type_failure
    (ctx : TransformerContextProvider) (config : PrimaryKeyDirectiveConfiguration)
    (modelDirective : DirectiveNode)
    (accepted : list string) (name : string) (rest : list string)
    (sortField : FieldDefinitionNode) :
  validateNotSelfReferencing config = Returns tt →
  find (fun directive => String.eqb (directive_name directive) "model")
    (object_directives (pk_object config)) = Some modelDirective →
  (∀ other, other ∈ object_fields (pk_object config) → other ≠ pk_field config →
            hasPrimaryKeyDirective other = false) →
  keyFieldType ctx (pk_field config) →
  pk_sortKeyFields config = accepted ++ name :: rest →
  Forall (sortKeyPasses ctx (pk_object config)) accepted →
  declaredField (pk_object config) name = Some sortField →
  (isScalarOrEnum (field_type sortField) (enumTypeDefinitions ctx) = false
   ∨ isListType (field_type sortField) = true →
   fst (validate ctx config)
   = Throws (InvalidSortKeyType (object_name (pk_object config)) (field_name sortField)))
  ∧ (isScalarOrEnum (field_type sortField) (enumTypeDefinitions ctx) = true →
     isListType (field_type sortField) = false →
     isNonNullType (field_type sortField) = false →
     fst (validate ctx config)
     = Throws (NullablePrimaryKey (object_name (pk_object config)))).
Proof.
  intros Hself Hmodel Hsingle (Hnonnull & Hscalar & Hlist) Hsort Haccepted Hfield.
  rewrite (validate_unfold _ _ _ Hself Hmodel). cbv zeta.
  destruct (validate_objectFields_single (pk_object config) (pk_field config)
              (object_fields (pk_object config)) ∅ Hsingle) as (fieldMap & Hfields).
  rewrite Hfields, Hnonnull, Hscalar, Hlist, Hsort. cbn [negb orb].
  destruct (validate_sortKeyFields_passes ctx fieldMap accepted (name :: rest)
              (set_modelDirective modelDirective config)
              (validate_objectFields_declared _ _ _ Hfields) Haccepted)
    as (config' & _ & Hloop).
  cbn [set_modelDirective pk_object] in Hloop. rewrite Hloop.
  rewrite <- (validate_objectFields_declared _ _ _ Hfields) in Hfield.
  rewrite (validate_sortKeyFields_type _ _ _ _ _ _ _ Hfield).
  split.
  - intros [Hbad|Hbad]; rewrite Hbad; [done|]. by rewrite orb_true_r.
  - intros -> -> ->. done.
Qed.

(** C7.  Let the self-reference check pass and the type carry [@model].
    If a field other than the annotated one carries a primary-key
    directive, [validate] raises the duplicate-key failure.  If no other
    field does, the loop over the fields returns the field map, and
    whatever [validate] does next, it does not raise that failure. *)
Theorem duplicate_primary_key
    (ctx : TransformerContextProvider) (config : PrimaryKeyDirectiveConfiguration)
    (modelDirective : DirectiveNode) :
  validateNotSelfReferencing config = Returns tt →
  find (fun directive => String.eqb (directive_name directive) "model")
    (object_directives (pk_object config)) = Some modelDirective →
  ((∃ other, other ∈ object_fields (pk_object config)
             ∧ other ≠ pk_field config
             ∧ hasPrimaryKeyDirective other = true) →
   fst (validate ctx config) = Throws (DuplicatePrimaryKey (object_name (pk_object config))))
  ∧ ((∀ other, other ∈ object_fields (pk_object config) →
               other ≠ pk_field config → hasPrimaryKeyDirective other = false) →
     (∃ fieldMap,
        validate_objectFields (pk_object config) (pk_field config)
          (object_fields (pk_object config)) ∅ = Returns fieldMap)
     ∧ fst (validate ctx config)
       ≠ Throws (DuplicatePrimaryKey (object_name (pk_object config)))).
Proof.
  intros Hself Hmodel.
  rewrite (validate_unfold _ _ _ Hself Hmodel). cbv zeta.
  split.
  - intros Hother. by rewrite validate_objectFields_duplicate.
  - intros Hsingle.
    destruct (validate_objectFields_single (pk_object config) (pk_field config)
                (object_fields (pk_object config)) ∅ Hsingle) as (fieldMap & Hfields).
    split; [by exists fieldMap|]. rewrite Hfields.
    destruct (negb (isNonNullType _)); [cbn [fst]; distinct_messages|].
    destruct (negb _ || _); [cbn [fst]; distinct_messages|].
    apply validate_sortKeyFields_not_duplicate.
Qed.

End PrimaryKeyClaims.

(** *** The failures on the example types *)

(** A sort-key field that is the owner field of the type's [@auth] rule:
    [validate] raises [SortKeyOwnerConflict]. *)
Lemma example_note_conflict :
  fst (@validate example_primaryKeyCollaborators example_context
         (@directiveArguments example_primaryKeyCollaborators example_note example_note_id (example_directive example_note_id)))
  = Throws (SortKeyOwnerConflict "owner").
Proof. vm_compute. reflexivity. Qed.

Lemma failed_validation_records_nothing_witness :
  @field example_primaryKeyCollaborators example_note example_note_id
    (example_directive example_note_id) example_context example_transformer
  = (Throws (SortKeyOwnerConflict "owner"), example_transformer)
  ∧ directiveList
      (snd (@field example_primaryKeyCollaborators example_note example_note_id
              (example_directive example_note_id) example_context example_transformer))
    = directiveList example_transformer
  ∧ @generateResolvers example_primaryKeyCollaborators
      (snd (@field example_primaryKeyCollaborators example_note example_note_id
              (example_directive example_note_id) example_context example_transformer))
    = @generateResolvers example_primaryKeyCollaborators example_transformer
  ∧ (directiveList example_transformer = [] →
     ∀ state,
       @generateResolvers example_primaryKeyCollaborators
         (snd (@field example_primaryKeyCollaborators example_note example_note_id
                 (example_directive example_note_id) example_context example_transformer))
         state
       = (Returns tt, state)).
Proof.
  apply (@failed_validation_records_nothing example_primaryKeyCollaborators).
  vm_compute. reflexivity.
Defined.

(** A configuration that passes validation is recorded, and the synthesis
    phase generates for it. *)
Example valid_directive_recorded :
  let visited :=
    snd (@field example_primaryKeyCollaborators example_post example_post_id
           (example_directive example_post_id) example_context example_transformer) in
  length (directiveList visited) = 1
  ∧ snd (snd (@generateResolvers example_primaryKeyCollaborators visited
                (example_context, ∅))) !! "Post.id" = Some "sync".
Proof. split; vm_compute; reflexivity. Qed.

Lemma sort_key_type_failure_witness :
  fst (@validate example_primaryKeyCollaborators example_context
         (@directiveArguments example_primaryKeyCollaborators example_ledger
            example_ledger_id (example_directive example_ledger_id)))
  = Throws (InvalidSortKeyType "Ledger" "tags")
  ∧ fst (@validate example_primaryKeyCollaborators example_context
           (@directiveArguments example_primaryKeyCollaborators example_order
              example_order_id (example_directive example_order_id)))
    = Throws (NullablePrimaryKey "Order").
Proof.
  split.
  - destruct (@sort_key_type_failure example_primaryKeyCollaborators example_context
                (@directiveArguments example_primaryKeyCollaborators example_ledger
                   example_ledger_id (example_directive example_ledger_id))
                (mkDirective "model" []) ["title"] "tags" []
                (mkField "tags"
                   (NonNullType (ListType (NonNullType (NamedType "String")))) [] 39))
      as [Hinvalid _].
    + reflexivity.
    + reflexivity.
    + intros other Hin Hne.
      apply elem_of_cons in Hin as [->|Hin]; [by destruct Hne|].
      apply elem_of_cons in Hin as [->|Hin]; [reflexivity|].
      apply elem_of_cons in Hin as [->|Hin]; [reflexivity|].
      by apply elem_of_nil in Hin.
    + split_and!; reflexivity.
    + reflexivity.
    + repeat constructor.
      exists (mkField "title" (NonNullType (NamedType "String")) [] 38).
      split; [vm_compute; reflexivity|]. split; [split_and!; reflexivity|].
      intros config Hobject.
      change (example_validateNotOwnerAuth "title" config example_context = true).
      unfold example_validateNotOwnerAuth. rewrite Hobject. reflexivity.
    + vm_compute. reflexivity.
    + apply Hinvalid. right. reflexivity.
  - destruct (@sort_key_type_failure example_primaryKeyCollaborators example_context
                (@directiveArguments example_primaryKeyCollaborators example_order
                   example_order_id (example_directive example_order_id))
                (mkDirective "model" []) [] "createdAt" []
                (mkField "createdAt" (NamedType "String") [] 21))
      as [_ Hnullable].
    + reflexivity.
    + reflexivity.
    + intros other Hin Hne.
      apply elem_of_cons in Hin as [->|Hin]; [by destruct Hne|].
      apply elem_of_cons in Hin as [->|Hin]; [reflexivity|].
      by apply elem_of_nil in Hin.
    + split_and!; reflexivity.
    + reflexivity.
    + constructor.
    + vm_compute. reflexivity.
    + apply Hnullable; reflexivity.
Defined.

(** C6 as the specification words it fails: the sort-key field [createdAt]
    of [Order] is nullable, and [validate] raises the failure it raises for
    the nullable primary-key field of [Ticket], not the sort-key type
    failure. *)
Lemma nullable_sort_key_counterexample :
  example_isNonNullType (NamedType "String") = false
  ∧ fst (@validate example_primaryKeyCollaborators example_context
           (@directiveArguments example_primaryKeyCollaborators example_order example_order_id (example_directive example_order_id)))
    = Throws (NullablePrimaryKey "Order")
  ∧ fst (@validate example_primaryKeyCollaborators example_context
           (@directiveArguments example_primaryKeyCollaborators example_order example_order_id (example_directive example_order_id)))
    ≠ Throws (InvalidSortKeyType "Order" "createdAt")
  ∧ fst (@validate example_primaryKeyCollaborators example_context
           (@directiveArguments example_primaryKeyCollaborators example_ticket example_ticket_id
              (example_directive example_ticket_id)))
    = Throws (NullablePrimaryKey "Ticket").
Proof.
  split_and!; [reflexivity|vm_compute; reflexivity| |vm_compute; reflexivity].
  vm_compute. discriminate.
Qed.

Lemma duplicate_primary_key_witness :
  ((∃ other, other ∈ object_fields example_pair
             ∧ other ≠ example_pair_left
             ∧ hasPrimaryKeyDirective other = true) →
   fst (@validate example_primaryKeyCollaborators example_context
          (@directiveArguments example_primaryKeyCollaborators example_pair example_pair_left (example_directive example_pair_left)))
   = Throws (DuplicatePrimaryKey "Pair"))
  ∧ ((∀ other, other ∈ object_fields example_pair →
               other ≠ example_pair_left → hasPrimaryKeyDirective other = false) →
     (∃ fieldMap,
        @validate_objectFields example_pair example_pair_left
          (object_fields example_pair) ∅ = Returns fieldMap)
     ∧ fst (@validate example_primaryKeyCollaborators example_context
              (@directiveArguments example_primaryKeyCollaborators example_pair example_pair_left
                 (example_directive example_pair_left)))
       ≠ Throws (DuplicatePrimaryKey "Pair")).
Proof.
  apply (@duplicate_primary_key example_primaryKeyCollaborators example_context
           (@directiveArguments example_primaryKeyCollaborators example_pair example_pair_left (example_directive example_pair_left))
           (mkDirective "model" [])); reflexivity.
Defined.

(** The two primary keys of [Pair] are rejected; the single one of [Post]
    is not. *)
Example duplicate_primary_key_examples :
  fst (@validate example_primaryKeyCollaborators example_context
         (@directiveArguments example_primaryKeyCollaborators example_pair example_pair_left (example_directive example_pair_left)))
  = Throws (DuplicatePrimaryKey "Pair")
  ∧ fst (@validate example_primaryKeyCollaborators example_context
           (@directiveArguments example_primaryKeyCollaborators example_post example_post_id (example_directive example_post_id)))
    = Returns tt.
Proof. split; vm_compute; reflexivity. Qed.

(** * Further properties of resolvers.ts *)

Section HasOneMore.
Context `{Collaborators}.

(** The key condition of a synthesized request program: one clause on the
    partition key of the related table when the related index has one
    field, a second clause on its sort key otherwise. *)
Lemma makeGetItemConnectionWithKeyResolver_keyCondition
    (config : HasOneDirectiveConfiguration) (ctx ctx' : TransformerContextProvider) :
  makeGetItemConnectionWithKeyResolver config ctx = (Returns tt, ctx') →
  ∃ resolver table k0 partitionValue,
    resolvers ctx' !! resolverKey config = Some resolver
    ∧ tables ctx !! object_name (hasOne_relatedType config) = Some table
    ∧ keySchema table !! 0 = Some k0
    ∧ if bool_decide (length (hasOne_relatedTypeIndex config) = 1) then
        templateProgram (requestMappingTemplate resolver)
        = requestProgram (localFieldsOf config)
            ["#partitionKey = :partitionValue"]
            [("#partitionKey", str (attributeName k0))]
            [(":partitionValue", partitionValue)]
      else
        ∃ k1 sortValue,
          keySchema table !! 1 = Some k1
          ∧ templateProgram (requestMappingTemplate resolver)
            = requestProgram (localFieldsOf config)
                ["#partitionKey = :partitionValue"; "#sortKeyName = :sortKeyName"]
                [("#partitionKey", str (attributeName k0));
                 ("#sortKeyName", str (attributeName k1))]
                [(":partitionValue", partitionValue); (":sortKeyName", sortValue)].
Proof.
  unfold makeGetItemConnectionWithKeyResolver, localFieldsOf, resolverKey.
  destruct (Nat.eqb_spec (length (hasOne_relatedTypeIndex config)) 0) as [|Hne]; [done|].
  unfold bind, getTable, get, lift, ret, addResolver, modify, throw, attributeNameAt.
  intros Hrun.
  destruct (tables ctx !! object_name (hasOne_relatedType config)) as [table|]; [|done].
  destruct (keySchema table !! 0) as [k0|] eqn:Hk0; [|done].
  destruct (buildKeyValueExpression _ _ true) as [partitionValue|]; [|done].
  destruct (Nat.ltb_spec 2 (length (hasOne_relatedTypeIndex config))) as [Hmany|Hfew].
  - destruct (keySchema table !! 1) as [k1|] eqn:Hk1; [|done].
    injection Hrun as <-. eexists _, table, k0, partitionValue.
    split_and!; [apply lookup_insert_eq|done|done|].
    rewrite bool_decide_eq_false_2 by lia. by eexists k1, _.
  - destruct (Nat.eqb_spec (length (hasOne_relatedTypeIndex config)) 2) as [Htwo|Hone].
    + destruct (keySchema table !! 1) as [k1|] eqn:Hk1; [|done].
      destruct (buildKeyValueExpression _ _ false) as [sortValue|]; [|done].
      injection Hrun as <-. eexists _, table, k0, partitionValue.
      split_and!; [apply lookup_insert_eq|done|done|].
      rewrite bool_decide_eq_false_2 by lia. by eexists k1, _.
    + injection Hrun as <-. eexists _, table, k0, partitionValue.
      split_and!; [apply lookup_insert_eq|done|done|].
      by rewrite bool_decide_eq_true_2 by lia.
Qed.

(** The Query a synthesized request issues names the keys of the related
    table: its key condition is on the partition key when the related
    index has one field, and on the partition key and the sort key when it
    has more, however many fields the index has. *)
Theorem query_names_table_keys
    (config : HasOneDirectiveConfiguration) (ctx ctx' : TransformerContextProvider)
    (c : Context) :
  makeGetItemConnectionWithKeyResolver config ctx = (Returns tt, ctx') →
  shortCircuits c (localFieldsOf config) = false →
  ∃ resolver table k0 request query,
    resolvers ctx' !! resolverKey config = Some resolver
    ∧ tables ctx !! object_name (hasOne_relatedType config) = Some table
    ∧ keySchema table !! 0 = Some k0
    ∧ rendered (run c (requestMappingTemplate resolver)) = Some [request]
    ∧ entry "query" request = Some query
    ∧ if bool_decide (length (hasOne_relatedTypeIndex config) = 1) then
        entry "expression" query = Some (VString "#partitionKey = :partitionValue")
        ∧ entry "expressionNames" query
          = Some (VMap [("#partitionKey", VString (attributeName k0))])
      else
        ∃ k1,
          keySchema table !! 1 = Some k1
          ∧ entry "expression" query
            = Some (VString
                      "#partitionKey = :partitionValue AND #sortKeyName = :sortKeyName")
          ∧ entry "expressionNames" query
            = Some (VMap [("#partitionKey", VString (attributeName k0));
                          ("#sortKeyName", VString (attributeName k1))]).
Proof.
  intros Hrun Hguard.
  destruct (makeGetItemConnectionWithKeyResolver_keyCondition _ _ _ Hrun)
    as (resolver & table & k0 & partitionValue & Hres & Htable & Hk0 & Hprogram).
  destruct (bool_decide (length (hasOne_relatedTypeIndex config) = 1)).
  - destruct (requestProgram_rendered c (localFieldsOf config)
                ["#partitionKey = :partitionValue"]
                [("#partitionKey", str (attributeName k0))]
                [(":partitionValue", partitionValue)] Hguard)
      as (st1 & filterValue & Hrendered).
    eexists resolver, table, k0, _, _.
    do 3 (split; [done|]).
    split; [unfold run; rewrite Hprogram; exact Hrendered|].
    by split_and!.
  - destruct Hprogram as (k1 & sortValue & Hk1 & Hprogram).
    destruct (requestProgram_rendered c (localFieldsOf config)
                ["#partitionKey = :partitionValue"; "#sortKeyName = :sortKeyName"]
                [("#partitionKey", str (attributeName k0));
                 ("#sortKeyName", str (attributeName k1))]
                [(":partitionValue", partitionValue); (":sortKeyName", sortValue)] Hguard)
      as (st1 & filterValue & Hrendered).
    eexists resolver, table, k0, _, _.
    do 3 (split; [done|]).
    split; [unfold run; rewrite Hprogram; exact Hrendered|].
    split; [done|]. exists k1. by split_and!.
Qed.

(** The authorization filter is spliced into the request exactly when the
    stash holds one that is neither null nor empty. *)
Theorem filter_iff_authFilter
    (config : HasOneDirectiveConfiguration) (ctx ctx' : TransformerContextProvider)
    (c : Context) :
  makeGetItemConnectionWithKeyResolver config ctx = (Returns tt, ctx') →
  shortCircuits c (localFieldsOf config) = false →
  ∃ resolver request,
    resolvers ctx' !! resolverKey config = Some resolver
    ∧ rendered (run c (requestMappingTemplate resolver)) = Some [request]
    ∧ (is_Some (entry "filter" request)
       ↔ isNullOrEmptyValue (ctx_stash_authFilter c) = false).
Proof.
  intros Hrun Hguard.
  destruct (makeGetItemConnectionWithKeyResolver_registers _ _ _ Hrun)
    as (_ & _ & resolver & te & ten & tev & Hres & Hrequest & _).
  destruct (requestProgram_rendered c (localFieldsOf config) te ten tev Hguard)
    as (st1 & filterValue & Hrendered).
  eexists resolver, _. split; [by rewrite Hres, lookup_insert_eq|].
  split; [unfold run; rewrite Hrequest; exact Hrendered|].
  destruct (isNullOrEmptyValue (ctx_stash_authFilter c)); cbn.
  - split; [by intros [? [=]]|done].
  - split; [done|]. by eexists.
Qed.

(** When the synthesis of a singular connection throws, whatever the
    reason, the context is the one it started from. *)
Theorem synthesis_failure_leaves_context
    (config : HasOneDirectiveConfiguration) (ctx ctx' : TransformerContextProvider)
    (e : Thrown) :
  makeGetItemConnectionWithKeyResolver config ctx = (Throws e, ctx') →
  ctx' = ctx.
Proof.
  unfold makeGetItemConnectionWithKeyResolver.
  unfold bind, getTable, get, lift, ret, addResolver, modify, throw.
  repeat case_match; intros; by simplify_eq.
Qed.

(** A key schema with fewer elements than the request names (one for a
    related index of one field, two otherwise) makes the synthesis throw,
    with the context unchanged.  An empty key schema gives the [TypeError]
    of reading [keySchema[0].attributeName].  With one element, the value
    expression of the partition key is built first (line 86): if that
    throws, its failure is the result; otherwise the result is the
    [TypeError] of reading [keySchema[1].attributeName]. *)
Theorem short_key_schema_throws
    (config : HasOneDirectiveConfiguration) (ctx : TransformerContextProvider)
    (table : Table) :
  tables ctx !! object_name (hasOne_relatedType config) = Some table →
  is_Some (dataSources ctx !! (object_name (hasOne_relatedType config) +:+ "Table")) →
  length (keySchema table) < Nat.min 2 (length (hasOne_relatedTypeIndex config)) →
  ∃ e,
    makeGetItemConnectionWithKeyResolver config ctx = (Throws e, ctx)
    ∧ match keySchema table,
            buildKeyValueExpression (localFieldsOf config !! 0)
              (output ctx !! object_name (hasOne_object config)) true with
      | _ :: _, Throws e' => e = e'
      | _, _ => ∃ message, e = TypeError message
      end.
Proof.
  intros Htable _ Hshort.
  unfold makeGetItemConnectionWithKeyResolver, localFieldsOf.
  destruct (Nat.eqb_spec (length (hasOne_relatedTypeIndex config)) 0) as [Hzero|Hne];
    [rewrite Hzero in Hshort; cbn [length] in Hshort; lia|].
  unfold bind, getTable, get, lift. rewrite Htable.
  destruct (keySchema table) as [|k0 [|k1 ks]] eqn:Hkeys; cbn [attributeNameAt lookup
    list_lookup].
  - eexists. split; [reflexivity|]. by eexists.
  - assert (2 ≤ length (hasOne_relatedTypeIndex config)) as Htwo.
    { cbn [length] in Hshort. lia. }
    destruct (buildKeyValueExpression _ _ true) as [partitionValue|e'].
    + destruct (Nat.ltb_spec 2 (length (hasOne_relatedTypeIndex config))).
      * eexists. split; [reflexivity|]. by eexists.
      * replace (length (hasOne_relatedTypeIndex config)) with 2 by lia.
        cbn [Nat.eqb]. eexists. split; [reflexivity|]. by eexists.
    + by exists e'.
  - cbn [length] in Hshort. lia.
Qed.

(** A successful synthesis changes the context in one place: the resolver
    of [Type.field] is set.  The resolver carries the names of the type and
    the field, the logical id, the data source of the related type's table,
    templates stored as [resolvers/Type.field.req.vtl] and
    [resolvers/Type.field.res.vtl], and the stack the stack manager maps the
    resolver to. *)
Theorem synthesis_registers_one_resolver
    (config : HasOneDirectiveConfiguration) (ctx ctx' : TransformerContextProvider) :
  makeGetItemConnectionWithKeyResolver config ctx = (Returns tt, ctx') →
  ∃ resolver,
    ctx' = with_resolvers (<[resolverKey config := resolver]> (resolvers ctx)) ctx
    ∧ resolver_typeName resolver = object_name (hasOne_object config)
    ∧ resolver_fieldName resolver = field_name (hasOne_field config)
    ∧ resolver_logicalId resolver
      = ResolverResourceID (object_name (hasOne_object config))
          (field_name (hasOne_field config))
    ∧ resolver_dataSource resolver
      = dataSources ctx !! (object_name (hasOne_relatedType config) +:+ "Table")
    ∧ templateName (requestMappingTemplate resolver)
      = "resolvers/" +:+ resolverKey config +:+ ".req.vtl"
    ∧ templateName (responseMappingTemplate resolver)
      = "resolvers/" +:+ resolverKey config +:+ ".res.vtl"
    ∧ resolver_stack resolver
      = Some (getStackFor
                (ResolverResourceID (object_name (hasOne_object config))
                   (field_name (hasOne_field config)))
                CONNECTION_STACK).
Proof.
  unfold makeGetItemConnectionWithKeyResolver, resolverKey.
  unfold bind, getTable, get, lift, ret, addResolver, modify, throw.
  repeat case_match; intros; simplify_eq; cbn;
    (eexists; split_and!; [reflexivity|try reflexivity..]);
    by rewrite <- !string_app_assoc.
Qed.

(** What a returning synthesis needed: the related index is not empty,
    the related type has a table whose key schema has an element for each
    key the request names (one for an index of one field, two otherwise),
    the type of the relation is in the output schema, and the value
    expression of the partition key could be built. *)
Theorem synthesis_returns_only_if
    (config : HasOneDirectiveConfiguration) (ctx ctx' : TransformerContextProvider) :
  makeGetItemConnectionWithKeyResolver config ctx = (Returns tt, ctx') →
  hasOne_relatedTypeIndex config ≠ []
  ∧ (∃ table,
       tables ctx !! object_name (hasOne_relatedType config) = Some table
       ∧ Nat.min 2 (length (hasOne_relatedTypeIndex config)) ≤ length (keySchema table))
  ∧ ∃ object partitionValue,
      output ctx !! object_name (hasOne_object config) = Some object
      ∧ buildKeyValueExpression (localFieldsOf config !! 0) (Some object) true
        = Returns partitionValue.
Proof.
  unfold makeGetItemConnectionWithKeyResolver, localFieldsOf.
  destruct (hasOne_relatedTypeIndex config) as [|i0 index]; cbn [length Nat.eqb];
    [done|].
  unfold bind, getTable, get, lift, ret, addResolver, modify, throw.
  destruct (tables ctx !! object_name (hasOne_relatedType config)) as [table|];
    [|done].
  destruct (keySchema table) as [|k0 keys] eqn:Hkeys;
    cbn [attributeNameAt lookup list_lookup length]; [done|].
  destruct (output ctx !! object_name (hasOne_object config)) as [object|];
    [|done].
  destruct (buildKeyValueExpression _ (Some object) true) as [partitionValue|] eqn:Hvalue;
    [|done].
  assert (Some table = Some table → 1 ≤ length (keySchema table)) as Hone.
  { intros _. rewrite Hkeys. cbn [length]. lia. }
  destruct index as [|i1 index].
  - intros _. split_and!; [done|by exists table; split; [|apply Hone]|].
    by exists object, partitionValue.
  - destruct keys as [|k1 keys].
    + by destruct index; cbn [length Nat.ltb Nat.leb Nat.eqb list_lookup lookup].
    + intros _. split_and!; [done| |by exists object, partitionValue].
      exists table. split; [done|]. rewrite Hkeys. cbn [length]. lia.
Qed.

End HasOneMore.

Lemma find_append {A : Type} (f : A → bool) (l1 l2 : list A) :
  find f (l1 ++ l2) = match find f l1 with Some x => Some x | None => find f l2 end.
Proof.
  induction l1 as [|x l1 IH]; [done|]. cbn [app find]. by destruct (f x).
Qed.

(** [registerAttribute] returns for an attribute that goes with the
    definitions of the table. *)
Lemma registerAttribute_returns (attribute : Attribute) (table : Table) :
  attributeCompatible (attributeDefinitions table) attribute →
  ∃ table',
    registerAttribute attribute table = (Returns tt, table')
    ∧ billingMode table' = billingMode table
    ∧ globalSecondaryIndexes table' = globalSecondaryIndexes table
    ∧ ∀ other,
        attributeCompatible (attributeDefinitions table ++ [attribute]) other →
        attributeCompatible (attributeDefinitions table') other.
Proof.
  unfold attributeCompatible, registerAttribute, bind, get, throw, ret, modify.
  destruct (find _ (attributeDefinitions table)) as [existingDef|] eqn:Hfind.
  - intros ->. rewrite String.eqb_refl. cbn [negb].
    exists table. split_and!; try done.
    intros other. rewrite find_append.
    destruct (find (fun def => String.eqb (attribute_name def) (attribute_name other))
                (attributeDefinitions table)) as [def|] eqn:Hother; [done|].
    cbn [find]. destruct (String.eqb_spec (attribute_name attribute)
                            (attribute_name other)) as [Hsame|Hdiff]; [|done].
    rewrite <- Hsame, Hfind in Hother. done.
  - intros _. eexists. split; [reflexivity|]. by split_and!.
Qed.

Lemma addGlobalSecondaryIndex_returns (props : GlobalSecondaryIndexProps) (table : Table) :
  billingMode table = PROVISIONED →
  existsb (fun gsi => String.eqb (gsi_indexName gsi) (props_indexName props))
    (globalSecondaryIndexes table) = false →
  attributeCompatible (attributeDefinitions table) (props_partitionKey props) →
  (∀ sortKey,
     props_sortKey props = Some sortKey →
     attributeCompatible (attributeDefinitions table ++ [props_partitionKey props])
       sortKey) →
  ∃ table', addGlobalSecondaryIndex props table = (Returns tt, table').
Proof.
  intros Hbilling Hname Hpartition Hsort.
  unfold addGlobalSecondaryIndex, validateProvisioning, validateIndexName,
    buildIndexKeySchema, bind, get, throw, ret, modify.
  rewrite Hbilling. cbv beta iota. rewrite Hname. cbv beta iota.
  destruct (registerAttribute_returns _ _ Hpartition)
    as (table1 & -> & _ & _ & Hcompatible).
  destruct (props_sortKey props) as [sortKey|]; [|by eexists].
  destruct (registerAttribute_returns sortKey table1 (Hcompatible _ (Hsort _ eq_refl)))
    as (table2 & -> & _).
  by eexists.
Qed.

Section ReconcilerMore.
Context `{Collaborators}.

(** A reconciliation that throws was one of a relation that leaves the
    index to the compiler, on a table that does not hold the derived name.
    It has added no index: no table has come or gone, and every table has
    its key schema and both of its index lists as before; the only thing
    that may have grown is the list of attribute definitions of a table.
    Resolvers are untouched. *)
Theorem failed_reconciliation_adds_no_index (config : HasManyDirectiveConfiguration)
    (ctx ctx' : TransformerContextProvider) (e : Thrown) :
  updateTableForConnection config ctx = (Throws e, ctx') →
  js_truthy (hasMany_indexName config) = false
  ∧ hasMany_fields config = []
  ∧ (∀ table,
       tables ctx !! object_name (hasMany_relatedType config) = Some table →
       countIndex (derivedIndexName ctx config) table = 0)
  ∧ resolvers ctx' = resolvers ctx
  ∧ (∀ name, tables ctx !! name = None → tables ctx' !! name = None)
  ∧ ∀ name table,
      tables ctx !! name = Some table →
      ∃ table',
        tables ctx' !! name = Some table'
        ∧ keySchema table' = keySchema table
        ∧ globalSecondaryIndexes table' = globalSecondaryIndexes table
        ∧ cfnTable_globalSecondaryIndexes table' = cfnTable_globalSecondaryIndexes table
        ∧ attributeDefinitions table `prefix_of` attributeDefinitions table'.
Proof.
  intros Hthrows.
  destruct (js_truthy (hasMany_indexName config)
            || Nat.ltb 0 (length (hasMany_fields config))) eqn:Hguard.
  { by rewrite updateTableForConnection_explicit in Hthrows. }
  assert (js_truthy (hasMany_indexName config) = false ∧ hasMany_fields config = [])
    as [Hname Hfields].
  { apply orb_false_iff in Hguard as [Hname Hfields].
    split; [done|]. by destruct (hasMany_fields config). }
  do 2 (split; [done|]).
  destruct (tables ctx !! object_name (hasMany_relatedType config))
    as [table|] eqn:Htable; cycle 1.
  { destruct (updateTableForConnection_no_table _ _ Hguard Htable) as [e' Hrun].
    rewrite Hrun in Hthrows. injection Hthrows as _ <-.
    split_and!; try done. intros name table Hlookup. by exists table. }
  destruct (existsb (fun gsi => String.eqb (gsi_indexName gsi)
                                  (derivedIndexName ctx config))
              (globalSecondaryIndexes table)) eqn:Hpresent.
  { by erewrite updateTableForConnection_present in Hthrows. }
  destruct (updateTableForConnection_new _ _ _ Hguard Htable Hpresent)
    as (completion & tables' & table' & Hrun & Hothers & Htable' & Hkeys & _ & Hattributes
        & Hadded).
  rewrite Hrun in Hthrows. injection Hthrows as -> <-.
  destruct Hadded as [Hgsis Hraw]. cbn [with_tables tables resolvers].
  split_and!; [|done| |].
  - intros table0 [= <-]. by apply existsb_false_countIndex.
  - intros name Hnone. rewrite Hothers; [done|]. intros ->. by rewrite Htable in Hnone.
  - intros name table0 Hlookup.
    destruct (decide (name = object_name (hasMany_relatedType config))) as [->|Hne].
    + rewrite Htable in Hlookup. injection Hlookup as <-. by exists table'.
    + exists table0. by rewrite Hothers.
Qed.

(** A reconciliation only appends.  Whatever the relation, resolvers and the
    tables of other types are untouched, and on the related table the key
    schema is kept, the declarative index list is extended at its end by at
    most one index, and the raw index list is extended at its end. *)
Theorem reconciliation_only_appends (config : HasManyDirectiveConfiguration)
    (ctx : TransformerContextProvider) (table : Table) :
  tables ctx !! object_name (hasMany_relatedType config) = Some table →
  let ctx' := snd (updateTableForConnection config ctx) in
  resolvers ctx' = resolvers ctx
  ∧ (∀ name, name ≠ object_name (hasMany_relatedType config) →
             tables ctx' !! name = tables ctx !! name)
  ∧ ∃ table',
      tables ctx' !! object_name (hasMany_relatedType config) = Some table'
      ∧ keySchema table' = keySchema table
      ∧ globalSecondaryIndexes table `prefix_of` globalSecondaryIndexes table'
      ∧ length (globalSecondaryIndexes table') ≤ S (length (globalSecondaryIndexes table))
      ∧ rawIndexes table `prefix_of` rawIndexes table'.
Proof.
  intros Htable ctx'. subst ctx'.
  destruct (js_truthy (hasMany_indexName config)
            || Nat.ltb 0 (length (hasMany_fields config))) eqn:Hguard.
  { rewrite updateTableForConnection_explicit by done. cbn [snd].
    split_and!; [done|done|]. exists table. split_and!; try done. lia. }
  destruct (existsb (fun gsi => String.eqb (gsi_indexName gsi)
                                  (derivedIndexName ctx config))
              (globalSecondaryIndexes table)) eqn:Hpresent.
  { erewrite updateTableForConnection_present by done. cbn [snd].
    split_and!; [done|done|]. exists table. split_and!; try done. lia. }
  destruct (updateTableForConnection_new _ _ _ Hguard Htable Hpresent)
    as (completion & tables' & table' & -> & Hothers & Htable' & Hkeys & _ & _ & Hadded).
  cbn [snd with_tables tables resolvers].
  split_and!; [done|done|].
  exists table'. split; [done|]. split; [done|].
  unfold rawIndexes.
  destruct completion as [config'|e].
  - destruct Hadded as (_ & -> & ->). split_and!.
    + by apply prefix_app_r.
    + rewrite length_app. simpl. lia.
    + cbn [default]. destruct (cfnTable_globalSecondaryIndexes table) as [raws|]; cbn.
      * by apply prefix_app_r.
      * apply prefix_nil.
  - destruct Hadded as (-> & ->). split_and!; [done|lia|done].
Qed.

(** The sort-key attribute of a derived index: none when the type has no
    sort-key field; for one sort-key field its connected name, with the
    attribute type of the field, and when that type cannot be determined,
    the failure of determining it. *)
Theorem connected_sort_key_definitions (ctx : TransformerContextProvider)
    (object : ObjectTypeDefinitionNode) (hasManyField : FieldDefinitionNode) :
  (getConnectedSortKeyAttributeDefinitionsForImplicitHasManyObject ctx object hasManyField
   = Returns None ↔ getSortKeyFields ctx object = [])
  ∧ (∀ sortKeyField,
       getSortKeyFields ctx object = [sortKeyField] →
       getConnectedSortKeyAttributeDefinitionsForImplicitHasManyObject ctx object
         hasManyField
       = match attributeTypeFromType (field_type sortKeyField) ctx with
         | Returns sortKeyType =>
             Returns
               (Some (mkSortKeyAttributeDefinitions
                        (getConnectionAttributeName (transformParameters ctx)
                           (getModelNameMapping ctx (object_name object))
                           (field_name hasManyField) (field_name sortKeyField))
                        sortKeyType))
         | Throws e => Throws e
         end).
Proof.
  unfold getConnectedSortKeyAttributeDefinitionsForImplicitHasManyObject.
  rewrite length_map.
  destruct (getSortKeyFields ctx object) as [|f1 [|f2 fs]]; cbn; split; try done.
  - by destruct (attributeTypeFromType (field_type f1) ctx).
  - by intros sortKeyField [= <-].
Qed.

(** The key schema of an index the reconciler has added.  When a call for
    a relation that leaves the index to the compiler returns, on a table
    that did not hold the derived name, the index is the last entry of both
    lists, under the derived name and with the same key schema in both.
    Its partition key is the connection attribute for the primary key of
    the type; it has a sort key exactly when connection fields follow the
    primary key of the type
    ([respectPrimaryKeyAttributesOnConnectionField]) and the type declares
    sort-key fields. *)
Theorem added_index_key_schema (config config' : HasManyDirectiveConfiguration)
    (ctx ctx' : TransformerContextProvider) (table : Table) :
  js_truthy (hasMany_indexName config) = false →
  hasMany_fields config = [] →
  tables ctx !! object_name (hasMany_relatedType config) = Some table →
  countIndex (derivedIndexName ctx config) table = 0 →
  updateTableForConnection config ctx = (Returns config', ctx') →
  let partitionKey :=
    mkKeySchemaElement
      (getConnectionAttributeName (transformParameters ctx)
         (getModelNameMapping ctx (object_name (hasMany_object config)))
         (field_name (hasMany_field config))
         (field_name (getObjectPrimaryKey (hasMany_object config)))) "HASH" in
  ∃ table' declarative raw_gsi,
    tables ctx' !! object_name (hasMany_relatedType config) = Some table'
    ∧ last (globalSecondaryIndexes table') = Some declarative
    ∧ last (rawIndexes table') = Some raw_gsi
    ∧ gsi_indexName declarative = derivedIndexName ctx config
    ∧ gsi_indexName raw_gsi = derivedIndexName ctx config
    ∧ gsi_keySchema raw_gsi = gsi_keySchema declarative
    ∧ (if respectPrimaryKeyAttributesOnConnectionField (transformParameters ctx)
          && negb (bool_decide (getSortKeyFields ctx (hasMany_object config) = []))
       then ∃ sortKeyName,
              gsi_keySchema declarative
              = [partitionKey; mkKeySchemaElement sortKeyName "RANGE"]
       else gsi_keySchema declarative = [partitionKey]).
Proof.
  intros Hname Hfields Htable Hcount Hreturns partitionKey.
  assert (js_truthy (hasMany_indexName config)
          || Nat.ltb 0 (length (hasMany_fields config)) = false) as Himplicit.
  { by rewrite Hname, Hfields. }
  assert (existsb (fun gsi => String.eqb (gsi_indexName gsi)
                                (derivedIndexName ctx config))
            (globalSecondaryIndexes table) = false) as Habsent.
  { destruct (existsb _ (globalSecondaryIndexes table)) eqn:Hpresent; [|done].
    apply existsb_true_countIndex in Hpresent. lia. }
  destruct (updateTableForConnection_new _ _ _ Himplicit Htable Habsent)
    as (completion & tables' & table' & Hrun & _ & Htable' & _ & _ & _ & Hadded).
  rewrite Hrun in Hreturns. injection Hreturns as -> <-.
  destruct Hadded as (_ & Hgsis & Hraw).
  exists table', (declarativeIndex ctx config), (rawIndex ctx config).
  split; [done|]. rewrite Hgsis, last_snoc. split; [done|]. split.
  { unfold rawIndexes. rewrite Hraw. cbn [default].
    destruct (cfnTable_globalSecondaryIndexes table); cbn; [apply last_snoc|done]. }
  do 3 (split; [done|]).
  unfold declarativeIndex, connectedSortKeyName. cbn [gsi_keySchema].
  destruct (respectPrimaryKeyAttributesOnConnectionField (transformParameters ctx));
    cbn [andb]; [|done].
  case_bool_decide as Hsort; cbn [negb].
  - by rewrite Hsort.
  - destruct (getSortKeyFields ctx (hasMany_object config)) as [|f1 [|f2 fs]];
      [done|by eexists..].
Qed.

(** When the reconciler adds the index.  For a relation that leaves the
    index to the compiler, on a table with provisioned billing that does
    not hold the derived name: if the attribute types of the key fields can
    be determined and the key attributes of the index go with the
    attribute definitions of the table, the call returns with
    [config.indexName] set. *)
Theorem reconciliation_adds_index (config : HasManyDirectiveConfiguration)
    (ctx : TransformerContextProvider) (table : Table)
    (partitionKeyType : string) (definitions : option SortKeyAttributeDefinitions) :
  let respect := respectPrimaryKeyAttributesOnConnectionField (transformParameters ctx) in
  let partitionKey :=
    mkAttribute
      (getConnectionAttributeName (transformParameters ctx)
         (getModelNameMapping ctx (object_name (hasMany_object config)))
         (field_name (hasMany_field config))
         (field_name (getObjectPrimaryKey (hasMany_object config))))
      partitionKeyType in
  js_truthy (hasMany_indexName config) = false →
  hasMany_fields config = [] →
  tables ctx !! object_name (hasMany_relatedType config) = Some table →
  countIndex (derivedIndexName ctx config) table = 0 →
  billingMode table = PROVISIONED →
  (if respect
   then attributeTypeFromType (field_type (getObjectPrimaryKey (hasMany_object config))) ctx
   else Returns "S") = Returns partitionKeyType →
  (if respect
   then getConnectedSortKeyAttributeDefinitionsForImplicitHasManyObject ctx
          (hasMany_object config) (hasMany_field config)
   else Returns None) = Returns definitions →
  attributeCompatible (attributeDefinitions table) partitionKey →
  (∀ d, definitions = Some d →
        attributeCompatible (attributeDefinitions table ++ [partitionKey])
          (mkAttribute (sortKeyName d) (sortKeyType d))) →
  ∃ ctx',
    updateTableForConnection config ctx
    = (Returns (withIndexName config (derivedIndexName ctx config)), ctx').
Proof.
  intros respect partitionKey Hname Hfields Htable Hcount Hbilling Htype Hdefinitions
    Hpartition Hsort.
  assert (js_truthy (hasMany_indexName config)
          || Nat.ltb 0 (length (hasMany_fields config)) = false) as Himplicit.
  { by rewrite Hname, Hfields. }
  assert (existsb (fun gsi => String.eqb (gsi_indexName gsi)
                                (derivedIndexName ctx config))
            (globalSecondaryIndexes table) = false) as Habsent.
  { destruct (existsb _ (globalSecondaryIndexes table)) eqn:Hpresent; [|done].
    apply existsb_true_countIndex in Hpresent. lia. }
  unfold updateTableForConnection.
  rewrite Himplicit. unfold bind at 1 2, get at 1, getTable. rewrite Htable.
  fold (derivedIndexName ctx config). rewrite Habsent. fold respect.
  unfold bind at 1.
  replace ((if respect
            then lift (attributeTypeFromType
                         (field_type (getObjectPrimaryKey (hasMany_object config))) ctx)
            else ret "S") ctx)
    with (Returns partitionKeyType, ctx)
    by (rewrite <- Htype; by destruct respect).
  unfold bind at 1.
  replace ((if respect
            then lift (getConnectedSortKeyAttributeDefinitionsForImplicitHasManyObject
                         ctx (hasMany_object config) (hasMany_field config))
            else ret None) ctx)
    with (Returns definitions, ctx)
    by (rewrite <- Hdefinitions; by destruct respect).
  unfold bind at 1, onTable.
  match goal with
  | |- context [addGlobalSecondaryIndex ?p table] =>
      pose proof (addGlobalSecondaryIndex_spec p table) as Hadd;
      destruct (addGlobalSecondaryIndex_returns p table) as [table1 Hreturns]
  end; [done|done|done| |].
  { intros sortKey. cbn [props_sortKey props_partitionKey].
    destruct definitions as [d|]; [|done]. intros [= <-]. by apply Hsort. }
  rewrite Hreturns in Hadd |- *. cbn [fst snd props_indexName] in Hadd.
  destruct Hadd as (_ & _ & _ & _ & Hgsis).
  rewrite Hgsis. erewrite find_pushed by done.
  unfold bind, setTable, modify, ret. by eexists.
Qed.

End ReconcilerMore.

(** ** Condensed keys can be cut apart again *)

Lemma split_on_free (sep : ascii) (x : string) :
  occurs sep x = false → split_on sep x = [x].
Proof.
  induction x as [|a x IH]; [done|].
  cbn [occurs split_on]. intros [Ha Hx]%orb_false_iff.
  rewrite Ascii.eqb_sym in Ha. by rewrite Ha, IH.
Qed.

Lemma split_on_app (sep : ascii) (x rest : string) :
  occurs sep x = false →
  split_on sep (x +:+ String sep rest) = x :: split_on sep rest.
Proof.
  induction x as [|a x IH].
  - intros _. change (EmptyString +:+ String sep rest) with (String sep rest).
    cbn [split_on]. by rewrite Ascii.eqb_refl.
  - cbn [occurs]. intros [Ha Hx]%orb_false_iff.
    rewrite string_app_cons. cbn [split_on].
    rewrite Ascii.eqb_sym in Ha. by rewrite Ha, IH.
Qed.

Lemma split_on_join (sep : ascii) (field : string) (fields : list string) :
  Forall (fun f => occurs sep f = false) (field :: fields) →
  split_on sep (join (String sep EmptyString) (field :: fields)) = field :: fields.
Proof.
  revert field. induction fields as [|g fields IH]; intros field Hfree.
  - apply split_on_free. by inversion Hfree.
  - inversion Hfree as [|? ? Hfield Hrest]; subst.
    change (join (String sep EmptyString) (field :: g :: fields))
      with (field +:+ String sep EmptyString
              +:+ join (String sep EmptyString) (g :: fields)).
    change (String sep EmptyString +:+ ?s) with (String sep s).
    rewrite split_on_app by done. by rewrite IH.
Qed.

Section CondenseMore.
Context `{Collaborators}.

(** A condensed key determines its fields: when the separator is one
    character that occurs in no field, cutting the condensed key at the
    separator gives the fields back, so two lists of such fields with the
    same condensed key are equal. *)
Theorem condenseRangeKey_round_trip (sep : ascii) (fields : list string) :
  ModelCompositeKeySeparator = String sep EmptyString →
  fields ≠ [] →
  Forall (fun f => occurs sep f = false) fields →
  split_on sep (condenseRangeKey fields) = fields
  ∧ ∀ others,
      others ≠ [] →
      Forall (fun f => occurs sep f = false) others →
      condenseRangeKey others = condenseRangeKey fields → others = fields.
Proof.
  intros Hsep Hfields Hfree. unfold condenseRangeKey. rewrite Hsep.
  assert (∀ l, l ≠ [] → Forall (fun f => occurs sep f = false) l →
               split_on sep (join (String sep EmptyString) l) = l) as Hsplit.
  { intros [|x l] Hl Hl'; [done|]. by apply split_on_join. }
  split; [by apply Hsplit|].
  intros others Hothers Hfree' Hsame.
  rewrite <- (Hsplit others), <- (Hsplit fields) by done. by rewrite Hsame.
Qed.

(** Without that condition a condensed key does not determine its fields:
    two adjacent fields and the one field made of them with the separator
    in between condense to the same key. *)
Theorem condenseRangeKey_merges_adjacent (before : list string) (x y : string)
    (after : list string) :
  condenseRangeKey (before ++ x :: y :: after)
  = condenseRangeKey (before ++ (x +:+ ModelCompositeKeySeparator +:+ y) :: after).
Proof.
  unfold condenseRangeKey.
  assert (∀ z rest, join ModelCompositeKeySeparator (z :: y :: rest)
                    = join ModelCompositeKeySeparator
                        ((z +:+ ModelCompositeKeySeparator +:+ y) :: rest)) as Hmerge.
  { intros z [|r rest]; [done|].
    change (join ModelCompositeKeySeparator (z :: y :: r :: rest))
      with (z +:+ ModelCompositeKeySeparator +:+ (y +:+ ModelCompositeKeySeparator +:+ join ModelCompositeKeySeparator (r :: rest))).
    change (join ModelCompositeKeySeparator ((z +:+ ModelCompositeKeySeparator +:+ y) :: r :: rest))
      with ((z +:+ ModelCompositeKeySeparator +:+ y) +:+ ModelCompositeKeySeparator +:+ join ModelCompositeKeySeparator (r :: rest)).
    by rewrite !string_app_assoc. }
  induction before as [|b before IH]; [apply Hmerge|].
  destruct before as [|b' before].
  - cbn [app] in *.
    change (join ModelCompositeKeySeparator (b :: x :: ?l)) with (b +:+ ModelCompositeKeySeparator +:+ join ModelCompositeKeySeparator (x :: l)).
    change (join ModelCompositeKeySeparator (b :: (x +:+ ModelCompositeKeySeparator +:+ y) :: ?l))
      with (b +:+ ModelCompositeKeySeparator +:+ join ModelCompositeKeySeparator ((x +:+ ModelCompositeKeySeparator +:+ y) :: l)).
    by rewrite IH.
  - cbn [app] in *.
    change (join ModelCompositeKeySeparator (b :: b' :: ?l)) with (b +:+ ModelCompositeKeySeparator +:+ join ModelCompositeKeySeparator (b' :: l)).
    by rewrite IH.
Qed.

End CondenseMore.

(** ** More on the primary-key validation *)

Section PrimaryKeyMore.
Context `{PrimaryKeyCollaborators}.

Lemma validate_objectFields_returns_single (object : ObjectTypeDefinitionNode)
    (field : FieldDefinitionNode) (fields : list FieldDefinitionNode)
    (fieldMap fieldMap' : gmap string FieldDefinitionNode) :
  validate_objectFields object field fields fieldMap = Returns fieldMap' →
  ∀ other, other ∈ fields → other ≠ field → hasPrimaryKeyDirective other = false.
Proof.
  intros Hloop other Hin Hne.
  destruct (hasPrimaryKeyDirective other) eqn:Hpk; [|done].
  rewrite validate_objectFields_duplicate in Hloop; [done|by exists other].
Qed.

Lemma validate_sortKeyFields_returns (ctx : TransformerContextProvider)
    (object : ObjectTypeDefinitionNode) (fieldMap : gmap string FieldDefinitionNode)
    (names : list string) (config config' : PrimaryKeyDirectiveConfiguration) :
  validate_sortKeyFields ctx object fieldMap (enumTypeDefinitions ctx) names config
  = (Returns tt, config') →
  ∃ sortFields,
    config' = mkPrimaryKey (pk_object config) (pk_field config) (pk_directive config)
                (pk_sortKeyFields config) (pk_sortKey config ++ sortFields)
                (pk_modelDirective config)
    ∧ Forall2 (fun name f => fieldMap !! name = Some f ∧ keyFieldType ctx f)
        names sortFields.
Proof.
  revert config. induction names as [|name names IH]; intros config.
  - intros [= <-]. exists []. split; [|constructor].
    destruct config. cbn. by rewrite app_nil_r.
  - cbn [validate_sortKeyFields].
    destruct (fieldMap !! name) as [sortField|] eqn:Hfield; [|done].
    destruct (isScalarOrEnum (field_type sortField) (enumTypeDefinitions ctx))
      eqn:Hscalar; [|done].
    destruct (isListType (field_type sortField)) eqn:Hlist; [done|].
    destruct (isNonNullType (field_type sortField)) eqn:Hnonnull; [|done].
    cbn [negb orb]. unfold bind at 1, get.
    destruct (validateNotOwnerAuth name config ctx); [|done].
    cbn [negb]. unfold bind at 1, modify.
    intros (sortFields & -> & Hall)%IH.
    exists (sortField :: sortFields). split.
    + cbn. by rewrite <- app_assoc.
    + by constructor.
Qed.

(** What a returning [validate] went through. *)
Lemma validate_returns_inv (ctx : TransformerContextProvider)
    (config config' : PrimaryKeyDirectiveConfiguration) :
  validate ctx config = (Returns tt, config') →
  ∃ modelDirective fieldMap,
    validateNotSelfReferencing config = Returns tt
    ∧ find (fun directive => String.eqb (directive_name directive) "model")
        (object_directives (pk_object config)) = Some modelDirective
    ∧ validate_objectFields (pk_object config) (pk_field config)
        (object_fields (pk_object config)) ∅ = Returns fieldMap
    ∧ keyFieldType ctx (pk_field config)
    ∧ validate_sortKeyFields ctx (pk_object config) fieldMap (enumTypeDefinitions ctx)
        (pk_sortKeyFields config) (set_modelDirective modelDirective config)
      = (Returns tt, config').
Proof.
  intros Hvalidate.
  destruct (validateNotSelfReferencing config) as [[]|e] eqn:Hself; cycle 1.
  { unfold validate, bind, get, lift in Hvalidate. by rewrite Hself in Hvalidate. }
  destruct (find (fun directive => String.eqb (directive_name directive) "model")
              (object_directives (pk_object config))) as [modelDirective|] eqn:Hmodel;
    cycle 1.
  { unfold validate, bind, get, lift in Hvalidate.
    by rewrite Hself, Hmodel in Hvalidate. }
  rewrite (validate_unfold _ _ _ Hself Hmodel) in Hvalidate. cbv zeta in Hvalidate.
  destruct (validate_objectFields _ _ _ _) as [fieldMap|] eqn:Hfields; [|done].
  destruct (isNonNullType (field_type (pk_field config))) eqn:Hnonnull; [|done].
  destruct (isScalarOrEnum (field_type (pk_field config)) (enumTypeDefinitions ctx))
    eqn:Hscalar; [|done].
  destruct (isListType (field_type (pk_field config))) eqn:Hlist; [done|].
  by exists modelDirective, fieldMap.
Qed.

(** A name of the field map of [validate] resolves to the last field the
    type declares under that name; names the type does not declare are not
    in the map. *)
Theorem field_map_last_declaration (object : ObjectTypeDefinitionNode)
    (field : FieldDefinitionNode) (fieldMap : gmap string FieldDefinitionNode) :
  validate_objectFields object field (object_fields object) ∅ = Returns fieldMap →
  ∀ name, fieldMap !! name = declaredField object name.
Proof.
  intros Hloop name. rewrite (validate_objectFields_lookup _ _ _ _ _ name Hloop).
  unfold declaredField. by destruct (last _).
Qed.

(** Soundness of [validate].  A configuration it accepts passed the
    self-reference check; its type carries [@model], and the first such
    directive is stored; no other field carries a primary-key directive;
    the key field is non-null, scalar or enum, and no list; and the stored
    sort key is extended by one field per declared sort-key field name, in
    that order: the last field declared under the name, of a key type. *)
Theorem accepted_configuration (ctx : TransformerContextProvider)
    (config config' : PrimaryKeyDirectiveConfiguration) :
  validate ctx config = (Returns tt, config') →
  validateNotSelfReferencing config = Returns tt
  ∧ pk_modelDirective config'
    = find (fun directive => String.eqb (directive_name directive) "model")
        (object_directives (pk_object config))
  ∧ is_Some (pk_modelDirective config')
  ∧ (∀ other, other ∈ object_fields (pk_object config) → other ≠ pk_field config →
              hasPrimaryKeyDirective other = false)
  ∧ keyFieldType ctx (pk_field config)
  ∧ pk_object config' = pk_object config
  ∧ pk_field config' = pk_field config
  ∧ pk_directive config' = pk_directive config
  ∧ pk_sortKeyFields config' = pk_sortKeyFields config
  ∧ ∃ sortFields,
      pk_sortKey config' = pk_sortKey config ++ sortFields
      ∧ Forall2 (fun name f => declaredField (pk_object config) name = Some f
                               ∧ keyFieldType ctx f)
          (pk_sortKeyFields config) sortFields.
Proof.
  intros (modelDirective & fieldMap & Hself & Hmodel & Hfields & Htype & Hloop)
    %validate_returns_inv.
  apply validate_sortKeyFields_returns in Hloop as (sortFields & -> & Hall).
  cbn [set_modelDirective pk_object pk_field pk_directive pk_sortKeyFields pk_sortKey
         pk_modelDirective].
  split_and!; try done.
  - by eapply validate_objectFields_returns_single.
  - exists sortFields. split; [done|].
    eapply Forall2_impl; [exact Hall|].
    intros name f [Hname Hkey]. split; [|done].
    by rewrite <- (validate_objectFields_declared _ _ _ Hfields).
Qed.

(** Completeness of [validate].  It accepts a configuration that passes
    the self-reference check, whose type carries [@model] and no second
    primary key, whose key field has a key type, and whose sort-key field
    names each resolve to a field of a key type that no owner rule of the
    type uses. *)
Theorem valid_configuration_accepted (ctx : TransformerContextProvider)
    (config : PrimaryKeyDirectiveConfiguration) (modelDirective : DirectiveNode) :
  validateNotSelfReferencing config = Returns tt →
  find (fun directive => String.eqb (directive_name directive) "model")
    (object_directives (pk_object config)) = Some modelDirective →
  (∀ other, other ∈ object_fields (pk_object config) → other ≠ pk_field config →
            hasPrimaryKeyDirective other = false) →
  keyFieldType ctx (pk_field config) →
  Forall (sortKeyPasses ctx (pk_object config)) (pk_sortKeyFields config) →
  ∃ config', validate ctx config = (Returns tt, config').
Proof.
  intros Hself Hmodel Hsingle (Hnonnull & Hscalar & Hlist) Hsort.
  rewrite (validate_unfold _ _ _ Hself Hmodel). cbv zeta.
  destruct (validate_objectFields_single (pk_object config) (pk_field config)
              (object_fields (pk_object config)) ∅ Hsingle) as (fieldMap & Hfields).
  rewrite Hfields, Hnonnull, Hscalar, Hlist. cbn [negb orb].
  destruct (validate_sortKeyFields_passes ctx fieldMap (pk_sortKeyFields config) []
              (set_modelDirective modelDirective config)
              (validate_objectFields_declared _ _ _ Hfields) Hsort)
    as (config' & _ & Hloop).
  rewrite app_nil_r in Hloop. cbn [set_modelDirective pk_object] in Hloop.
  rewrite Hloop. by exists config'.
Qed.

(** A type without [@model] never passes: [validate] raises the failure of
    the self-reference check if that check fails, and the missing-model
    failure otherwise, before it stores anything in the configuration. *)
Theorem missing_model_directive (ctx : TransformerContextProvider)
    (config : PrimaryKeyDirectiveConfiguration) :
  find (fun directive => String.eqb (directive_name directive) "model")
    (object_directives (pk_object config)) = None →
  validate ctx config
  = (Throws match validateNotSelfReferencing config with
            | Throws e => e
            | Returns _ => MissingModelDirective
            end, config).
Proof.
  intros Hmodel. unfold validate, bind, get, lift, throw.
  destruct (validateNotSelfReferencing config) as [[]|e]; [|done].
  by rewrite Hmodel.
Qed.

(** The type checks of the key field, in the order the code has them: a
    nullable key field raises the non-null failure, also when it is a list
    or not scalar-or-enum; a non-null key field that is a list or not
    scalar-or-enum raises the key type failure.  The sort-key loop checks
    in the opposite order. *)
Theorem primary_key_type_failure (ctx : TransformerContextProvider)
    (config : PrimaryKeyDirectiveConfiguration) (modelDirective : DirectiveNode) :
  validateNotSelfReferencing config = Returns tt →
  find (fun directive => String.eqb (directive_name directive) "model")
    (object_directives (pk_object config)) = Some modelDirective →
  (∀ other, other ∈ object_fields (pk_object config) → other ≠ pk_field config →
            hasPrimaryKeyDirective other = false) →
  ¬ keyFieldType ctx (pk_field config) →
  validate ctx config
  = (Throws (if isNonNullType (field_type (pk_field config))
             then InvalidPrimaryKeyType (object_name (pk_object config))
                    (field_name (pk_field config))
             else NullablePrimaryKey (object_name (pk_object config))),
     set_modelDirective modelDirective config).
Proof.
  intros Hself Hmodel Hsingle Htype.
  rewrite (validate_unfold _ _ _ Hself Hmodel). cbv zeta.
  destruct (validate_objectFields_single (pk_object config) (pk_field config)
              (object_fields (pk_object config)) ∅ Hsingle) as (fieldMap & ->).
  unfold keyFieldType in Htype.
  destruct (isNonNullType (field_type (pk_field config))); cbn [negb]; [|done].
  destruct (isScalarOrEnum (field_type (pk_field config)) (enumTypeDefinitions ctx));
    cbn [negb orb]; [|done].
  destruct (isListType (field_type (pk_field config))); [done|].
  by destruct Htype.
Qed.

(** The first sort-key field name that does not pass, when its type is
    not at fault: a name the type does not declare raises the unknown-field
    failure; a name that resolves to a field of a key type which an owner
    rule of the type uses raises the owner-conflict failure. *)
Theorem sort_key_lookup_failure (ctx : TransformerContextProvider)
    (config : PrimaryKeyDirectiveConfiguration) (modelDirective : DirectiveNode)
    (accepted : list string) (name : string) (rest : list string) :
  validateNotSelfReferencing config = Returns tt →
  find (fun directive => String.eqb (directive_name directive) "model")
    (object_directives (pk_object config)) = Some modelDirective →
  (∀ other, other ∈ object_fields (pk_object config) → other ≠ pk_field config →
            hasPrimaryKeyDirective other = false) →
  keyFieldType ctx (pk_field config) →
  pk_sortKeyFields config = accepted ++ name :: rest →
  Forall (sortKeyPasses ctx (pk_object config)) accepted →
  match declaredField (pk_object config) name with
  | None =>
      fst (validate ctx config)
      = Throws (UnknownSortKeyField name (object_name (pk_object config)))
  | Some sortField =>
      keyFieldType ctx sortField →
      (∀ config', pk_object config' = pk_object config →
                  validateNotOwnerAuth name config' ctx = false) →
      fst (validate ctx config) = Throws (SortKeyOwnerConflict name)
  end.
Proof.
  intros Hself Hmodel Hsingle (Hnonnull & Hscalar & Hlist) Hsort Haccepted.
  rewrite (validate_unfold _ _ _ Hself Hmodel). cbv zeta.
  destruct (validate_objectFields_single (pk_object config) (pk_field config)
              (object_fields (pk_object config)) ∅ Hsingle) as (fieldMap & Hfields).
  rewrite Hfields, Hnonnull, Hscalar, Hlist, Hsort. cbn [negb orb].
  destruct (validate_sortKeyFields_passes ctx fieldMap accepted (name :: rest)
              (set_modelDirective modelDirective config)
              (validate_objectFields_declared _ _ _ Hfields) Haccepted)
    as (config' & Hobject & Hloop).
  cbn [set_modelDirective pk_object] in Hloop, Hobject. rewrite Hloop.
  cbn [validate_sortKeyFields].
  rewrite (validate_objectFields_declared _ _ _ Hfields).
  destruct (declaredField (pk_object config) name) as [sortField|]; [|done].
  intros (Hn & Hs & Hl) Howner. rewrite Hn, Hs, Hl. cbn [negb orb].
  unfold bind at 1, get. by rewrite Howner.
Qed.

(** A visit that returns records exactly one configuration, at the end of
    the directive list: the one [validate] left, for the visited type,
    field and directive, with one sort-key field per declared sort-key
    field name.  The resolver map is untouched. *)
Theorem field_records_configuration
    (parent : ObjectTypeDefinitionNode) (definition : FieldDefinitionNode)
    (directive : DirectiveNode) (context : TransformerContextProvider)
    (this this' : PrimaryKeyTransformer) :
  field parent definition directive context this = (Returns tt, this') →
  ∃ config,
    validate context (directiveArguments parent definition directive)
    = (Returns tt, config)
    ∧ directiveList this' = directiveList this ++ [config]
    ∧ resolverMap this' = resolverMap this
    ∧ pk_object config = parent
    ∧ pk_field config = definition
    ∧ pk_directive config = directive
    ∧ Forall2 (fun name f => declaredField parent name = Some f)
        (pk_sortKeyFields config) (pk_sortKey config).
Proof.
  unfold field, bind, modify.
  destruct (validate context (directiveArguments parent definition directive))
    as [[[]|e] config] eqn:Hvalidate; [|done].
  intros [= <-]. exists config. cbn [directiveList resolverMap].
  split; [done|].
  apply validate_returns_inv in Hvalidate
    as (modelDirective & fieldMap & _ & _ & Hfields & _ & Hloop).
  apply validate_sortKeyFields_returns in Hloop as (sortFields & -> & Hall).
  cbn [set_modelDirective directiveArguments pk_object pk_field pk_directive
         pk_sortKeyFields pk_sortKey app] in *.
  split_and!; try done.
  eapply Forall2_impl; [exact Hall|].
  intros name f [Hname _].
  by rewrite <- (validate_objectFields_declared _ _ _ Hfields).
Qed.

(** Resolver generation over a list of configurations is generation over
    its first part followed by generation over the rest; a generator that
    throws ends it, so that no later configuration is generated. *)
Theorem generateResolvers_loop_app
    (before after : list PrimaryKeyDirectiveConfiguration)
    (state : TransformerContextProvider * ResolverMap) :
  generateResolvers_loop (before ++ after) state
  = match generateResolvers_loop before state with
    | (Returns _, state') => generateResolvers_loop after state'
    | (Throws e, state') => (Throws e, state')
    end.
Proof.
  revert state. induction before as [|config before IH]; intros state; [done|].
  cbn [app generateResolvers_loop]. unfold bind at 1 3, get.
  unfold bind at 1 2.
  destruct (generate _ config state) as [[[]|e] state']; [apply IH|done].
Qed.

End PrimaryKeyMore.

(** ** The list query of a keyed model *)

Section UpdateListFieldFacts.
Context {Ctx : Type} `{SchemaCollaborators Ctx}.

(** When the list query of the model is a field of [Query],
    [updateListField] ensures the sort-direction enum and then stores a
    [Query] type with the same name, directives, field names and field
    order.  Fields of another name are as they were.  The list field keeps
    its definition, and its arguments are the hash field, the arguments it
    had, and [sortDirection], in that order: two arguments more. *)
Theorem updateListField_arguments (config : PrimaryKeyDirectiveConfiguration)
    (ctx : Ctx) (resolverName : string) (query : QueryNode)
    (listField : QueryFieldNode) :
  lookupResolverName config ctx "list" = Some resolverName →
  resolverName ≠ EmptyString →
  getQuery ctx = Some query →
  find (fun field => String.eqb (queryField_name field) resolverName)
    (query_fields query) = Some listField →
  ∃ query' arguments,
    updateListField config ctx = updateObject query' (ensureModelSortDirectionEnum ctx)
    ∧ query_name query' = query_name query
    ∧ query_directives query' = query_directives query
    ∧ map queryField_name (query_fields query') = map queryField_name (query_fields query)
    ∧ arguments
      = createHashField config :: default [] (queryField_arguments listField)
        ++ [makeInputValueDefinition "sortDirection" (makeNamedType "ModelSortDirection")]
    ∧ length arguments = 2 + length (default [] (queryField_arguments listField))
    ∧ ∀ i field,
        query_fields query !! i = Some field →
        query_fields query' !! i
        = Some (if String.eqb (queryField_name field) resolverName
                then mkQueryField (queryField_definition listField) (Some arguments)
                else field).
Proof.
  intros Hname Hnonempty Hquery Hfind.
  assert (queryField_name listField = resolverName) as HlistName.
  { apply find_some in Hfind as [_ Heq]. by apply String.eqb_eq in Heq. }
  unfold updateListField. rewrite Hname, Hquery.
  destruct resolverName as [|a resolverName]; [done|]. cbn [js_truthy negb].
  rewrite Hfind. eexists _, _. split; [reflexivity|]. cbn [query_name query_directives
    query_fields].
  assert (listFieldArguments config listField
          = createHashField config :: default [] (queryField_arguments listField)
            ++ [makeInputValueDefinition "sortDirection"
                  (makeNamedType "ModelSortDirection")]) as Hargs.
  { unfold listFieldArguments. by destruct (queryField_arguments listField). }
  rewrite Hargs. clear Hargs.
  change (queryField_name (mkQueryField (queryField_definition listField) ?x))
    with (queryField_name listField).
  rewrite HlistName. split_and!; try done.

  - rewrite map_map. apply map_ext_in. intros field _.
    destruct (String.eqb (queryField_name field) (String a resolverName)) eqn:Heq;
      [|done].
    apply String.eqb_eq in Heq. by rewrite Heq, <- HlistName.
  - cbn [length]. rewrite length_app. cbn [length]. lia.
  - intros i field Hfield. change map with (@fmap list _) at 1.
    by rewrite list_lookup_fmap, Hfield.
Qed.

(** Without a list query to extend, [updateListField] leaves the context
    as it is, and in particular does not ensure the sort-direction enum:
    when the model has no list resolver name, when the schema has no
    [Query] type, and when no field of [Query] has that name. *)
Theorem updateListField_skips (config : PrimaryKeyDirectiveConfiguration) (ctx : Ctx) :
  js_truthy (lookupResolverName config ctx "list") = false
  ∨ getQuery ctx = None
  ∨ (∃ resolverName query,
       lookupResolverName config ctx "list" = Some resolverName
       ∧ getQuery ctx = Some query
       ∧ Forall (fun field => queryField_name field ≠ resolverName) (query_fields query)) →
  updateListField config ctx = ctx.
Proof.
  unfold updateListField.
  intros [Hname|[Hquery|(resolverName & query & Hname & Hquery & Hnone)]].
  - destruct (lookupResolverName config ctx "list") as [[|a name]|]; try done.
    by destruct (getQuery ctx).
  - rewrite Hquery. by destruct (lookupResolverName config ctx "list").
  - rewrite Hname, Hquery. destruct (negb _); [done|].
    destruct (find _ (query_fields query)) as [listField|] eqn:Hfind; [|done].
    apply find_some in Hfind as [Hin Heq]. apply String.eqb_eq in Heq.
    rewrite Forall_forall in Hnone. by destruct (Hnone listField); [apply list_elem_of_In|].
Qed.

End UpdateListFieldFacts.

(** ** The further properties on the example schema *)

Lemma query_names_table_keys_witness :
  ∃ resolver table k0 request query,
    resolvers example_synthesized !! resolverKey example_hasOne = Some resolver
    ∧ tables example_context !! object_name (hasOne_relatedType example_hasOne)
      = Some table
    ∧ keySchema table !! 0 = Some k0
    ∧ rendered (@run (example_fullKey [] 0) (requestMappingTemplate resolver))
      = Some [request]
    ∧ entry "query" request = Some query
    ∧ ∃ k1,
        keySchema table !! 1 = Some k1
        ∧ entry "expression" query
          = Some (VString
                    "#partitionKey = :partitionValue AND #sortKeyName = :sortKeyName")
        ∧ entry "expressionNames" query
          = Some (VMap [("#partitionKey", VString (attributeName k0));
                        ("#sortKeyName", VString (attributeName k1))]).
Proof.
  apply (@query_names_table_keys example_collaborators example_hasOne example_context
           example_synthesized (example_fullKey [] 0)).
  - vm_compute. reflexivity.
  - vm_compute. reflexivity.
Defined.

Lemma filter_iff_authFilter_witness :
  ∃ resolver request,
    resolvers example_synthesized !! resolverKey example_hasOne = Some resolver
    ∧ rendered (run (example_fullKey [] 0) (requestMappingTemplate resolver))
      = Some [request]
    ∧ (is_Some (entry "filter" request)
       ↔ isNullOrEmptyValue (ctx_stash_authFilter (example_fullKey [] 0)) = false).
Proof.
  apply (@filter_iff_authFilter example_collaborators example_hasOne example_context).
  - vm_compute. reflexivity.
  - vm_compute. reflexivity.
Defined.

Lemma synthesis_failure_leaves_context_witness :
  snd (@makeGetItemConnectionWithKeyResolver example_collaborators
         example_hasOne_noTable example_context)
  = example_context.
Proof.
  eapply (@synthesis_failure_leaves_context example_collaborators
            example_hasOne_noTable example_context).
  vm_compute. reflexivity.
Defined.

Lemma short_key_schema_throws_witness :
  ∃ e,
    @makeGetItemConnectionWithKeyResolver example_collaborators example_hasOne
      example_context_shortKey
    = (Throws e, example_context_shortKey)
    ∧ ∃ message, e = TypeError message.
Proof.
  apply (@short_key_schema_throws example_collaborators example_hasOne
           example_context_shortKey
           (mkTable [mkKeySchemaElement "id" "HASH"] [mkAttribute "id" "S"]
              PROVISIONED [] None)).
  - vm_compute. reflexivity.
  - exists "PostTable". vm_compute. reflexivity.
  - vm_compute. lia.
Defined.

Lemma synthesis_registers_one_resolver_witness :
  ∃ resolver,
    example_synthesized
    = with_resolvers (<[resolverKey example_hasOne := resolver]>
                        (resolvers example_context)) example_context
    ∧ resolver_typeName resolver = object_name (hasOne_object example_hasOne)
    ∧ resolver_fieldName resolver = field_name (hasOne_field example_hasOne)
    ∧ resolver_logicalId resolver
      = @ResolverResourceID example_collaborators
          (object_name (hasOne_object example_hasOne))
          (field_name (hasOne_field example_hasOne))
    ∧ resolver_dataSource resolver
      = dataSources example_context
        !! (object_name (hasOne_relatedType example_hasOne) +:+ "Table")
    ∧ templateName (requestMappingTemplate resolver)
      = "resolvers/" +:+ resolverKey example_hasOne +:+ ".req.vtl"
    ∧ templateName (responseMappingTemplate resolver)
      = "resolvers/" +:+ resolverKey example_hasOne +:+ ".res.vtl"
    ∧ resolver_stack resolver
      = Some (@getStackFor example_collaborators
                (@ResolverResourceID example_collaborators
                   (object_name (hasOne_object example_hasOne))
                   (field_name (hasOne_field example_hasOne)))
                CONNECTION_STACK).
Proof.
  apply (@synthesis_registers_one_resolver example_collaborators).
  vm_compute. reflexivity.
Defined.

Lemma synthesis_returns_only_if_witness :
  hasOne_relatedTypeIndex example_hasOne ≠ []
  ∧ (∃ table,
       tables example_context !! object_name (hasOne_relatedType example_hasOne)
       = Some table
       ∧ Nat.min 2 (length (hasOne_relatedTypeIndex example_hasOne))
         ≤ length (keySchema table))
  ∧ ∃ object partitionValue,
      output example_context !! object_name (hasOne_object example_hasOne) = Some object
      ∧ @buildKeyValueExpression example_collaborators
          (localFieldsOf example_hasOne !! 0) (Some object) true
        = Returns partitionValue.
Proof.
  apply (@synthesis_returns_only_if example_collaborators example_hasOne example_context
           example_synthesized).
  vm_compute. reflexivity.
Defined.

Lemma failed_reconciliation_adds_no_index_witness :
  js_truthy (hasMany_indexName example_hasMany) = false
  ∧ hasMany_fields example_hasMany = []
  ∧ (∀ table,
       tables example_context_clash !! object_name (hasMany_relatedType example_hasMany)
       = Some table →
       countIndex (derivedIndexName example_context_clash example_hasMany) table = 0)
  ∧ resolvers (snd (@updateTableForConnection example_collaborators example_hasMany
                      example_context_clash))
    = resolvers example_context_clash
  ∧ (∀ name,
       tables example_context_clash !! name = None →
       tables (snd (@updateTableForConnection example_collaborators example_hasMany
                      example_context_clash)) !! name = None)
  ∧ ∀ name table,
      tables example_context_clash !! name = Some table →
      ∃ table',
        tables (snd (@updateTableForConnection example_collaborators example_hasMany
                       example_context_clash)) !! name = Some table'
        ∧ keySchema table' = keySchema table
        ∧ globalSecondaryIndexes table' = globalSecondaryIndexes table
        ∧ cfnTable_globalSecondaryIndexes table' = cfnTable_globalSecondaryIndexes table
        ∧ attributeDefinitions table `prefix_of` attributeDefinitions table'.
Proof.
  eapply (@failed_reconciliation_adds_no_index example_collaborators example_hasMany
            example_context_clash).
  vm_compute. reflexivity.
Defined.

Lemma reconciliation_only_appends_witness :
  resolvers (snd (@updateTableForConnection example_collaborators example_hasMany
                    example_context))
  = resolvers example_context
  ∧ (∀ name, name ≠ object_name (hasMany_relatedType example_hasMany) →
             tables (snd (@updateTableForConnection example_collaborators example_hasMany
                            example_context)) !! name
             = tables example_context !! name)
  ∧ ∃ table',
      tables (snd (@updateTableForConnection example_collaborators example_hasMany
                     example_context))
      !! object_name (hasMany_relatedType example_hasMany) = Some table'
      ∧ keySchema table' = keySchema example_commentTable
      ∧ globalSecondaryIndexes example_commentTable
        `prefix_of` globalSecondaryIndexes table'
      ∧ length (globalSecondaryIndexes table')
        ≤ S (length (globalSecondaryIndexes example_commentTable))
      ∧ rawIndexes example_commentTable `prefix_of` rawIndexes table'.
Proof.
  apply (@reconciliation_only_appends example_collaborators example_hasMany
           example_context example_commentTable).
  vm_compute. reflexivity.
Defined.

Lemma connected_sort_key_definitions_witness :
  @getConnectedSortKeyAttributeDefinitionsForImplicitHasManyObject example_collaborators
    example_context example_comment (hasMany_field example_hasMany)
  = Returns None
  ∧ @getConnectedSortKeyAttributeDefinitionsForImplicitHasManyObject example_collaborators
      example_context example_order (hasMany_field example_hasMany)
    = Returns (Some (mkSortKeyAttributeDefinitions "Order_comments_createdAt" "S")).
Proof.
  split.
  - apply (@connected_sort_key_definitions example_collaborators example_context
             example_comment (hasMany_field example_hasMany)).
    vm_compute. reflexivity.
  - apply (proj2 (@connected_sort_key_definitions example_collaborators example_context
                    example_order (hasMany_field example_hasMany))
             (mkField "createdAt" (NamedType "String") [] 21)).
    vm_compute. reflexivity.
Defined.

Lemma added_index_key_schema_witness :
  ∃ table' declarative sortKeyName,
    tables (snd (@updateTableForConnection example_collaborators example_hasMany
                   example_context))
    !! object_name (hasMany_relatedType example_hasMany) = Some table'
    ∧ last (globalSecondaryIndexes table') = Some declarative
    ∧ gsi_indexName declarative = "gsi-Post.comments"
    ∧ gsi_keySchema declarative
      = [mkKeySchemaElement "Post_comments_id" "HASH";
         mkKeySchemaElement sortKeyName "RANGE"].
Proof.
  destruct (@added_index_key_schema example_collaborators example_hasMany
              (withIndexName example_hasMany "gsi-Post.comments") example_context
              (snd (@updateTableForConnection example_collaborators example_hasMany
                      example_context))
              example_commentTable)
    as (table' & declarative & raw_gsi & Htable & Hlast & _ & Hname & _ & _ & Hkeys).
  - reflexivity.
  - reflexivity.
  - vm_compute. reflexivity.
  - vm_compute. reflexivity.
  - vm_compute. reflexivity.
  - destruct Hkeys as [sortKeyName Hkeys].
    exists table', declarative, sortKeyName.
    split; [exact Htable|]. split; [exact Hlast|]. split; [exact Hname|exact Hkeys].
Defined.

Lemma condenseRangeKey_round_trip_witness :
  split_on "#" (@condenseRangeKey example_collaborators ["title"; "createdAt"])
  = ["title"; "createdAt"]
  ∧ ∀ others,
      others ≠ [] →
      Forall (fun f => occurs "#" f = false) others →
      @condenseRangeKey example_collaborators others
      = @condenseRangeKey example_collaborators ["title"; "createdAt"] →
      others = ["title"; "createdAt"].
Proof.
  apply (@condenseRangeKey_round_trip example_collaborators "#" ["title"; "createdAt"]).
  - reflexivity.
  - discriminate.
  - repeat constructor.
Defined.

Lemma field_map_last_declaration_witness :
  ∃ fieldMap,
    validate_objectFields example_entry example_entry_id (object_fields example_entry) ∅
    = Returns fieldMap
    ∧ ∀ name, fieldMap !! name = declaredField example_entry name.
Proof.
  eexists. split; [vm_compute; reflexivity|].
  apply (field_map_last_declaration example_entry example_entry_id).
  vm_compute. reflexivity.
Defined.

Lemma accepted_configuration_witness :
  ∃ sortFields,
    pk_sortKey
      (snd (@validate example_primaryKeyCollaborators example_context
              (@directiveArguments example_primaryKeyCollaborators example_post
                 example_post_id (example_directive example_post_id))))
    = [] ++ sortFields
    ∧ Forall2 (fun name f => declaredField example_post name = Some f
                             ∧ @keyFieldType example_primaryKeyCollaborators
                                 example_context f)
        ["title"; "createdAt"] sortFields.
Proof.
  destruct (@accepted_configuration example_primaryKeyCollaborators example_context
              (@directiveArguments example_primaryKeyCollaborators example_post
                 example_post_id (example_directive example_post_id))
              (snd (@validate example_primaryKeyCollaborators example_context
                      (@directiveArguments example_primaryKeyCollaborators example_post
                         example_post_id (example_directive example_post_id)))))
    as (_ & _ & _ & _ & _ & _ & _ & _ & _ & sortFields & Hkey & Hall).
  - vm_compute. reflexivity.
  - exists sortFields. split; [exact Hkey|exact Hall].
Defined.

Lemma example_post_sortKeyPasses :
  Forall (@sortKeyPasses example_primaryKeyCollaborators example_context example_post)
    ["title"; "createdAt"].
Proof.
  repeat constructor.
  - eexists. split; [vm_compute; reflexivity|]. split.
    + split_and!; vm_compute; reflexivity.
    + intros config Hobject.
      change (example_validateNotOwnerAuth "title" config example_context = true).
      unfold example_validateNotOwnerAuth. rewrite Hobject. reflexivity.
  - eexists. split; [vm_compute; reflexivity|]. split.
    + split_and!; vm_compute; reflexivity.
    + intros config Hobject.
      change (example_validateNotOwnerAuth "createdAt" config example_context = true).
      unfold example_validateNotOwnerAuth. rewrite Hobject. reflexivity.
Defined.

Lemma valid_configuration_accepted_witness :
  ∃ config',
    @validate example_primaryKeyCollaborators example_context
      (@directiveArguments example_primaryKeyCollaborators example_post example_post_id
         (example_directive example_post_id))
    = (Returns tt, config').
Proof.
  apply (@valid_configuration_accepted example_primaryKeyCollaborators example_context
           (@directiveArguments example_primaryKeyCollaborators example_post
              example_post_id (example_directive example_post_id))
           (mkDirective "model" [])).
  - vm_compute. reflexivity.
  - vm_compute. reflexivity.
  - intros other Hin Hne.
    apply elem_of_cons in Hin as [->|Hin]; [by destruct Hne|].
    apply elem_of_cons in Hin as [->|Hin]; [reflexivity|].
    apply elem_of_cons in Hin as [->|Hin]; [reflexivity|].
    by apply elem_of_nil in Hin.
  - split_and!; vm_compute; reflexivity.
  - exact example_post_sortKeyPasses.
Defined.

Lemma missing_model_directive_witness :
  @validate example_primaryKeyCollaborators example_context
    (@directiveArguments example_primaryKeyCollaborators example_draft example_draft_id
       (example_directive example_draft_id))
  = (Throws MissingModelDirective,
     @directiveArguments example_primaryKeyCollaborators example_draft example_draft_id
       (example_directive example_draft_id)).
Proof.
  apply (@missing_model_directive example_primaryKeyCollaborators example_context
           (@directiveArguments example_primaryKeyCollaborators example_draft
              example_draft_id (example_directive example_draft_id))).
  reflexivity.
Defined.

Lemma primary_key_type_failure_witness :
  example_isScalarOrEnum (NamedType "Post") (enumTypeDefinitions example_context) = false
  ∧ fst (@validate example_primaryKeyCollaborators example_context
           (@directiveArguments example_primaryKeyCollaborators example_shelf
              example_shelf_id (example_directive example_shelf_id)))
    = Throws (NullablePrimaryKey "Shelf").
Proof.
  split; [reflexivity|].
  rewrite (@primary_key_type_failure example_primaryKeyCollaborators example_context
             (@directiveArguments example_primaryKeyCollaborators example_shelf
                example_shelf_id (example_directive example_shelf_id))
             (mkDirective "model" [])).
  - reflexivity.
  - vm_compute. reflexivity.
  - vm_compute. reflexivity.
  - intros other Hin Hne.
    apply elem_of_cons in Hin as [->|Hin]; [by destruct Hne|].
    by apply elem_of_nil in Hin.
  - intros (Hnonnull & _). vm_compute in Hnonnull. discriminate Hnonnull.
Defined.

Lemma sort_key_lookup_failure_witness :
  fst (@validate example_primaryKeyCollaborators example_context
         (@directiveArguments example_primaryKeyCollaborators example_event
            example_event_id (example_directive example_event_id)))
  = Throws (UnknownSortKeyField "when" "Event")
  ∧ fst (@validate example_primaryKeyCollaborators example_context
           (@directiveArguments example_primaryKeyCollaborators example_note
              example_note_id (example_directive example_note_id)))
    = Throws (SortKeyOwnerConflict "owner").
Proof.
  split.
  - apply (@sort_key_lookup_failure example_primaryKeyCollaborators example_context
             (@directiveArguments example_primaryKeyCollaborators example_event
                example_event_id (example_directive example_event_id))
             (mkDirective "model" []) [] "when" []).
    + vm_compute. reflexivity.
    + vm_compute. reflexivity.
    + intros other Hin Hne.
      apply elem_of_cons in Hin as [->|Hin]; [by destruct Hne|].
      by apply elem_of_nil in Hin.
    + split_and!; vm_compute; reflexivity.
    + reflexivity.
    + constructor.
  - apply (@sort_key_lookup_failure example_primaryKeyCollaborators example_context
             (@directiveArguments example_primaryKeyCollaborators example_note
                example_note_id (example_directive example_note_id))
             (mkDirective "model" []) [] "owner" []).
    + vm_compute. reflexivity.
    + vm_compute. reflexivity.
    + intros other Hin Hne.
      apply elem_of_cons in Hin as [->|Hin]; [by destruct Hne|].
      apply elem_of_cons in Hin as [->|Hin]; [reflexivity|].
      by apply elem_of_nil in Hin.
    + split_and!; vm_compute; reflexivity.
    + reflexivity.
    + constructor.
    + split_and!; vm_compute; reflexivity.
    + intros config' Hobject.
      change (example_validateNotOwnerAuth "owner" config' example_context = false).
      unfold example_validateNotOwnerAuth. rewrite Hobject. reflexivity.
Defined.

Lemma field_records_configuration_witness :
  ∃ config,
    @validate example_primaryKeyCollaborators example_context
      (@directiveArguments example_primaryKeyCollaborators example_post example_post_id
         (example_directive example_post_id))
    = (Returns tt, config)
    ∧ directiveList
        (snd (@field example_primaryKeyCollaborators example_post example_post_id
                (example_directive example_post_id) example_context example_transformer))
      = directiveList example_transformer ++ [config]
    ∧ resolverMap
        (snd (@field example_primaryKeyCollaborators example_post example_post_id
                (example_directive example_post_id) example_context example_transformer))
      = resolverMap example_transformer
    ∧ pk_object config = example_post
    ∧ pk_field config = example_post_id
    ∧ pk_directive config = example_directive example_post_id
    ∧ Forall2 (fun name f => declaredField example_post name = Some f)
        (pk_sortKeyFields config) (pk_sortKey config).
Proof.
  apply (@field_records_configuration example_primaryKeyCollaborators example_post
           example_post_id (example_directive example_post_id) example_context
           example_transformer).
  vm_compute. reflexivity.
Defined.

Lemma updateListField_arguments_witness :
  ∃ query' arguments,
    @updateListField _ example_schemaCollaborators example_post_key
      (Some example_query, [])
    = (Some query', ["ModelSortDirection"])
    ∧ query_name query' = "Query"
    ∧ query_directives query' = []
    ∧ map queryField_name (query_fields query') = ["getPost"; "listPosts"]
    ∧ arguments
      = [mkInputValue "id" (NamedType "ID");
         mkInputValue "filter" (NamedType "ModelPostFilterInput");
         mkInputValue "limit" (NamedType "Int");
         mkInputValue "sortDirection" (NamedType "ModelSortDirection")]
    ∧ length arguments = 4
    ∧ ∀ i field,
        query_fields example_query !! i = Some field →
        query_fields query' !! i
        = Some (if String.eqb (queryField_name field) "listPosts"
                then mkQueryField (queryField_definition example_listPosts)
                       (Some arguments)
                else field).
Proof.
  apply (@updateListField_arguments _ example_schemaCollaborators example_post_key
           (Some example_query, []) "listPosts" example_query example_listPosts).
  - reflexivity.
  - discriminate.
  - reflexivity.
  - reflexivity.
Defined.

Lemma updateListField_skips_witness :
  @updateListField _ example_schemaCollaborators example_post_key (None, []) = (None, []).
Proof.
  apply (@updateListField_skips _ example_schemaCollaborators).
  right. left. reflexivity.
Defined.

Lemma reconciliation_adds_index_witness :
  ∃ ctx',
    @updateTableForConnection example_collaborators example_hasMany example_context
    = (Returns (withIndexName example_hasMany
                  (derivedIndexName example_context example_hasMany)), ctx').
Proof.
  apply (@reconciliation_adds_index example_collaborators example_hasMany example_context
           example_commentTable "S"
           (Some (mkSortKeyAttributeDefinitions
                    "Post_comments_title#Post_comments_createdAt" "S"))).
  - reflexivity.
  - reflexivity.
  - vm_compute. reflexivity.
  - vm_compute. reflexivity.
  - reflexivity.
  - vm_compute. reflexivity.
  - vm_compute. reflexivity.
  - vm_compute. exact I.
  - intros d [= <-]. vm_compute. exact I.
Defined.
